(** * js-jose: JSON Web Encryption codec (dist/jose-jwe.js)

    A shallow embedding of the JWE codec and the properties its
    specification states about it.

    Conventions of the embedding.
    - A JavaScript string is a [string]: its code units are the 8-bit
      characters of [ascii].  Every string the codec consumes goes through
      [atob], which raises on any code unit above 255 exactly as it does on
      any other character outside the base64 alphabet.
    - A [Uint8Array], an [ArrayBuffer] and a plain [Array] of numbers are a
      [list Z]; the elements of the first two are in [0, 256).
    - A JavaScript object used as a record is a Rocq record whose optional
      members are [option]s ([None] is [undefined]); an object used as a
      dictionary is a [gmap string value].
    - A promise is represented by the way it settles ([outcome]); the calls
      made into the Web Crypto API are recorded, in the order the data
      dependencies of the promise chains impose, in a trace. *)

From Stdlib Require Import ZArith Lia Ascii List Bool.
From stdpp Require Import gmap strings list pretty.

Set Warnings "-register-all".
Local Open Scope Z_scope.

(** ** Failures *)

Inductive error :=
| Error (msg : string)       (* [throw new Error(msg)], raised by JoseJWE.assert *)
| Reason (msg : string)      (* the bare string given to [Promise.reject] *)
| HostError (name : string). (* exception of a built-in or of the crypto provider *)

(** How a call ends: a value (for a promise: fulfilled with that value), a
    rejected promise, or an exception thrown synchronously. *)
Inductive outcome (A : Type) :=
| Resolved (a : A)
| Rejected (e : error)
| Thrown (e : error).
Arguments Resolved {A} a.
Arguments Rejected {A} e.
Arguments Thrown {A} e.

Definition is_failure {A} (o : outcome A) : Prop :=
  match o with Resolved _ => False | _ => True end.

(** Sequencing of synchronous code: an exception aborts what follows. *)
Definition obind {A B} (o : outcome A) (k : A -> outcome B) : outcome B :=
  match o with
  | Resolved a => k a
  | Rejected e => Rejected e
  | Thrown e => Thrown e
  end.

Notation "'let*' x ':=' c 'in' k" := (obind c (fun x => k))
  (at level 10, x pattern, c at level 100, k at level 200).

(** JoseJWE.assert *)
Definition assert (expr : bool) (msg : string) : outcome unit :=
  if expr then Resolved tt else Thrown (Error msg).

(** ** JavaScript values *)

(** The values [JSON.parse] gives and the members of a key.  A number is
    an integer: the fractions, the infinities and NaN are not values of
    this development. *)
Inductive value :=
| VUndefined
| VNull
| VBool (b : bool)
| VNumber (z : Z)
| VString (s : string)
| VArray (l : list value)
| VObject (props : list (string * value)).

Fixpoint join (sep : string) (l : list string) : string :=
  match l with
  | [] => ""
  | [s] => s
  | s :: rest => s +:+ sep +:+ join sep rest
  end.

(** The abstract operation ToString.  An integer is printed in decimal,
    which is how JavaScript prints the integers of magnitude below
    10^21. *)
Fixpoint ToString (v : value) : string :=
  match v with
  | VUndefined => "undefined"
  | VNull => "null"
  | VBool b => if b then "true" else "false"
  | VNumber z => pretty z
  | VString s => s
  | VArray l =>
      join "," (map (fun x => match x with
                              | VUndefined | VNull => ""
                              | _ => ToString x
                              end) l)
  | VObject _ => "[object Object]"
  end.

(** ToBoolean: what [!v] and [if (v)] test. *)
Definition truthy (v : value) : bool :=
  match v with
  | VUndefined | VNull => false
  | VBool b => b
  | VNumber z => negb (z =? 0)
  | VString s => negb (String.eqb s "")
  | VArray _ | VObject _ => true
  end.

(** [v == lit] for a string literal [lit] that is not numeric. *)
Definition loose_eq_string (v : value) (lit : string) : bool :=
  match v with
  | VString _ | VArray _ | VObject _ => String.eqb (ToString v) lit
  | _ => false
  end.

Fixpoint assoc (p : string) (props : list (string * value)) : value :=
  match props with
  | [] => VUndefined
  | (k, v) :: rest => if String.eqb k p then v else assoc p rest
  end.

(** Property read [v.p] for a name [p] that no prototype defines. *)
Definition get (v : value) (p : string) : outcome value :=
  match v with
  | VUndefined | VNull => Thrown (HostError "TypeError")
  | VObject props => Resolved (assoc p props)
  | _ => Resolved VUndefined
  end.

(** ** Algorithm registry *)

(** An algorithm identifier of the Web Crypto API:
    [{name, hash: {name}, length}]. *)
Record AlgorithmIdentifier := {
  alg_name : string;
  alg_hash : option string;
  alg_length : option Z
}.

Record AuthConfig := {
  aead : bool;
  tag_bytes : option Z;
  key_bytes : option Z;
  auth_id : option AlgorithmIdentifier;
  truncated_bytes : option Z
}.

Record CryptoConfig := {
  jwe_name : option string;
  cfg_id : AlgorithmIdentifier;
  iv_bytes : option Z;
  specific_cek_bytes : option Z;
  auth : option AuthConfig
}.

Definition key_config (jwe : string) (i : AlgorithmIdentifier) : CryptoConfig :=
  {| jwe_name := Some jwe; cfg_id := i; iv_bytes := None;
     specific_cek_bytes := None; auth := None |}.

Definition getCryptoConfig_string (alg : string) : option CryptoConfig :=
  (* Key encryption *)
  if String.eqb alg "RSA-OAEP" then
    Some (key_config "RSA-OAEP"
            {| alg_name := "RSA-OAEP"; alg_hash := Some "SHA-1"; alg_length := None |})
  else if String.eqb alg "RSA-OAEP-256" then
    Some (key_config "RSA-OAEP-256"
            {| alg_name := "RSA-OAEP"; alg_hash := Some "SHA-256"; alg_length := None |})
  else if String.eqb alg "A128KW" then
    Some (key_config "A128KW"
            {| alg_name := "AES-KW"; alg_hash := None; alg_length := Some 128 |})
  else if String.eqb alg "A256KW" then
    Some (key_config "A256KW"
            {| alg_name := "AES-KW"; alg_hash := None; alg_length := Some 256 |})
  (* Content encryption *)
  else if String.eqb alg "A128CBC-HS256" then
    Some {| jwe_name := Some "A128CBC-HS256";
            cfg_id := {| alg_name := "AES-CBC"; alg_hash := None; alg_length := Some 128 |};
            iv_bytes := Some 16;
            specific_cek_bytes := Some 32;
            auth := Some {| aead := false; tag_bytes := None;
                            key_bytes := Some 16;
                            auth_id := Some {| alg_name := "HMAC"; alg_hash := Some "SHA-256";
                                               alg_length := None |};
                            truncated_bytes := Some 16 |} |}
  else if String.eqb alg "A256CBC-HS512" then
    Some {| jwe_name := None;
            cfg_id := {| alg_name := "AES-CBC"; alg_hash := None; alg_length := Some 256 |};
            iv_bytes := Some 16;
            specific_cek_bytes := Some 64;
            auth := Some {| aead := false; tag_bytes := None;
                            key_bytes := Some 32;
                            auth_id := Some {| alg_name := "HMAC"; alg_hash := Some "SHA-512";
                                               alg_length := None |};
                            truncated_bytes := Some 32 |} |}
  else if String.eqb alg "A128GCM" then
    Some {| jwe_name := None;
            cfg_id := {| alg_name := "AES-GCM"; alg_hash := None; alg_length := Some 128 |};
            iv_bytes := Some 12;
            specific_cek_bytes := None;
            auth := Some {| aead := true; tag_bytes := Some 16; key_bytes := None;
                            auth_id := None; truncated_bytes := None |} |}
  else if String.eqb alg "A256GCM" then
    Some {| jwe_name := Some "A256GCM";
            cfg_id := {| alg_name := "AES-GCM"; alg_hash := None; alg_length := Some 256 |};
            iv_bytes := Some 12;
            specific_cek_bytes := None;
            auth := Some {| aead := true; tag_bytes := Some 16; key_bytes := None;
                            auth_id := None; truncated_bytes := None |} |}
  else None.

(** JoseJWE.getCryptoConfig: the [switch] compares with [===], so only a
    string can select a case; the default case fails the assertion. *)
Definition getCryptoConfig (alg : value) : outcome CryptoConfig :=
  match alg with
  | VString s =>
      match getCryptoConfig_string s with
      | Some c => Resolved c
      | None => Thrown (Error ("unsupported algorithm: " +:+ ToString alg))
      end
  | _ => Thrown (Error ("unsupported algorithm: " +:+ ToString alg))
  end.

(** The codec instance: [this.key_encryption], [this.content_encryption]. *)
Record JoseJWE := {
  key_encryption : CryptoConfig;
  content_encryption : CryptoConfig
}.

(** JoseJWE.prototype.setKeyEncryptionAlgorithm *)
Definition setKeyEncryptionAlgorithm (this : JoseJWE) (alg : value) : outcome JoseJWE :=
  let* c := getCryptoConfig alg in
  Resolved {| key_encryption := c; content_encryption := content_encryption this |}.

(** JoseJWE.prototype.setContentEncryptionAlgorithm *)
Definition setContentEncryptionAlgorithm (this : JoseJWE) (alg : value) : outcome JoseJWE :=
  let* c := getCryptoConfig alg in
  Resolved {| key_encryption := key_encryption this; content_encryption := c |}.

(** ** JoseJWE.Utils *)

Module Utils.

(** [c.charCodeAt(0)] and [String.fromCharCode(z)] for a code unit below 256. *)
Definition charCodeAt (c : ascii) : Z := Z.of_N (N_of_ascii c).
Definition fromCharCode (z : Z) : ascii := ascii_of_N (Z.to_N z).

(** The elements of a [Uint8Array] or of an [ArrayBuffer]. *)
Definition is_byte (b : Z) : Prop := 0 <= b < 256.
Definition is_byteb (b : Z) : bool := (0 <=? b) && (b <? 256).

(** JoseJWE.Utils.arrayFromString: the char codes of [str], as a
    Uint8Array.  The code units of a [string] are below 256, so that the
    store into the Uint8Array keeps them; [Typed.arrayFromString] below
    has the assertion on the argument and the wider code units. *)
Definition arrayFromString (str : string) : list Z :=
  map charCodeAt (String.list_ascii_of_string str).

(** JoseJWE.Utils.stringFromArray: [r += String.fromCharCode(arr[i])] over
    the bytes of an ArrayBuffer; [Typed.stringFromArray] below has the
    assertion that the argument is one. *)
Definition stringFromArray (arr : list Z) : string :=
  String.string_of_list_ascii (map fromCharCode arr).

(** JoseJWE.Utils.stripLeadingZeros: the loop with its [is_leading_zero]
    flag; the result is a plain Array. *)
Fixpoint stripLeadingZeros_loop (is_leading_zero : bool) (arr : list Z) : list Z :=
  match arr with
  | [] => []
  | x :: rest =>
      if is_leading_zero && (x =? 0)
      then stripLeadingZeros_loop is_leading_zero rest
      else x :: stripLeadingZeros_loop false rest
  end.

Definition stripLeadingZeros (arr : list Z) : list Z :=
  stripLeadingZeros_loop true arr.

(** [new Uint32Array([i])]: the element is ToUint32 of the number. *)
Definition ToUint32 (i : Z) : Z := i mod 2 ^ 32.

(** [new Uint8Array(new Uint32Array([i]).buffer)]: the four bytes of the
    word in the byte order of the host, which is little-endian on every
    platform the Web Crypto API runs on. *)
Definition Uint32Array_buffer (i : Z) : list Z :=
  let w := ToUint32 i in
  [w mod 256; (w / 2 ^ 8) mod 256; (w / 2 ^ 16) mod 256; (w / 2 ^ 24) mod 256].

(** JoseJWE.Utils.arrayFromInt32.  Its argument is a number (first
    assertion); the second assertion reads [(i == i) | 0], which is 1 for
    every number but NaN, so no integer is refused.  The loop stores
    [r[j] = buf[3-j]] for [j] from 0 to 3. *)
Definition arrayFromInt32 (i : Z) : list Z :=
  let buf := Uint32Array_buffer i in
  foldl (fun r j => <[j := buf !!! (3 - j)%nat]> r) (replicate 4 0) (seq 0 4).

(** JoseJWE.Utils.arrayBufferConcat.  [write_at] is the inner loop
    [r[offset++] = args[i][j]]; every element written was read from a
    Uint8Array, so the store does not wrap.  [Typed.arrayBufferConcat]
    below has the arguments of the other kinds and the store of an
    arbitrary integer. *)
Fixpoint write_at (r : list Z) (offset : nat) (arg : list Z) : list Z * nat :=
  match arg with
  | [] => (r, offset)
  | x :: rest => write_at (<[offset := x]> r) (S offset) rest
  end.

Definition arrayBufferConcat (args : list (list Z)) : outcome (list Z) :=
  let total := foldl (fun t a => (t + length a)%nat) 0%nat args in
  let '(r, offset) :=
    foldl (fun '(r, offset) a => write_at r offset a) (replicate total 0, 0%nat) args in
  let* _ := assert (Nat.eqb offset total) "arrayBufferConcat: unexpected offset" in
  Resolved r.

(** JoseJWE.Utils.compare.  [compare_loop n i ok] runs [n] iterations of
    [ok |= arr1[i]^arr2[i]; i++] and returns the final [ok] and [i]. *)
Fixpoint compare_loop (n i : nat) (ok : Z) (arr1 arr2 : list Z) : Z * nat :=
  match n with
  | O => (ok, i)
  | S n' => compare_loop n' (S i) (Z.lor ok (Z.lxor (arr1 !!! i) (arr2 !!! i))) arr1 arr2
  end.

Definition compare (arr1 arr2 : list Z) : bool :=
  if negb (Nat.eqb (length arr1) (length arr2)) then false
  else (fst (compare_loop (length arr1) 0 0 arr1 arr2) =? 0).

(** JoseJWE.Utils.getCekWorkaround *)
Record CekWorkaround := {
  hack_id : AlgorithmIdentifier;
  enc_op : list string;
  dec_op : list string
}.

Definition getCekWorkaround (alg : CryptoConfig) : outcome CekWorkaround :=
  let aes_cbc n := {| alg_name := "AES-CBC"; alg_hash := None; alg_length := Some n |} in
  let hmac h := {| alg_name := "HMAC"; alg_hash := Some h; alg_length := None |} in
  let plain := {| hack_id := cfg_id alg; enc_op := ["encrypt"]; dec_op := ["decrypt"] |} in
  match specific_cek_bytes alg with
  | None => Resolved plain
  | Some len =>
      if len =? 0 then Resolved plain
      else if len =? 16 then
        Resolved {| hack_id := aes_cbc 128; enc_op := ["encrypt"]; dec_op := ["decrypt"] |}
      else if len =? 32 then
        Resolved {| hack_id := aes_cbc 256; enc_op := ["encrypt"]; dec_op := ["decrypt"] |}
      else if len =? 64 then
        Resolved {| hack_id := hmac "SHA-256"; enc_op := ["sign"]; dec_op := ["verify"] |}
      else if len =? 128 then
        Resolved {| hack_id := hmac "SHA-384"; enc_op := ["sign"]; dec_op := ["verify"] |}
      else Thrown (Error "getCekWorkaround: invalid len")
  end.

(** [str.split(sep)] for a one-character separator: never an empty list. *)
Fixpoint split_list (sep : ascii) (s : list ascii) : list (list ascii) :=
  match s with
  | [] => [[]]
  | c :: rest =>
      if Ascii.eqb c sep then [] :: split_list sep rest
      else match split_list sep rest with
           | p :: ps => (c :: p) :: ps
           | [] => [[c]]
           end
  end.

Definition split (sep : ascii) (str : string) : list string :=
  map String.string_of_list_ascii (split_list sep (String.list_ascii_of_string str)).

Module Base64Url.

(** *** The built-ins [btoa] and [atob] (WHATWG HTML, base64 utility methods) *)

(** The character of a six-bit value in the base64 alphabet
    [A-Z a-z 0-9 + /], and back. *)
Definition sextet_char (s : Z) : ascii :=
  fromCharCode
    (if s <? 26 then s + 65
     else if s <? 52 then s + 71
     else if s <? 62 then s - 4
     else if s =? 62 then 43 else 47).

Definition char_sextet (c : ascii) : option Z :=
  let n := charCodeAt c in
  if (65 <=? n) && (n <=? 90) then Some (n - 65)
  else if (97 <=? n) && (n <=? 122) then Some (n - 71)
  else if (48 <=? n) && (n <=? 57) then Some (n + 4)
  else if n =? 43 then Some 62
  else if n =? 47 then Some 63
  else None.

Definition pad : ascii := "="%char.

(** [btoa] on the code units of its argument: three bytes give four
    characters, a final group of one or two bytes is padded with [=]. *)
Fixpoint btoa_list (l : list Z) : list ascii :=
  match l with
  | [] => []
  | [a] => [sextet_char (a / 4); sextet_char (a mod 4 * 16); pad; pad]
  | [a; b] =>
      [sextet_char (a / 4); sextet_char (a mod 4 * 16 + b / 16);
       sextet_char (b mod 16 * 4); pad]
  | a :: b :: c :: rest =>
      sextet_char (a / 4) :: sextet_char (a mod 4 * 16 + b / 16)
      :: sextet_char (b mod 16 * 4 + c / 64) :: sextet_char (c mod 64)
      :: btoa_list rest
  end.

Definition btoa (str : string) : string :=
  String.string_of_list_ascii (btoa_list (arrayFromString str)).

(** [atob] is the forgiving-base64 decode: ASCII whitespace is removed; if
    the length is then a multiple of four, one or two final [=] are
    removed; a length of 1 modulo 4 or a character outside the alphabet
    raises InvalidCharacterError; the bits left over by a final group of
    two or three characters are discarded. *)
Definition is_ascii_whitespace (c : ascii) : bool :=
  let n := charCodeAt c in
  (n =? 9) || (n =? 10) || (n =? 12) || (n =? 13) || (n =? 32).

Definition remove_padding (data : list ascii) : list ascii :=
  if (Z.of_nat (length data) mod 4 =? 0) then
    match rev data with
    | c1 :: c2 :: r =>
        if Ascii.eqb c1 pad
        then if Ascii.eqb c2 pad then rev r else rev (c2 :: r)
        else data
    | _ => data
    end
  else data.

Fixpoint sextets (data : list ascii) : option (list Z) :=
  match data with
  | [] => Some []
  | c :: rest =>
      match char_sextet c, sextets rest with
      | Some s, Some l => Some (s :: l)
      | _, _ => None
      end
  end.

Fixpoint decode_sextets (l : list Z) : list Z :=
  match l with
  | s1 :: s2 :: s3 :: s4 :: rest =>
      (s1 * 4 + s2 / 16) :: (s2 mod 16 * 16 + s3 / 4) :: (s3 mod 4 * 64 + s4)
      :: decode_sextets rest
  | [s1; s2; s3] => [s1 * 4 + s2 / 16; s2 mod 16 * 16 + s3 / 4]
  | [s1; s2] => [s1 * 4 + s2 / 16]
  | _ => []
  end.

Definition atob (str : string) : outcome string :=
  let data := List.filter (fun c => negb (is_ascii_whitespace c)) (String.list_ascii_of_string str) in
  let data := remove_padding data in
  if Z.of_nat (length data) mod 4 =? 1 then Thrown (HostError "InvalidCharacterError")
  else match sextets data with
       | None => Thrown (HostError "InvalidCharacterError")
       | Some l => Resolved (stringFromArray (decode_sextets l))
       end.

(** [str.replace(/a/g, b)] for single characters. *)
Definition replace_all (a b : ascii) (s : list ascii) : list ascii :=
  map (fun c => if Ascii.eqb c a then b else c) s.

(** [str.replace(/=+$/, "")] *)
Fixpoint drop_pad (rev_s : list ascii) : list ascii :=
  match rev_s with
  | c :: rest => if Ascii.eqb c pad then drop_pad rest else rev_s
  | [] => []
  end.

Definition strip_trailing_pad (s : list ascii) : list ascii := rev (drop_pad (rev s)).

(** JoseJWE.Utils.Base64Url.encode *)
Definition encode (str : string) : string :=
  String.string_of_list_ascii
    (strip_trailing_pad
       (replace_all "/" "_" (replace_all "+" "-" (String.list_ascii_of_string (btoa str))))).

(** JoseJWE.Utils.Base64Url.encodeArray.  [String.fromCharCode] takes its
    argument modulo 2^16; [btoa] raises InvalidCharacterError when one of
    the code units of [r] is above 255. *)
Definition encodeArray (arr : list Z) : outcome string :=
  let units := map (fun x => x mod 2 ^ 16) arr in
  if forallb (fun u => u <? 256) units
  then Resolved (encode (stringFromArray units))
  else Thrown (HostError "InvalidCharacterError").

(** JoseJWE.Utils.Base64Url.decode *)
Definition decode (str : string) : outcome string :=
  atob (String.string_of_list_ascii
          (replace_all "_" "/" (replace_all "-" "+" (String.list_ascii_of_string str)))).

(** JoseJWE.Utils.Base64Url.decodeArray *)
Definition decodeArray (str : string) : outcome (list Z) :=
  let* s := decode str in
  Resolved (arrayFromString s).

End Base64Url.

(** *** RSA key normalisation *)

Definition is_hex (c : ascii) : bool :=
  let n := charCodeAt c in
  ((48 <=? n) && (n <=? 57)) || ((97 <=? n) && (n <=? 102)) || ((65 <=? n) && (n <=? 70)).

(** [/^([0-9a-fA-F]{2}:)+[0-9a-fA-F]{2}$/.test(s)] *)
Fixpoint hex_pairs (s : list ascii) : bool :=
  match s with
  | [a; b] => is_hex a && is_hex b
  | a :: b :: c :: rest => is_hex a && is_hex b && Ascii.eqb c ":" && hex_pairs rest
  | _ => false
  end.

Definition hex_colon_test (s : string) : bool :=
  match String.list_ascii_of_string s with
  | a :: b :: c :: rest => is_hex a && is_hex b && Ascii.eqb c ":" && hex_pairs rest
  | _ => false
  end.

Definition hex_digit (c : ascii) : Z :=
  let n := charCodeAt c in
  if n <=? 57 then n - 48 else if n <=? 70 then n - 55 else n - 87.

(** [parseInt(e, 16)] on a string of hexadecimal digits. *)
Definition intFromHex (e : string) : Z :=
  foldl (fun acc c => acc * 16 + hex_digit c) 0 (String.list_ascii_of_string e).

(** [rsa_key[p]]; a member that is absent reads as [undefined]. *)
Definition member (rsa_key : gmap string value) (p : string) : value :=
  default VUndefined (rsa_key !! p).

Definition is_undefined (v : value) : bool :=
  match v with VUndefined => true | _ => false end.

(** The body of the loop over [parameters]: the value stored in [r[p]]. *)
Definition convertRsaKey_value (p : string) (v : value) : outcome value :=
  if String.eqb p "e" then
    match v with
    | VNumber z =>
        let* s := Base64Url.encodeArray (stripLeadingZeros (arrayFromInt32 z)) in
        Resolved (VString s)
    | _ => Resolved v
    end
  else if hex_colon_test (ToString v) then
    match v with
    | VString s =>
        let arr := map intFromHex (split ":" s) in
        let* s := Base64Url.encodeArray (stripLeadingZeros arr) in
        Resolved (VString s)
    | _ => Thrown (HostError "TypeError")
    end
  else
    match v with
    | VString _ => Resolved v
    | _ => Thrown (Error ("convertRsaKey: expecting rsa_key['" +:+ p +:+ "'] to be a string"))
    end.

Fixpoint convertRsaKey_loop (rsa_key : gmap string value) (parameters : list string)
    (r : gmap string value) : outcome (gmap string value) :=
  match parameters with
  | [] => Resolved r
  | p :: rest =>
      let* v := convertRsaKey_value p (member rsa_key p) in
      convertRsaKey_loop rsa_key rest (<[p := v]> r)
  end.

(** JoseJWE.Utils.convertRsaKey *)
Definition convertRsaKey (rsa_key : gmap string value) (parameters : list string)
    : outcome (gmap string value) :=
  let r : gmap string value := ∅ in
  let missing := List.filter (fun p => is_undefined (member rsa_key p)) parameters in
  let* _ := if (0 <? length missing)%nat
            then assert false ("convertRsaKey: Was expecting " +:+ join "," missing)
            else Resolved tt in
  let* _ := if negb (is_undefined (member rsa_key "kty"))
            then assert (loose_eq_string (member rsa_key "kty") "RSA")
                        "convertRsaKey: expecting rsa_key['kty'] to be 'RSA'"
            else Resolved tt in
  let r := <["kty" := VString "RSA"]> r in
  let* _ := if negb (is_undefined (member rsa_key "alg"))
            then assert (loose_eq_string (member rsa_key "alg") "RSA-OAEP")
                        "convertRsaKey: expecting rsa_key['alg'] to be 'RSA-OAEP'"
            else Resolved tt in
  let r := <["alg" := VString "RSA-OAEP"]> r in
  convertRsaKey_loop rsa_key parameters r.

End Utils.

(** ** The host: Web Crypto provider and JSON parser *)

(** The algorithm parameters given to [crypto.subtle.decrypt]:
    [{name, iv, additionalData, tagLength}]. *)
Record CipherParams := {
  cp_name : string;
  cp_iv : list Z;
  cp_additionalData : option (list Z);
  cp_tagLength : option Z
}.

(** The operations of the host the decryption path consumes.  Each one is a
    function of its arguments; a provider operation returns the way its
    promise settles.  Key formats are fixed by the call sites: keys are
    wrapped, exported and imported as "raw". *)
Class Host := {
  CryptoKey : Type;
  JSON_parse : string -> outcome value;
  subtle_unwrapKey :
    list Z -> CryptoKey -> AlgorithmIdentifier -> AlgorithmIdentifier ->
    bool -> list string -> outcome CryptoKey;
  subtle_exportKey : CryptoKey -> outcome (list Z);
  subtle_importKey :
    list Z -> AlgorithmIdentifier -> bool -> list string -> outcome CryptoKey;
  subtle_sign : AlgorithmIdentifier -> CryptoKey -> list Z -> outcome (list Z);
  subtle_decrypt : CipherParams -> CryptoKey -> list Z -> outcome (list Z)
}.

(** A call into the provider, with its arguments. *)
Inductive call `{Host} :=
| UnwrapKey (wrapped : list Z) (key : CryptoKey) (wrapAlg innerAlg : AlgorithmIdentifier)
    (extractable : bool) (usages : list string)
| ExportKey (key : CryptoKey)
| ImportKey (raw : list Z) (alg : AlgorithmIdentifier) (extractable : bool)
    (usages : list string)
| Sign (alg : AlgorithmIdentifier) (key : CryptoKey) (data : list Z)
| Decrypt (params : CipherParams) (key : CryptoKey) (data : list Z).

Section Codec.
Context `{H : Host}.

(** *** The codec monad

    A method of the codec reads and writes [this], calls the provider and
    ends in an [outcome].  The trace lists the provider calls the method
    gives rise to, each chain of [then] callbacks in the order it is set
    up. *)
Definition M (A : Type) : Type := JoseJWE -> outcome A * JoseJWE * list call.

Definition ret {A} (a : A) : M A := fun this => (Resolved a, this, []).

Definition bind {A B} (m : M A) (k : A -> M B) : M B :=
  fun this =>
    match m this with
    | (Resolved a, this', t) =>
        let '(o, this'', t') := k a this' in (o, this'', t ++ t')
    | (Rejected e, this', t) => (Rejected e, this', t)
    | (Thrown e, this', t) => (Thrown e, this', t)
    end.

Notation "x <- m ; k" := (bind m (fun x => k))
  (at level 20, m at level 100, k at level 200, only parsing).
Notation "' p <- m ; k" := (bind m (fun x => let p := x in k))
  (at level 20, p pattern, m at level 100, k at level 200, only parsing).

(** The result of a synchronous computation. *)
Definition lift {A} (o : outcome A) : M A := fun this => (o, this, []).

(** [return Promise.reject(msg)] *)
Definition reject {A} (msg : string) : M A := lift (Rejected (Reason msg)).

Definition get_this : M JoseJWE := fun this => (Resolved this, this, []).
Definition set_this (this' : JoseJWE) : M unit := fun _ => (Resolved tt, this', []).

(** A member that must be an object or a value: reading through
    [undefined] raises TypeError. *)
Definition defined {A} (o : option A) : M A :=
  match o with
  | Some a => ret a
  | None => lift (Thrown (HostError "TypeError"))
  end.

(** The promise an expression evaluates to: the computation is run, and
    the way it settles becomes a value the caller holds on to.  An
    exception thrown before the promise exists still aborts the caller. *)
Definition promise_of {A} (m : M A) : M (outcome A) :=
  fun this =>
    match m this with
    | (Thrown e, this', t) => (Thrown e, this', t)
    | (o, this', t) => (Resolved o, this', t)
    end.

(** [p.then(cb)]: the callback runs only if [p] is fulfilled; what it
    returns, or the promise it returns, settles the result; an exception
    in the callback rejects it. *)
Definition then_ {A B} (p : outcome A) (cb : A -> M B) : M B :=
  match p with
  | Resolved a =>
      fun this =>
        match cb a this with
        | (Thrown e, this', t) => (Rejected e, this', t)
        | r => r
        end
  | Rejected e | Thrown e => lift (Rejected e)
  end.

(** [Promise.all([p1, p2])]; when both are rejected the reason of the
    first in array order is reported. *)
Definition all2 {A B} (p1 : outcome A) (p2 : outcome B) : outcome (A * B) :=
  match p1, p2 with
  | Resolved a, Resolved b => Resolved (a, b)
  | Resolved _, Rejected e | Resolved _, Thrown e => Rejected e
  | Rejected e, _ | Thrown e, _ => Rejected e
  end.

(** Calls into the provider. *)
Definition call_unwrapKey wrapped key wrapAlg innerAlg extractable usages : M CryptoKey :=
  fun this =>
    (subtle_unwrapKey wrapped key wrapAlg innerAlg extractable usages, this,
     [UnwrapKey wrapped key wrapAlg innerAlg extractable usages]).

Definition call_exportKey (key : CryptoKey) : M (list Z) :=
  fun this => (subtle_exportKey key, this, [ExportKey key]).

Definition call_importKey raw alg extractable usages : M CryptoKey :=
  fun this =>
    (subtle_importKey raw alg extractable usages, this,
     [ImportKey raw alg extractable usages]).

Definition call_sign alg (key : CryptoKey) (data : list Z) : M (list Z) :=
  fun this => (subtle_sign alg key data, this, [Sign alg key data]).

Definition call_decrypt params (key : CryptoKey) (data : list Z) : M (list Z) :=
  fun this => (subtle_decrypt params key data, this, [Decrypt params key data]).

(** Numbers that may be [undefined]: arithmetic on [undefined] gives NaN,
    which [!=] finds different from everything. *)
Definition times8 (n : option Z) : option Z := (fun x => x * 8) <$> n.
Definition plus (a b : option Z) : option Z :=
  match a, b with Some x, Some y => Some (x + y) | _, _ => None end.
Definition differs (a : Z) (b : option Z) : bool :=
  match b with Some y => negb (a =? y) | None => true end.

(** [buf.slice(begin, end)] of an ArrayBuffer; a negative index counts from
    the end, an [undefined] one is the default. *)
Definition clamp (len : nat) (i : Z) : nat :=
  if i <? 0 then Z.to_nat (Z.max 0 (Z.of_nat len + i)) else Nat.min (Z.to_nat i) len.

Definition slice (buf : list Z) (begin end_ : option Z) : list Z :=
  let len := length buf in
  let b := match begin with Some i => clamp len i | None => 0%nat end in
  let e := match end_ with Some i => clamp len i | None => len end in
  take (e - b) (drop b buf).

(** *** JoseJWE.MacThenEncrypt *)

(** JoseJWE.MacThenEncrypt.splitKey.  [cek_bytes_promise] is one promise
    with two callbacks: the key is exported once. *)
Definition splitKey (config : CryptoConfig) (cek_promise : outcome CryptoKey)
    (purpose : list string) : M (outcome CryptoKey * outcome CryptoKey) :=
  cek_bytes_promise <- promise_of (then_ cek_promise (fun cek => call_exportKey cek)) ;
  mac_key_promise <- promise_of (then_ cek_bytes_promise (fun cek_bytes =>
    a <- defined (auth config) ;
    if differs (Z.of_nat (length cek_bytes) * 8)
               (plus (alg_length (cfg_id config)) (times8 (key_bytes a)))
    then reject "encryptPlainText: incorrect cek length"
    else
      let bytes := slice cek_bytes (Some 0) (key_bytes a) in
      i <- defined (auth_id a) ;
      call_importKey bytes i false ["sign"])) ;
  enc_key_promise <- promise_of (then_ cek_bytes_promise (fun cek_bytes =>
    a <- defined (auth config) ;
    if differs (Z.of_nat (length cek_bytes) * 8)
               (plus (alg_length (cfg_id config)) (times8 (key_bytes a)))
    then reject "encryptPlainText: incorrect cek length"
    else
      let bytes := slice cek_bytes (key_bytes a) None in
      call_importKey bytes (cfg_id config) false purpose)) ;
  ret (mac_key_promise, enc_key_promise).

(** [al_full.set(al, 4)] *)
Definition set (target source : list Z) (offset : nat) : list Z :=
  fst (Utils.write_at target offset source).

(** JoseJWE.MacThenEncrypt.truncatedMac *)
Definition truncatedMac (config : CryptoConfig) (mac_key_promise : outcome CryptoKey)
    (aad iv cipher_text : list Z) : M (list Z) :=
  then_ mac_key_promise (fun mac_key =>
    let al := Utils.arrayFromInt32 (Z.of_nat (length aad) * 8) in
    let al_full := set (replicate 8 0) al 4 in
    buf <- lift (Utils.arrayBufferConcat [aad; iv; cipher_text; al_full]) ;
    a <- defined (auth config) ;
    i <- defined (auth_id a) ;
    signature <- promise_of (call_sign i mac_key buf) ;
    then_ signature (fun bytes => ret (slice bytes (Some 0) (truncated_bytes a)))).

(** *** Decryption *)

(** JoseJWE.prototype.decryptCek *)
Definition decryptCek (key_promise : outcome CryptoKey) (encrypted_cek : list Z)
    : M CryptoKey :=
  this <- get_this ;
  hack <- lift (Utils.getCekWorkaround (content_encryption this)) ;
  let extractable :=
    match specific_cek_bytes (content_encryption this) with
    | Some n => 0 <? n
    | None => false
    end in
  let key_encryption := cfg_id (key_encryption this) in
  then_ key_promise (fun key =>
    call_unwrapKey encrypted_cek key key_encryption (Utils.hack_id hack) extractable
      (Utils.dec_op hack)).

(** JoseJWE.prototype.decryptCiphertext *)
Definition decryptCiphertext (cek_promise : outcome CryptoKey)
    (aad iv cipher_text tag : list Z) : M (list Z) :=
  this <- get_this ;
  if differs (Z.of_nat (length iv)) (iv_bytes (content_encryption this))
  then reject "decryptCiphertext: invalid IV"
  else
    let config := content_encryption this in
    a <- defined (auth config) ;
    if aead a then
      let dec := {| cp_name := alg_name (cfg_id config);
                    cp_iv := iv;
                    cp_additionalData := Some aad;
                    cp_tagLength := times8 (tag_bytes a) |} in
      then_ cek_promise (fun cek =>
        buf <- lift (Utils.arrayBufferConcat [cipher_text; tag]) ;
        call_decrypt dec cek buf)
    else
      ' (mac_key_promise, enc_key_promise) <- splitKey config cek_promise ["decrypt"] ;
      (* Validate the MAC *)
      mac_promise <- promise_of (truncatedMac config mac_key_promise aad iv cipher_text) ;
      then_ (all2 enc_key_promise mac_promise) (fun all =>
        let enc_key := fst all in
        let mac := snd all in
        if negb (Utils.compare mac tag)
        then reject "decryptCiphertext: MAC failed."
        else
          let dec := {| cp_name := alg_name (cfg_id config);
                        cp_iv := iv;
                        cp_additionalData := None;
                        cp_tagLength := None |} in
          call_decrypt dec enc_key cipher_text).

(** The setters, as methods. *)
Definition set_key_encryption (alg : value) : M unit :=
  this <- get_this ;
  this' <- lift (setKeyEncryptionAlgorithm this alg) ;
  set_this this'.

Definition set_content_encryption (alg : value) : M unit :=
  this <- get_this ;
  this' <- lift (setContentEncryptionAlgorithm this alg) ;
  set_this this'.

(** JoseJWE.prototype.decrypt *)
Definition decrypt (key_promise : outcome CryptoKey) (cipher_text : string) : M string :=
  (* Split cipher_text in 5 parts *)
  let parts := Utils.split "." cipher_text in
  if negb (Nat.eqb (length parts) 5) then reject "decrypt: invalid input"
  else
    (* part 1: header *)
    json <- lift (Utils.Base64Url.decode (parts !!! 0%nat)) ;
    header <- lift (JSON_parse json) ;
    alg <- lift (get header "alg") ;
    if negb (truthy alg) then reject "decrypt: missing alg"
    else
      _ <- set_key_encryption alg ;
      enc <- lift (get header "enc") ;
      if negb (truthy enc) then reject "decrypt: missing enc"
      else
        _ <- set_content_encryption enc ;
        crit <- lift (get header "crit") ;
        if truthy crit then reject "decrypt: crit is not supported"
        else
          (* part 2: decrypt the CEK *)
          encrypted_cek <- lift (Utils.Base64Url.decodeArray (parts !!! 1%nat)) ;
          cek_promise <- promise_of (decryptCek key_promise encrypted_cek) ;
          (* part 3: decrypt the cipher text *)
          let aad := Utils.arrayFromString (parts !!! 0%nat) in
          iv <- lift (Utils.Base64Url.decodeArray (parts !!! 2%nat)) ;
          cipher <- lift (Utils.Base64Url.decodeArray (parts !!! 3%nat)) ;
          tag <- lift (Utils.Base64Url.decodeArray (parts !!! 4%nat)) ;
          plain_text_promise <- promise_of (decryptCiphertext cek_promise aad iv cipher tag) ;
          then_ plain_text_promise (fun arr => ret (Utils.stringFromArray arr)).

End Codec.

(** ** Encryption: the protected header *)

(** [JSON.stringify] of a string: the quotation mark, the backslash and
    the control characters are escaped. *)
Definition quotation_mark : ascii := ascii_of_nat 34.
Definition backslash : ascii := ascii_of_nat 92.

Definition hex_char (d : Z) : ascii :=
  Utils.fromCharCode (if d <? 10 then d + 48 else d + 87).

Definition JSON_escape (c : ascii) : list ascii :=
  let n := Utils.charCodeAt c in
  if Ascii.eqb c quotation_mark then [backslash; quotation_mark]
  else if Ascii.eqb c backslash then [backslash; backslash]
  else if n =? 8 then [backslash; "b"%char]
  else if n =? 9 then [backslash; "t"%char]
  else if n =? 10 then [backslash; "n"%char]
  else if n =? 12 then [backslash; "f"%char]
  else if n =? 13 then [backslash; "r"%char]
  else if n <? 32 then
    [backslash; "u"%char; "0"%char; "0"%char; hex_char (n / 16); hex_char (n mod 16)]
  else [c].

Definition JSON_quote (s : string) : string :=
  String.string_of_list_ascii
    (quotation_mark :: concat (map JSON_escape (String.list_ascii_of_string s))
       ++ [quotation_mark]).

(** [JSON.stringify({"alg": alg, "enc": enc})]: a member whose value is
    [undefined] is left out. *)
Definition JSON_stringify_header (alg enc : option string) : string :=
  let member name v :=
    match v with
    | Some s => [JSON_quote name +:+ ":" +:+ JSON_quote s]
    | None => []
    end in
  "{" +:+ join "," (member "alg" alg ++ member "enc" enc) +:+ "}".

(** JoseJWE.prototype.encryptPlainText, "Create header". *)
Definition jwe_protected_header (this : JoseJWE) : string :=
  Utils.Base64Url.encode
    (JSON_stringify_header (jwe_name (key_encryption this))
                           (jwe_name (content_encryption this))).

(** [new JoseJWE()] *)
Definition new_JoseJWE : outcome JoseJWE :=
  let* ka := getCryptoConfig (VString "RSA-OAEP") in
  let* ca := getCryptoConfig (VString "A256GCM") in
  Resolved {| key_encryption := ka; content_encryption := ca |}.

(** ** A reference host

    A small deterministic provider used to run the codec on concrete
    inputs.  Keys are records of their raw bytes, algorithm and usages; the
    primitives are arithmetic stand-ins with the interface of the real ones:
    a keyed digest of the length of the hash, a stream cipher with PKCS#7
    padding for AES-CBC, and the same cipher followed by a keyed tag for
    AES-GCM.  The parser reads the flat JSON objects found in protected
    headers: string members and members that are arrays of strings. *)
Module TestHost.

Record Key := {
  raw : list Z;
  algorithm : AlgorithmIdentifier;
  extractable : bool;
  usages : list string
}.

Definition has_usage (u : string) (k : Key) : bool :=
  existsb (String.eqb u) (usages k).

Definition digest (n : nat) (key data : list Z) : list Z :=
  map (fun i => foldl (fun acc b => (acc * 31 + b + Z.of_nat i + 1) mod 256) 7 (key ++ data))
      (seq 0 n).

Definition hash_bytes (hash : option string) : nat :=
  match hash with
  | Some h =>
      if String.eqb h "SHA-256" then 32
      else if String.eqb h "SHA-384" then 48
      else if String.eqb h "SHA-512" then 64
      else 20
  | None => 20
  end%nat.

Definition xor_bytes (a b : list Z) : list Z := zip_with Z.lxor a b.

Definition stream (key iv data : list Z) : list Z :=
  xor_bytes data (digest (length data) key iv).

Definition gcm_tag (key iv aad cipher : list Z) (n : nat) : list Z :=
  take n (digest 16 key (iv ++ aad ++ cipher)).

Definition pkcs7_pad (data : list Z) : list Z :=
  let p := (16 - length data mod 16)%nat in
  data ++ replicate p (Z.of_nat p).

Definition pkcs7_unpad (data : list Z) : option (list Z) :=
  match last data with
  | Some p =>
      if (1 <=? p) && (p <=? 16) && (p <=? Z.of_nat (length data))
      then Some (take (length data - Z.to_nat p) data)
      else None
  | None => None
  end.

Definition failed {A} (name : string) : outcome A := Rejected (HostError name).

Definition importKey (bytes : list Z) (alg : AlgorithmIdentifier) (ext : bool)
    (us : list string) : outcome Key :=
  match bytes with
  | [] => failed "DataError"
  | _ => Resolved {| raw := bytes; algorithm := alg; extractable := ext; usages := us |}
  end.

Definition exportKey (k : Key) : outcome (list Z) :=
  if extractable k then Resolved (raw k) else failed "InvalidAccessError".

Definition wrap (key : Key) (cek : list Z) : list Z :=
  stream (raw key) [] cek.

Definition unwrapKey (wrapped : list Z) (key : Key) (wrapAlg innerAlg : AlgorithmIdentifier)
    (ext : bool) (us : list string) : outcome Key :=
  if negb (has_usage "unwrapKey" key) then failed "InvalidAccessError"
  else match wrapped with
       | [] => failed "OperationError"
       | _ => importKey (stream (raw key) [] wrapped) innerAlg ext us
       end.

Definition sign (alg : AlgorithmIdentifier) (key : Key) (data : list Z) : outcome (list Z) :=
  if negb (has_usage "sign" key) then failed "InvalidAccessError"
  else Resolved (digest (hash_bytes (alg_hash alg)) (raw key) data).

Definition encrypt_gcm (key iv aad plain : list Z) (tag_len : nat) : list Z :=
  let cipher := stream key iv plain in
  cipher ++ gcm_tag key iv aad cipher tag_len.

Definition encrypt_cbc (key iv plain : list Z) : list Z :=
  stream key iv (pkcs7_pad plain).

Definition decrypt (params : CipherParams) (key : Key) (data : list Z) : outcome (list Z) :=
  if negb (has_usage "decrypt" key) then failed "InvalidAccessError"
  else if String.eqb (cp_name params) "AES-GCM" then
    match cp_additionalData params, cp_tagLength params with
    | Some aad, Some bits =>
        let n := Z.to_nat (bits / 8) in
        let cipher := take (length data - n) data in
        let tag := drop (length data - n) data in
        if bool_decide (length tag = n ∧ tag = gcm_tag (raw key) (cp_iv params) aad cipher n)
        then Resolved (stream (raw key) (cp_iv params) cipher)
        else failed "OperationError"
    | _, _ => failed "TypeError"
    end
  else if String.eqb (cp_name params) "AES-CBC" then
    if (0 <? length data)%nat && (length data mod 16 =? 0)%nat then
      match pkcs7_unpad (stream (raw key) (cp_iv params) data) with
      | Some plain => Resolved plain
      | None => failed "OperationError"
      end
    else failed "OperationError"
  else failed "NotSupportedError".

(** The parser.  The text is cut at the quotation marks, which leaves the
    member names and string values between the punctuation. *)
Fixpoint parse_strings (fuel : nat) (tokens : list string) (acc : list value)
    : option (value * list string) :=
  match fuel, tokens with
  | S fuel', s :: sep :: rest =>
      if String.eqb sep "," then parse_strings fuel' rest (acc ++ [VString s])
      else if String.eqb sep "]," then Some (VArray (acc ++ [VString s]), "," :: rest)
      else if String.eqb sep "]}" then Some (VArray (acc ++ [VString s]), "}" :: rest)
      else None
  | _, _ => None
  end.

(** [o[name] = v] while the object is built: a member name that comes
    again keeps its place and takes the later value. *)
Definition put (name : string) (v : value) (acc : list (string * value))
    : list (string * value) :=
  if existsb (fun kv => String.eqb (fst kv) name) acc
  then map (fun kv => if String.eqb (fst kv) name then (name, v) else kv) acc
  else acc ++ [(name, v)].

Fixpoint parse_members (fuel : nat) (tokens : list string) (acc : list (string * value))
    : option value :=
  match fuel, tokens with
  | S fuel', name :: colon :: rest =>
      if String.eqb colon ":" then
        match rest with
        | s :: sep :: rest' =>
            if String.eqb sep "," then parse_members fuel' rest' (put name (VString s) acc)
            else if String.eqb sep "}" then
              match rest' with
              | [] => Some (VObject (put name (VString s) acc))
              | _ => None
              end
            else None
        | _ => None
        end
      else if String.eqb colon ":[" then
        match parse_strings fuel' rest [] with
        | Some (arr, sep :: rest') =>
            if String.eqb sep "," then parse_members fuel' rest' (put name arr acc)
            else match rest' with
                 | [] => Some (VObject (put name arr acc))
                 | _ => None
                 end
        | _ => None
        end
      else None
  | _, _ => None
  end.

Definition parse (text : string) : outcome value :=
  match Utils.split quotation_mark text with
  | open :: tokens =>
      if String.eqb open "{" then
        match parse_members (length tokens) tokens [] with
        | Some v => Resolved v
        | None => Thrown (HostError "SyntaxError")
        end
      else if String.eqb open "{}" then
        match tokens with
        | [] => Resolved (VObject [])
        | _ => Thrown (HostError "SyntaxError")
        end
      else Thrown (HostError "SyntaxError")
  | [] => Thrown (HostError "SyntaxError")
  end.

#[export] Instance host : Host := {|
  CryptoKey := Key;
  JSON_parse := parse;
  subtle_unwrapKey := unwrapKey;
  subtle_exportKey := exportKey;
  subtle_importKey := importKey;
  subtle_sign := sign;
  subtle_decrypt := decrypt
|}.

End TestHost.

(** ** Vocabulary of the statements *)

(** The identifiers of section 6.1 of the specification. *)
Definition recognized : list string :=
  ["RSA-OAEP"; "RSA-OAEP-256"; "A128KW"; "A256KW";
   "A128CBC-HS256"; "A256CBC-HS512"; "A128GCM"; "A256GCM"].

(** The registry entries of the composite suites [A*CBC-HS*]. *)
Definition composite (config : CryptoConfig) : Prop :=
  getCryptoConfig_string "A128CBC-HS256" = Some config
  \/ getCryptoConfig_string "A256CBC-HS512" = Some config.

(** The big-endian 32-bit encoding of a number, and the number a
    big-endian byte sequence denotes. *)
Definition uint32_be (n : Z) : list Z :=
  [n / 2 ^ 24 mod 256; n / 2 ^ 16 mod 256; n / 2 ^ 8 mod 256; n mod 256].

Definition big_endian (l : list Z) : Z := foldl (fun acc b => acc * 256 + b) 0 l.

(** The eight bytes the specification calls AL: four zero bytes, then the
    32-bit bit length of [aad]. *)
Definition length_block (aad : list Z) : list Z :=
  [0; 0; 0; 0] ++ uint32_be (8 * Z.of_nat (length aad)).

(** The way the promise of a provider call settles. *)
Definition settled {A} (o : outcome A) : outcome A :=
  match o with
  | Thrown e => Rejected e
  | _ => o
  end.

(** The rejections of the decryption path. *)
Definition incorrect_cek_length : error := Reason "encryptPlainText: incorrect cek length".
Definition invalid_IV : error := Reason "decryptCiphertext: invalid IV".
Definition MAC_failed : error := Reason "decryptCiphertext: MAC failed.".
Definition invalid_input : error := Reason "decrypt: invalid input".

(** The parts of the result of a method. *)
Definition result {A S T} (r : outcome A * S * T) : outcome A := fst (fst r).
Definition final_this {A S T} (r : outcome A * S * T) : S := snd (fst r).
Definition trace {A S T} (r : outcome A * S * T) : T := snd r.

Definition is_Decrypt `{Host} (c : call) : bool :=
  match c with Decrypt _ _ _ => true | _ => false end.

(** No call to [crypto.subtle.decrypt] in a trace. *)
Definition no_decrypt `{Host} (t : list call) : Prop :=
  forallb (fun c => negb (is_Decrypt c)) t = true.

(** One step of the loop of [compare]. *)
Definition xor_or (arr1 arr2 : list Z) (ok : Z) (i : nat) : Z :=
  Z.lor ok (Z.lxor (arr1 !!! i) (arr2 !!! i)).

Definition is_sextet (s : Z) : Prop := 0 <= s < 64.

(** The two substitutions of [Base64Url.encode], and those of
    [Base64Url.decode], on one character. *)
Definition url (c : ascii) : ascii :=
  let u := if Ascii.eqb c "+" then "-"%char else c in
  if Ascii.eqb u "/" then "_"%char else u.

Definition unurl (c : ascii) : ascii :=
  let d := if Ascii.eqb c "-" then "+"%char else c in
  if Ascii.eqb d "_" then "/"%char else d.

(** The six-bit groups of a byte sequence, in the order [btoa] emits
    them. *)
Fixpoint sextets_of (l : list Z) : list Z :=
  match l with
  | [] => []
  | [a] => [a / 4; a mod 4 * 16]
  | [a; b] => [a / 4; a mod 4 * 16 + b / 16; b mod 16 * 4]
  | a :: b :: c :: rest =>
      a / 4 :: (a mod 4 * 16 + b / 16) :: (b mod 16 * 4 + c / 64) :: c mod 64
      :: sextets_of rest
  end.

(** The number of [=] that [btoa] appends. *)
Fixpoint padding_of (l : list Z) : nat :=
  match l with
  | [] => 0
  | [_] => 2
  | [_; _] => 1
  | _ :: _ :: _ :: rest => padding_of rest
  end.

(** What the codec relies on for one character of the alphabet; checked
    over all sixty-four of them. *)
Definition sextet_check (s : Z) : bool :=
  let c := Utils.Base64Url.sextet_char s in
  bool_decide (Utils.Base64Url.char_sextet c = Some s)
  && negb (Ascii.eqb c Utils.Base64Url.pad)
  && negb (Utils.Base64Url.is_ascii_whitespace c)
  && Ascii.eqb (unurl (url c)) c
  && negb (Ascii.eqb (url c) "=")
  && negb (Ascii.eqb (url c) "+")
  && negb (Ascii.eqb (url c) "/").

(** The two halves of [decrypt]: reading the protected header, which
    selects the algorithms of the instance, and parts 2 and 3, which unwrap
    the key and decrypt the content. *)
Section DecryptHalves.
Context `{H : Host}.

Definition read_header (h : string) : M unit :=
  bind (lift (Utils.Base64Url.decode h)) (fun json =>
  bind (lift (JSON_parse json)) (fun header =>
  bind (lift (get header "alg")) (fun alg =>
  if negb (truthy alg) then reject "decrypt: missing alg"
  else
    bind (set_key_encryption alg) (fun _ =>
    bind (lift (get header "enc")) (fun enc =>
    if negb (truthy enc) then reject "decrypt: missing enc"
    else
      bind (set_content_encryption enc) (fun _ =>
      bind (lift (get header "crit")) (fun crit =>
      if truthy crit then reject "decrypt: crit is not supported"
      else ret tt))))))).

Definition decrypt_parts (key_promise : outcome CryptoKey) (h ek ivs cs ts : string)
    : M string :=
  bind (lift (Utils.Base64Url.decodeArray ek)) (fun encrypted_cek =>
  bind (promise_of (decryptCek key_promise encrypted_cek)) (fun cek_promise =>
  bind (lift (Utils.Base64Url.decodeArray ivs)) (fun iv =>
  bind (lift (Utils.Base64Url.decodeArray cs)) (fun cipher =>
  bind (lift (Utils.Base64Url.decodeArray ts)) (fun tag =>
  bind (promise_of
          (decryptCiphertext cek_promise (Utils.arrayFromString h) iv cipher tag))
       (fun plain_text_promise =>
  then_ plain_text_promise (fun arr => ret (Utils.stringFromArray arr)))))))).

End DecryptHalves.

(** A computation that leaves [this] as it found it. *)
Definition preserves `{Host} {A} (m : M A) : Prop :=
  forall this, final_this (m this) = this.

(** A computation that makes no call to [crypto.subtle.decrypt]. *)
Definition decrypt_free `{Host} {A} (m : M A) : Prop :=
  forall this, no_decrypt (trace (m this)).

(** A computation that makes no provider call at all. *)
Definition silent `{Host} {A} (m : M A) : Prop :=
  forall this, trace (m this) = [].

(** The error kinds of section 7 of the specification.  The code signals
    a failure by a message only; [kind_of] gives the kind each rejection of
    the decryption path stands for. *)
Inductive ErrorKind :=
| MalformedInput
| IntegrityFailure
| InternalInvariant
| OtherFailure.

Definition kind_of (e : error) : ErrorKind :=
  match e with
  | Reason msg =>
      if existsb (String.eqb msg)
           ["decrypt: invalid input"; "decrypt: missing alg"; "decrypt: missing enc";
            "decrypt: crit is not supported"; "decryptCiphertext: invalid IV"]
      then MalformedInput
      else if String.eqb msg "decryptCiphertext: MAC failed." then IntegrityFailure
      else if String.eqb msg "encryptPlainText: incorrect cek length" then InternalInvariant
      else OtherFailure
  | _ => OtherFailure
  end.

(** The member [e] of a converted key. *)
Definition exponent_of (o : outcome (gmap string value)) : option value :=
  match o with
  | Resolved r => r !! "e"
  | _ => None
  end.

(** ** Sample data

    A key, an instance and compact serializations for the reference host:
    the encryption of "Hi" under A128KW and A128CBC-HS256, variants of it,
    and the encryption of the empty string under A128KW and A256GCM. *)
Module Samples.

Definition registry (alg : string) : CryptoConfig :=
  default (key_config alg {| alg_name := alg; alg_hash := None; alg_length := None |})
          (getCryptoConfig_string alg).

(** [new JoseJWE()] *)
Definition fresh : JoseJWE :=
  {| key_encryption := registry "RSA-OAEP"; content_encryption := registry "A256GCM" |}.

Definition A128KW_A128CBC_HS256 : JoseJWE :=
  {| key_encryption := registry "A128KW"; content_encryption := registry "A128CBC-HS256" |}.

Definition wrapping_key : TestHost.Key :=
  {| TestHost.raw := [11; 22; 33; 44; 55; 66; 77; 88; 99; 110; 121; 132; 143; 154; 165; 176];
     TestHost.algorithm := cfg_id (registry "A128KW");
     TestHost.extractable := false;
     TestHost.usages := ["unwrapKey"] |}.

(** The content encryption key as [unwrapKey] returns it. *)
Definition cek : TestHost.Key :=
  {| TestHost.raw := map Z.of_nat (seq 1 32);
     TestHost.algorithm := {| alg_name := "AES-CBC"; alg_hash := None; alg_length := Some 256 |};
     TestHost.extractable := true;
     TestHost.usages := ["decrypt"] |}.

Definition mac_key : TestHost.Key :=
  {| TestHost.raw := map Z.of_nat (seq 1 16);
     TestHost.algorithm := {| alg_name := "HMAC"; alg_hash := Some "SHA-256";
                              alg_length := None |};
     TestHost.extractable := false;
     TestHost.usages := ["sign"] |}.

Definition compact (segments : list string) : string := join "." segments.

(** The base64url text of [{"alg":"A128KW","enc":"A128CBC-HS256"}]. *)
Definition header : string := "eyJhbGciOiJBMTI4S1ciLCJlbmMiOiJBMTI4Q0JDLUhTMjU2In0".
Definition encrypted_key : string := "Xl1cW1pZWFdWVVRTUlFQT05NTEtKSUhHRkVEQ0JBQH8".
Definition iv_segment : string := "ZGVmZ2hpamtsbW5vcHFycw".
Definition ciphertext_segment : string := "X34ZGRkZGRkZGRkZGRkZGQ".
Definition tag_segment : string := "asssje5PsBFy0zSV9le4GQ".

Definition aad : list Z := Utils.arrayFromString header.
Definition iv : list Z := map Z.of_nat (seq 100 16).
Definition cipher_text : list Z := [95; 126; 25; 25; 25; 25; 25; 25; 25; 25; 25; 25; 25; 25; 25; 25].
Definition tag : list Z :=
  [106; 203; 44; 141; 238; 79; 176; 17; 114; 211; 52; 149; 246; 87; 184; 25].

(** A valid A128CBC-HS256 serialization. *)
Definition composite_jwe : string :=
  compact [header; encrypted_key; iv_segment; ciphertext_segment; tag_segment].

(** The same with the last byte of the tag changed (25 to 24). *)
Definition tampered_jwe : string :=
  compact [header; encrypted_key; iv_segment; ciphertext_segment; "asssje5PsBFy0zSV9le4GA"].

(** The same with one bit of the last character of the tag segment
    flipped: "Q" (0x51) becomes "S" (0x53). *)
Definition trailing_bits_jwe : string :=
  compact [header; encrypted_key; iv_segment; ciphertext_segment; "asssje5PsBFy0zSV9le4GS"].

(** The same with a tag of fifteen bytes, and with an IV of twelve. *)
Definition short_tag_jwe : string :=
  compact [header; encrypted_key; iv_segment; ciphertext_segment; "asssje5PsBFy0zSV9le4"].

Definition short_iv_jwe : string :=
  compact [header; encrypted_key; "ZGVmZ2hpamtsbW5v"; ciphertext_segment; tag_segment].

(** A header with [crit]:
    [{"alg":"A128KW","enc":"A128CBC-HS256","crit":["exp"]}]. *)
Definition crit_header : string :=
  "eyJhbGciOiJBMTI4S1ciLCJlbmMiOiJBMTI4Q0JDLUhTMjU2IiwiY3JpdCI6WyJleHAiXX0".

(** The header that [crit_header] encodes: alg A128KW, enc A128CBC-HS256
    and crit [exp]. *)
Definition crit_json : string :=
  "{" +:+ JSON_quote "alg" +:+ ":" +:+ JSON_quote "A128KW"
      +:+ "," +:+ JSON_quote "enc" +:+ ":" +:+ JSON_quote "A128CBC-HS256"
      +:+ "," +:+ JSON_quote "crit" +:+ ":[" +:+ JSON_quote "exp" +:+ "]}".

Definition crit_jwe : string := compact [crit_header; "AA"; "AA"; "AA"; "AA"].

(** The encryption of the empty string under A128KW and A256GCM: the
    ciphertext segment is empty. *)
Definition empty_plaintext_jwe : string :=
  compact ["eyJhbGciOiJBMTI4S1ciLCJlbmMiOiJBMjU2R0NNIn0"; encrypted_key; "yMnKy8zNzs_Q0dLT";
           ""; "AKFC44QlxmcIqUrrjC3Obw"].

End Samples.

(** ** Key import and encryption

    The operations of the host that only the encryption path and the
    import of RSA keys consume.  [crypto.subtle.generateKey] and
    [crypto.getRandomValues] draw fresh values at every call; a run of
    [encrypt] calls each of them once, and [subtle_generateKey] and
    [random_byte] stand for what the host gives in the run considered.
    Keys are generated and wrapped as "raw"; RSA keys are imported as
    "jwk". *)
Class EncryptHost `{Host} := {
  random_byte : nat -> Z;
  subtle_generateKey : AlgorithmIdentifier -> bool -> list string -> outcome CryptoKey;
  subtle_wrapKey : CryptoKey -> CryptoKey -> AlgorithmIdentifier -> outcome (list Z);
  subtle_encrypt : CipherParams -> CryptoKey -> list Z -> outcome (list Z);
  subtle_importKey_jwk :
    gmap string value -> AlgorithmIdentifier -> bool -> list string -> outcome CryptoKey
}.

(** What [encryptPlainText] resolves to: [{header, iv, cipher, tag}]. *)
Record EncryptedData := {
  data_header : string;
  data_iv : list Z;
  data_cipher : list Z;
  data_tag : list Z
}.

(** The promise an expression evaluates to: an exception raised while it
    is evaluated aborts the caller, anything else is a promise the caller
    holds on to. *)
Definition promise {A} (o : outcome A) : outcome (outcome A) :=
  match o with
  | Thrown e => Thrown e
  | _ => Resolved o
  end.

(** [p.then(cb)], by the way it settles: the callback runs only if [p] is
    fulfilled, and an exception in the callback rejects the result. *)
Definition and_then {A B} (p : outcome A) (cb : A -> outcome B) : outcome B :=
  match p with
  | Resolved a => settled (cb a)
  | Rejected e | Thrown e => Rejected e
  end.

Section Encrypt.
Context `{H : Host} {E : EncryptHost}.

(** JoseJWE.Utils.importRsaPublicKey and importRsaPrivateKey: an exception
    of [convertRsaKey] is thrown to the caller; otherwise the result is
    the promise of [crypto.subtle.importKey]. *)
Definition importRsaPublicKey (rsa_key : gmap string value) : outcome CryptoKey :=
  let* jwk := Utils.convertRsaKey rsa_key ["n"; "e"] in
  let* config := getCryptoConfig (VString "RSA-OAEP") in
  subtle_importKey_jwk jwk (cfg_id config) false ["wrapKey"].

Definition importRsaPrivateKey (rsa_key : gmap string value) : outcome CryptoKey :=
  let* jwk := Utils.convertRsaKey rsa_key ["n"; "e"; "d"; "p"; "q"; "dp"; "dq"; "qi"] in
  let* config := getCryptoConfig (VString "RSA-OAEP") in
  subtle_importKey_jwk jwk (cfg_id config) false ["unwrapKey"].

(** [crypto.getRandomValues(arr)] on a Uint8Array: every element is
    overwritten with a random byte; more than 65536 bytes are refused. *)
Definition getRandomValues (arr : list Z) : outcome (list Z) :=
  if 65536 <? Z.of_nat (length arr) then Thrown (HostError "QuotaExceededError")
  else Resolved (map (fun i => random_byte i mod 256) (seq 0 (length arr))).

(** JoseJWE.prototype.createIV.  [new Array(n)] has [n] empty slots when
    [n] is an array length and raises RangeError for another number;
    [new Array(undefined)] is the one-element array [[undefined]].  The
    Uint8Array made of it holds zeros. *)
Definition createIV (this : JoseJWE) : outcome (list Z) :=
  let* iv :=
    match iv_bytes (content_encryption this) with
    | Some n =>
        if (0 <=? n) && (n <? 2 ^ 32) then Resolved (replicate (Z.to_nat n) 0)
        else Thrown (HostError "RangeError")
    | None => Resolved [0]
    end in
  getRandomValues iv.

(** JoseJWE.prototype.createCEK *)
Definition createCEK (this : JoseJWE) : outcome (outcome CryptoKey) :=
  let* hack := Utils.getCekWorkaround (content_encryption this) in
  promise (subtle_generateKey (Utils.hack_id hack) true (Utils.enc_op hack)).

(** JoseJWE.prototype.encryptCek *)
Definition encryptCek (this : JoseJWE) (key_promise cek_promise : outcome CryptoKey)
    : outcome (list Z) :=
  let config := key_encryption this in
  and_then (all2 key_promise cek_promise) (fun all =>
    let key := fst all in
    let cek := snd all in
    subtle_wrapKey cek key (cfg_id config)).

(** JoseJWE.prototype.encryptPlainText.  In the AEAD branch [offset] is
    NaN when [tag_bytes] is undefined, and [slice] reads NaN as 0. *)
Definition encryptPlainText (this : JoseJWE) (cek_promise : outcome CryptoKey)
    (plain_text : string) : outcome (outcome EncryptedData) :=
  (* Create header *)
  let jwe_protected_header := jwe_protected_header this in
  (* Create the IV *)
  let* iv := createIV this in
  if differs (Z.of_nat (length iv)) (iv_bytes (content_encryption this))
  then Resolved (Rejected (Reason "encryptPlainText: invalid IV length"))
  else
    (* Create the AAD *)
    let aad := Utils.arrayFromString jwe_protected_header in
    let plain_text := Utils.arrayFromString plain_text in
    let config := content_encryption this in
    match auth config with
    | None => Thrown (HostError "TypeError")
    | Some a =>
        if aead a then
          let tag_bytes := tag_bytes a in
          let enc := {| cp_name := alg_name (cfg_id config);
                        cp_iv := iv;
                        cp_additionalData := Some aad;
                        cp_tagLength := times8 tag_bytes |} in
          Resolved (and_then cek_promise (fun cek =>
            and_then (subtle_encrypt enc cek plain_text) (fun cipher_text =>
              let offset :=
                match tag_bytes with
                | Some t => Z.of_nat (length cipher_text) - t
                | None => 0
                end in
              Resolved {| data_header := jwe_protected_header;
                          data_iv := iv;
                          data_cipher := slice cipher_text (Some 0) (Some offset);
                          data_tag := slice cipher_text (Some offset) None |})))
        else
          let* keys := result (splitKey config cek_promise ["encrypt"] this) in
          let mac_key_promise := fst keys in
          let enc_key_promise := snd keys in
          (* Encrypt the plain text *)
          let cipher_text_promise :=
            and_then enc_key_promise (fun enc_key =>
              let enc := {| cp_name := alg_name (cfg_id config);
                            cp_iv := iv;
                            cp_additionalData := None;
                            cp_tagLength := None |} in
              subtle_encrypt enc enc_key plain_text) in
          (* compute MAC *)
          let mac_promise :=
            and_then cipher_text_promise (fun cipher_text =>
              result (truncatedMac config mac_key_promise aad iv cipher_text this)) in
          Resolved (and_then (all2 cipher_text_promise mac_promise) (fun all =>
            let cipher_text := fst all in
            let mac := snd all in
            Resolved {| data_header := jwe_protected_header;
                        data_iv := iv;
                        data_cipher := cipher_text;
                        data_tag := mac |}))
    end.

(** JoseJWE.prototype.encrypt: an exception raised before the promise
    exists is thrown; otherwise the result is the way the promise
    settles. *)
Definition encrypt (this : JoseJWE) (key_promise : outcome CryptoKey) (plain_text : string)
    : outcome string :=
  (* Create a CEK key *)
  let* cek_promise := createCEK this in
  (* Key & Cek allows us to create the encrypted_cek *)
  let encrypted_cek := encryptCek this key_promise cek_promise in
  (* Cek allows us to encrypy the plain text *)
  let* enc_promise := encryptPlainText this cek_promise plain_text in
  (* Once we have all the promises, we can base64 encode all the pieces. *)
  and_then (all2 encrypted_cek enc_promise) (fun all =>
    let encrypted_cek := fst all in
    let data := snd all in
    let* s1 := Utils.Base64Url.encodeArray encrypted_cek in
    let* s2 := Utils.Base64Url.encodeArray (data_iv data) in
    let* s3 := Utils.Base64Url.encodeArray (data_cipher data) in
    let* s4 := Utils.Base64Url.encodeArray (data_tag data) in
    Resolved (data_header data +:+ "." +:+ s1 +:+ "." +:+ s2 +:+ "." +:+ s3 +:+ "." +:+ s4)).

End Encrypt.

(** The encryption side of the reference host: keys are generated with
    the bytes 1, 2, 3, ..., and the random bytes are 100, 101, 102, ... *)
Module TestEncryptHost.
Import TestHost.

Definition key_length (alg : AlgorithmIdentifier) : nat :=
  match alg_length alg with
  | Some bits => Z.to_nat (bits / 8)
  | None => if String.eqb (alg_name alg) "HMAC" then 64 else 0
  end.

Definition generateKey (alg : AlgorithmIdentifier) (ext : bool) (us : list string)
    : outcome Key :=
  importKey (map Z.of_nat (seq 1 (key_length alg))) alg ext us.

Definition wrapKey (cek key : Key) (alg : AlgorithmIdentifier) : outcome (list Z) :=
  if negb (has_usage "wrapKey" key) then failed "InvalidAccessError"
  else if negb (extractable cek) then failed "InvalidAccessError"
  else Resolved (wrap key (raw cek)).

Definition encrypt (params : CipherParams) (key : Key) (data : list Z) : outcome (list Z) :=
  if negb (has_usage "encrypt" key) then failed "InvalidAccessError"
  else if String.eqb (cp_name params) "AES-GCM" then
    match cp_additionalData params, cp_tagLength params with
    | Some aad, Some bits =>
        Resolved (encrypt_gcm (raw key) (cp_iv params) aad data (Z.to_nat (bits / 8)))
    | _, _ => failed "TypeError"
    end
  else if String.eqb (cp_name params) "AES-CBC" then
    Resolved (encrypt_cbc (raw key) (cp_iv params) data)
  else failed "NotSupportedError".

Definition importKey_jwk (jwk : gmap string value) (alg : AlgorithmIdentifier) (ext : bool)
    (us : list string) : outcome Key :=
  match jwk !! "n" with
  | Some (VString n) =>
      match Utils.Base64Url.decodeArray n with
      | Resolved bytes => importKey bytes alg ext us
      | _ => failed "DataError"
      end
  | _ => failed "DataError"
  end.

#[export] Instance encrypt_host : EncryptHost := {|
  random_byte := fun i => Z.of_nat (100 + i);
  subtle_generateKey := generateKey;
  subtle_wrapKey := wrapKey;
  subtle_encrypt := encrypt;
  subtle_importKey_jwk := importKey_jwk
|}.

End TestEncryptHost.

(** ** Vocabulary of the further statements *)

(** The characters of the URL-safe alphabet: [A-Z a-z 0-9 - _]. *)
Definition is_url_char (c : ascii) : bool :=
  let n := Utils.charCodeAt c in
  ((65 <=? n) && (n <=? 90)) || ((97 <=? n) && (n <=? 122)) || ((48 <=? n) && (n <=? 57))
  || (n =? 45) || (n =? 95).

(** A pair of hexadecimal digits, the pieces of the colon-delimited
    form. *)
Definition hex_pair (piece : list ascii) : Prop :=
  exists x y, piece = [x; y] /\ Utils.is_hex x = true /\ Utils.is_hex y = true.

(** The checks [convertRsaKey] makes on [kty] and [alg]: the member is
    missing, or loosely equal to the expected name. *)
Definition kty_ok (rsa_key : gmap string value) : Prop :=
  Utils.member rsa_key "kty" = VUndefined
  \/ loose_eq_string (Utils.member rsa_key "kty") "RSA" = true.

Definition alg_ok (rsa_key : gmap string value) : Prop :=
  Utils.member rsa_key "alg" = VUndefined
  \/ loose_eq_string (Utils.member rsa_key "alg") "RSA-OAEP" = true.

(** The keys for which [Samples.composite_jwe] is the output of
    [encrypt]: a wrapping key with both usages. *)
(** ** The kinds of value the [Utils] functions tell apart

    The functions of [JoseJWE.Utils] test their arguments with [typeof]
    and [instanceof], and a store into a Uint8Array reduces the number
    stored modulo 256.  Where the codec calls them the arguments have the
    kind the assertion asks for and hold bytes, and the definitions of
    [Utils] work on the contents alone.  [Typed] has the same functions
    with their assertions and their stores, on values that carry their
    kind: a string with its 16-bit code units, a plain Array of integers,
    a Uint8Array and an ArrayBuffer. *)
Module Typed.

Inductive jsval :=
| Str (units : list Z)   (* a string: its code units *)
| Arr (elems : list Z)   (* a plain Array, of integers *)
| U8 (bytes : list Z)    (* a Uint8Array *)
| Buf (bytes : list Z)   (* an ArrayBuffer *)
| Other.                 (* anything else *)

(** The number a store [r[i] = v] leaves in a Uint8Array. *)
Definition ToUint8 (v : Z) : Z := v mod 256.

(** JoseJWE.Utils.isString *)
Definition isString (str : jsval) : bool :=
  match str with Str _ => true | _ => false end.

(** JoseJWE.Utils.arrayish: an Array and a Uint8Array are returned as
    they are, an ArrayBuffer as a Uint8Array on its bytes. *)
Definition arrayish (arr : jsval) : outcome jsval :=
  match arr with
  | Arr _ => Resolved arr
  | U8 _ => Resolved arr
  | Buf bytes => Resolved (U8 bytes)
  | _ => let* _ := assert false "arrayish: invalid input" in Resolved Other
  end.

(** The elements [arr[0]], ..., [arr[arr.length - 1]] of what [arrayish]
    returns. *)
Definition elements (arr : jsval) : list Z :=
  match arr with
  | Arr elems => elems
  | U8 bytes => bytes
  | _ => []
  end.

(** JoseJWE.Utils.arrayFromString: [str.split('')] gives the code units,
    [new Uint8Array(arr)] stores each of them. *)
Definition arrayFromString (str : jsval) : outcome jsval :=
  let* _ := assert (isString str) "arrayFromString: invalid input" in
  let arr := match str with Str units => units | _ => [] end in
  Resolved (U8 (map ToUint8 arr)).

(** JoseJWE.Utils.stringFromArray: the argument is an ArrayBuffer; the
    loop appends [String.fromCharCode(arr[i])], the code unit of the
    byte. *)
Definition stringFromArray (arr : jsval) : outcome jsval :=
  let* _ := assert (match arr with Buf _ => true | _ => false end)
                   "stringFromArray: invalid input" in
  let arr := match arr with Buf bytes => bytes | _ => [] end in
  Resolved (Str (foldl (fun r b => r ++ [b]) [] arr)).

(** JoseJWE.Utils.arrayBufferConcat.  The first loop collects
    [arrayish(arguments[i])] and the total length, the second stores the
    elements one by one, [r[offset++] = args[i][j]]. *)
Fixpoint write_at (r : list Z) (offset : nat) (arg : list Z) : list Z * nat :=
  match arg with
  | [] => (r, offset)
  | x :: rest => write_at (<[offset := ToUint8 x]> r) (S offset) rest
  end.

Definition arrayBufferConcat (arguments : list jsval) : outcome jsval :=
  let* collected :=
    foldl (fun st argument =>
             let* st := st in
             let* a := arrayish argument in
             Resolved (fst st ++ [a], (snd st + length (elements a))%nat))
          (Resolved ([], 0%nat)) arguments in
  let args := fst collected in
  let total := snd collected in
  let '(r, offset) :=
    foldl (fun '(r, offset) a => write_at r offset (elements a))
          (replicate total 0, 0%nat) args in
  let* _ := assert (Nat.eqb offset total) "arrayBufferConcat: unexpected offset" in
  Resolved (U8 r).

(** The arguments [arrayish] accepts. *)
Definition is_arrayish (arr : jsval) : bool :=
  match arr with Arr _ | U8 _ | Buf _ => true | _ => false end.

(** The elements of an argument, as [arrayish] presents them. *)
Definition contents (arr : jsval) : list Z :=
  match arr with Arr l | U8 l | Buf l => l | _ => [] end.

(** A string of this development, whose code units are below 256, as a
    JavaScript string. *)
Definition of_string (s : string) : jsval :=
  Str (map Utils.charCodeAt (String.list_ascii_of_string s)).

End Typed.

Module EncryptSamples.

Definition shared_key : TestHost.Key :=
  {| TestHost.raw := TestHost.raw Samples.wrapping_key;
     TestHost.algorithm := TestHost.algorithm Samples.wrapping_key;
     TestHost.extractable := false;
     TestHost.usages := ["wrapKey"; "unwrapKey"] |}.

Definition A128KW_A256GCM : JoseJWE :=
  {| key_encryption := Samples.registry "A128KW";
     content_encryption := Samples.registry "A256GCM" |}.

(** The JSON text of the header of [Samples.composite_jwe], and the
    bytes of its encrypted key. *)
Definition header_json : string :=
  JSON_stringify_header (Some "A128KW") (Some "A128CBC-HS256").

Definition header_object : value :=
  VObject [("alg", VString "A128KW"); ("enc", VString "A128CBC-HS256")].

Definition wrapped_cek : list Z :=
  TestHost.wrap shared_key (TestHost.raw Samples.cek).

End EncryptSamples.
(** * Properties *)

(** ** The registry *)

Lemma getCryptoConfig_recognized (alg : string) :
  is_Some (getCryptoConfig_string alg) <-> In alg recognized.
Proof.
  split.
  - unfold getCryptoConfig_string.
    repeat match goal with
           | |- context [String.eqb alg ?s] =>
               destruct (String.eqb_spec alg s) as [->|?]; [intros _; simpl; intuition |]
           end.
    intros [c Hc]. discriminate.
  - intros Hin. simpl in Hin.
    repeat (destruct Hin as [<-|Hin]; [eexists; reflexivity |]). contradiction.
Qed.

(** ** Constant-time comparison *)

Section Compare.
Variables arr1 arr2 : list Z.

Lemma compare_loop_fold n : forall i ok,
  Utils.compare_loop n i ok arr1 arr2 = (foldl (xor_or arr1 arr2) ok (seq i n), (i + n)%nat).
Proof.
  induction n as [|n IH]; intros i ok; simpl.
  - f_equal. lia.
  - rewrite IH. f_equal. lia.
Qed.

Lemma fold_or_zero (l : list nat) : forall ok,
  foldl (xor_or arr1 arr2) ok l = 0 <->
  ok = 0 /\ forall i, In i l -> arr1 !!! i = arr2 !!! i.
Proof.
  induction l as [|j l IH]; intros ok; simpl.
  - intuition.
  - rewrite IH. unfold xor_or at 1. rewrite Z.lor_eq_0_iff. split.
    + intros [[-> Hx] Hl]. split; [reflexivity|].
      intros i [<-|Hi]; [now apply Z.lxor_eq | now apply Hl].
    + intros [-> Hl]. repeat split.
      * rewrite (Hl j) by now left. apply Z.lxor_nilpotent.
      * intros i Hi. apply Hl. now right.
Qed.

Lemma compare_fold :
  Utils.compare arr1 arr2 =
  Nat.eqb (length arr1) (length arr2)
  && (foldl (xor_or arr1 arr2) 0 (seq 0 (length arr1)) =? 0).
Proof.
  unfold Utils.compare. rewrite compare_loop_fold.
  destruct (Nat.eqb (length arr1) (length arr2)); reflexivity.
Qed.

Lemma compare_true_iff :
  Utils.compare arr1 arr2 = true <-> arr1 = arr2.
Proof.
  rewrite compare_fold, andb_true_iff, Nat.eqb_eq, Z.eqb_eq, fold_or_zero.
  split.
  - intros [Hlen [_ Hall]]. apply list_eq_same_length with (length arr1); auto.
    intros i x y Hi Hx Hy.
    apply list_lookup_total_correct in Hx, Hy.
    rewrite <- Hx, <- Hy. apply Hall, in_seq. lia.
  - intros ->. repeat split; auto.
Qed.

Lemma compare_false_iff :
  Utils.compare arr1 arr2 = false <-> arr1 <> arr2.
Proof.
  rewrite <- compare_true_iff. destruct (Utils.compare arr1 arr2); intuition congruence.
Qed.

End Compare.

(** C9. The comparison answers true exactly when the two arrays have the
    same length and the same byte at every index.  It is the test
    [ok == 0] on the fold of [ok |= arr1[i] ^ arr2[i]] over every index:
    the loop leaves [i] at [arr1.length] whatever the bytes are, so it
    never stops at the first mismatch. *)
Theorem compare_constant_time (arr1 arr2 : list Z) :
  (Utils.compare arr1 arr2 = true <->
     length arr1 = length arr2 /\
     forall i : nat, (i < length arr1)%nat -> arr1 !! i = arr2 !! i)
  /\ Utils.compare arr1 arr2 =
       Nat.eqb (length arr1) (length arr2)
       && (foldl (fun ok i => Z.lor ok (Z.lxor (arr1 !!! i) (arr2 !!! i))) 0
                 (seq 0 (length arr1)) =? 0)
  /\ Utils.compare_loop (length arr1) 0 0 arr1 arr2 =
       (foldl (fun ok i => Z.lor ok (Z.lxor (arr1 !!! i) (arr2 !!! i))) 0
              (seq 0 (length arr1)), length arr1).
Proof.
  split; [|split].
  - rewrite compare_true_iff. split.
    + intros ->. auto.
    + intros [Hlen Hall]. apply list_eq_same_length with (length arr1); auto.
      intros i x y Hi Hx Hy. rewrite (Hall i Hi) in Hx. congruence.
  - apply compare_fold.
  - apply compare_loop_fold.
Qed.
(** ** Base64url *)

Section Base64.
Import Utils Utils.Base64Url.

Lemma list_ind3 {A} (P : list A -> Prop) :
  P [] -> (forall a, P [a]) -> (forall a b, P [a; b]) ->
  (forall a b c l, P l -> P (a :: b :: c :: l)) ->
  forall l, P l.
Proof.
  intros H0 H1 H2 H3.
  fix IH 1. intros [|a [|b [|c l]]]; [apply H0 | apply H1 | apply H2 | apply H3, IH].
Qed.

Lemma charCodeAt_fromCharCode x : is_byte x -> charCodeAt (fromCharCode x) = x.
Proof.
  intros [Hlo Hhi]. unfold charCodeAt, fromCharCode.
  rewrite N_ascii_embedding by lia. lia.
Qed.

Lemma fromCharCode_charCodeAt c : fromCharCode (charCodeAt c) = c.
Proof.
  unfold charCodeAt, fromCharCode. rewrite N2Z.id. apply ascii_N_embedding.
Qed.

Lemma charCodeAt_byte c : is_byte (charCodeAt c).
Proof.
  unfold is_byte, charCodeAt. pose proof (N_ascii_bounded c). lia.
Qed.

Lemma arrayFromString_stringFromArray l :
  Forall is_byte l -> arrayFromString (stringFromArray l) = l.
Proof.
  intros Hl. unfold arrayFromString, stringFromArray.
  rewrite String.list_ascii_of_string_of_list_ascii, map_map.
  induction Hl as [|x l Hx _ IH]; simpl; [reflexivity|].
  now rewrite charCodeAt_fromCharCode, IH.
Qed.

Lemma stringFromArray_arrayFromString s : stringFromArray (arrayFromString s) = s.
Proof.
  unfold arrayFromString, stringFromArray. rewrite map_map.
  rewrite (map_ext _ (fun c => c)) by apply fromCharCode_charCodeAt.
  rewrite map_id. apply String.string_of_list_ascii_of_string.
Qed.

Lemma arrayFromString_bytes s : Forall is_byte (arrayFromString s).
Proof.
  unfold arrayFromString. apply Forall_map, Forall_forall. intros c _. apply charCodeAt_byte.
Qed.


Lemma sextet_check_all s : is_sextet s -> sextet_check s = true.
Proof.
  intros Hs.
  assert (Hall : forallb sextet_check (map Z.of_nat (seq 0 64)) = true) by now vm_compute.
  rewrite forallb_forall in Hall. apply Hall.
  apply in_map_iff. exists (Z.to_nat s). split; [unfold is_sextet in Hs; lia|].
  apply in_seq. unfold is_sextet in Hs. lia.
Qed.

Lemma sextets_of_range l : Forall is_byte l -> Forall is_sextet (sextets_of l).
Proof.
  unfold is_byte, is_sextet.
  induction l as [|a|a b|a b c l IH] using list_ind3; intros Hl; simpl.
  - constructor.
  - inversion_clear Hl.
    repeat (apply List.Forall_cons; [Z.div_mod_to_equations; lia|]). apply List.Forall_nil.
  - inversion_clear Hl as [|? ? ? Hl']. inversion_clear Hl'.
    repeat (apply List.Forall_cons; [Z.div_mod_to_equations; lia|]). apply List.Forall_nil.
  - inversion_clear Hl as [|? ? ? Hl1]. inversion_clear Hl1 as [|? ? ? Hl2].
    inversion_clear Hl2.
    repeat (apply List.Forall_cons; [Z.div_mod_to_equations; lia|]). now apply IH.
Qed.

Lemma decode_sextets_of l : Forall is_byte l -> decode_sextets (sextets_of l) = l.
Proof.
  unfold is_byte.
  induction l as [|a|a b|a b c l IH] using list_ind3; intros Hl; simpl.
  - reflexivity.
  - inversion_clear Hl. f_equal. Z.div_mod_to_equations; lia.
  - inversion_clear Hl as [|? ? ? Hl']. inversion_clear Hl'.
    f_equal; [|f_equal]; Z.div_mod_to_equations; lia.
  - inversion_clear Hl as [|? ? ? Hl1]. inversion_clear Hl1 as [|? ? ? Hl2].
    inversion_clear Hl2. rewrite IH by assumption.
    f_equal; [|f_equal; [|f_equal]]; Z.div_mod_to_equations; lia.
Qed.

Lemma btoa_list_sextets l :
  btoa_list l = map sextet_char (sextets_of l) ++ replicate (padding_of l) pad.
Proof.
  induction l as [|a|a b|a b c l IH] using list_ind3; simpl; try reflexivity.
  now rewrite IH.
Qed.

Lemma sextets_of_length l : (length (sextets_of l) mod 4 <> 1)%nat.
Proof.
  induction l as [|a|a b|a b c l IH] using list_ind3; simpl length; try (simpl; lia).
  change (S (S (S (S ?n)))) with (4 + n)%nat.
  replace (4 + length (sextets_of l))%nat with (length (sextets_of l) + 1 * 4)%nat by lia.
  now rewrite Nat.Div0.mod_add.
Qed.
End Base64.
Section Base64Strings.
Import Utils Utils.Base64Url.

Lemma encode_map str :
  encode str =
  String.string_of_list_ascii
    (strip_trailing_pad (map url (btoa_list (arrayFromString str)))).
Proof.
  unfold encode, btoa, replace_all.
  now rewrite String.list_ascii_of_string_of_list_ascii, map_map.
Qed.

Lemma decode_map str :
  decode str =
  atob (String.string_of_list_ascii (map unurl (String.list_ascii_of_string str))).
Proof. unfold decode, replace_all. now rewrite map_map. Qed.

Lemma sextet_facts s :
  is_sextet s ->
  let c := sextet_char s in
  char_sextet c = Some s /\ Ascii.eqb c pad = false /\ is_ascii_whitespace c = false
  /\ unurl (url c) = c /\ Ascii.eqb (url c) pad = false
  /\ url c <> "="%char /\ url c <> "+"%char /\ url c <> "/"%char.
Proof.
  intros Hs c. pose proof (sextet_check_all s Hs) as Hc.
  unfold sextet_check in Hc. fold c in Hc.
  repeat (apply andb_prop in Hc as [Hc ?]).
  apply bool_decide_eq_true in Hc.
  repeat match goal with
         | H : negb _ = true |- _ => apply negb_true_iff in H
         end.
  repeat split; try assumption.
  - now apply Ascii.eqb_eq.
  - now apply Ascii.eqb_neq.
  - now apply Ascii.eqb_neq.
  - now apply Ascii.eqb_neq.
Qed.

Lemma drop_pad_replicate k r : drop_pad (replicate k pad ++ r) = drop_pad r.
Proof. induction k as [|k IH]; simpl; auto. Qed.

Lemma rev_replicate {A} k (x : A) : rev (replicate k x) = replicate k x.
Proof.
  induction k as [|k IH]; simpl; [reflexivity|].
  rewrite IH. clear IH. induction k as [|k IH]; simpl; [reflexivity|]. now rewrite IH.
Qed.

Lemma drop_pad_rev l :
  Forall (fun c => Ascii.eqb c pad = false) l -> drop_pad (rev l) = rev l.
Proof.
  intros Hl. destruct (rev l) as [|c r] eqn:E; [reflexivity|].
  assert (Hc : In c l) by (apply in_rev; rewrite E; now left).
  rewrite Forall_forall in Hl. simpl.
  rewrite Hl; [reflexivity|]. now apply list_elem_of_In.
Qed.

Lemma strip_trailing_pad_app l k :
  Forall (fun c => Ascii.eqb c pad = false) l ->
  strip_trailing_pad (l ++ replicate k pad) = l.
Proof.
  intros Hl. unfold strip_trailing_pad.
  rewrite rev_app_distr, rev_replicate, drop_pad_replicate, drop_pad_rev by assumption.
  apply rev_involutive.
Qed.

Lemma remove_padding_id data :
  Forall (fun c => Ascii.eqb c pad = false) data -> remove_padding data = data.
Proof.
  intros Hd. unfold remove_padding.
  destruct (Z.of_nat (length data) mod 4 =? 0); [|reflexivity].
  destruct (rev data) as [|c1 [|c2 r]] eqn:E; try reflexivity.
  assert (Hc : In c1 data) by (apply in_rev; rewrite E; now left).
  rewrite Forall_forall in Hd. rewrite Hd; [reflexivity|]. now apply list_elem_of_In.
Qed.

Lemma filter_id {A} (f : A -> bool) l :
  Forall (fun x => f x = true) l -> List.filter f l = l.
Proof.
  induction 1 as [|x l Hx _ IH]; simpl; [reflexivity|]. now rewrite Hx, IH.
Qed.

Lemma sextets_map l :
  Forall is_sextet l -> sextets (map sextet_char l) = Some l.
Proof.
  induction 1 as [|s l Hs _ IH]; simpl; [reflexivity|].
  destruct (sextet_facts s Hs) as [-> _]. now rewrite IH.
Qed.

Lemma atob_sextets l :
  Forall is_sextet l -> (length l mod 4 <> 1)%nat ->
  atob (String.string_of_list_ascii (map sextet_char l)) =
  Resolved (stringFromArray (decode_sextets l)).
Proof.
  intros Hl Hlen. unfold atob.
  rewrite String.list_ascii_of_string_of_list_ascii.
  rewrite filter_id.
  2:{ apply Forall_map. eapply Forall_impl; [exact Hl|]. intros s Hs. simpl.
      destruct (sextet_facts s Hs) as (_ & _ & -> & _). reflexivity. }
  rewrite remove_padding_id.
  2:{ apply Forall_map. eapply Forall_impl; [exact Hl|]. intros s Hs. simpl.
      now destruct (sextet_facts s Hs) as (_ & -> & _). }
  rewrite length_map.
  destruct (Z.eqb_spec (Z.of_nat (length l) mod 4) 1) as [E|_].
  - exfalso. apply Hlen. apply Nat2Z.inj. rewrite Nat2Z.inj_mod. exact E.
  - now rewrite sextets_map.
Qed.

Lemma encode_bytes l :
  Forall is_byte l ->
  encode (stringFromArray l) =
  String.string_of_list_ascii (map url (map sextet_char (sextets_of l))).
Proof.
  intros Hl. rewrite encode_map, arrayFromString_stringFromArray by assumption.
  rewrite btoa_list_sextets, map_app. f_equal.
  replace (map url (replicate (padding_of l) pad)) with (replicate (padding_of l) pad).
  2:{ induction (padding_of l) as [|k IH]; simpl; [reflexivity|]. now rewrite <- IH. }
  apply strip_trailing_pad_app.
  apply Forall_map, Forall_map. eapply Forall_impl; [apply sextets_of_range, Hl|].
  intros s Hs. simpl. now destruct (sextet_facts s Hs) as (_ & _ & _ & _ & -> & _).
Qed.

Lemma encodeArray_bytes l :
  Forall is_byte l -> encodeArray l = Resolved (encode (stringFromArray l)).
Proof.
  intros Hl. unfold encodeArray.
  assert (E : map (fun x => x mod 2 ^ 16) l = l).
  { induction Hl as [|x l Hx _ IH]; simpl; [reflexivity|].
    rewrite IH. f_equal. unfold is_byte in Hx. apply Z.mod_small. lia. }
  rewrite E.
  assert (F : forallb (fun u => u <? 256) l = true).
  { apply forallb_forall. intros x Hx. rewrite Forall_forall in Hl.
    apply list_elem_of_In, Hl in Hx. unfold is_byte in Hx. apply Z.ltb_lt. lia. }
  now rewrite F.
Qed.

Lemma decodeArray_encode l :
  Forall is_byte l -> decodeArray (encode (stringFromArray l)) = Resolved l.
Proof.
  intros Hl. unfold decodeArray.
  rewrite decode_map, encode_bytes, String.list_ascii_of_string_of_list_ascii by assumption.
  rewrite map_map.
  rewrite (map_ext_in _ (fun c => c)), map_id.
  2:{ intros c Hc. apply in_map_iff in Hc as (s & <- & Hs).
      pose proof (sextets_of_range l Hl) as Hr. rewrite Forall_forall in Hr.
      apply list_elem_of_In, Hr in Hs. now destruct (sextet_facts s Hs) as (_ & _ & _ & -> & _). }
  rewrite atob_sextets; [| now apply sextets_of_range | apply sextets_of_length].
  simpl. now rewrite decode_sextets_of, arrayFromString_stringFromArray.
Qed.

End Base64Strings.

(** C8. Decoding the base64url encoding of a byte sequence gives the
    sequence back, and the encoding contains none of the characters [=],
    [+] and [/]. *)
Theorem Base64Url_roundtrip (b : list Z) :
  Forall Utils.is_byte b ->
  exists s : string,
    Utils.Base64Url.encodeArray b = Resolved s
    /\ Utils.Base64Url.decodeArray s = Resolved b
    /\ forall c : ascii, In c (String.list_ascii_of_string s) ->
         c <> "="%char /\ c <> "+"%char /\ c <> "/"%char.
Proof.
  intros Hb. exists (Utils.Base64Url.encode (Utils.stringFromArray b)).
  split; [now apply encodeArray_bytes|].
  split; [now apply decodeArray_encode|].
  intros c. rewrite encode_bytes, String.list_ascii_of_string_of_list_ascii by assumption.
  rewrite map_map. intros Hc. apply in_map_iff in Hc as (s & <- & Hs).
  pose proof (sextets_of_range b Hb) as Hr. rewrite Forall_forall in Hr.
  apply list_elem_of_In, Hr in Hs.
  now destruct (sextet_facts s Hs) as (_ & _ & _ & _ & _ & ? & ? & ?).
Qed.

Lemma Base64Url_roundtrip_witness :
  Forall Utils.is_byte [72; 101; 108; 108; 111; 0; 255; 251; 62; 63]
  /\ exists s : string,
       Utils.Base64Url.encodeArray [72; 101; 108; 108; 111; 0; 255; 251; 62; 63] = Resolved s
       /\ Utils.Base64Url.decodeArray s = Resolved [72; 101; 108; 108; 111; 0; 255; 251; 62; 63]
       /\ forall c : ascii, In c (String.list_ascii_of_string s) ->
            c <> "="%char /\ c <> "+"%char /\ c <> "/"%char.
Proof.
  assert (Hb : Forall Utils.is_byte [72; 101; 108; 108; 111; 0; 255; 251; 62; 63]).
  { repeat (apply List.Forall_cons; [unfold Utils.is_byte; lia|]). apply List.Forall_nil. }
  split; [exact Hb | exact (Base64Url_roundtrip _ Hb)].
Defined.
(** ** Buffers *)

Section Buffers.
Import Utils.

Lemma write_at_spec arg : forall r offset,
  (offset + length arg <= length r)%nat ->
  write_at r offset arg =
  (take offset r ++ arg ++ drop (offset + length arg) r, (offset + length arg)%nat).
Proof.
  induction arg as [|x arg IH]; intros r offset Hlen; simpl in *.
  - rewrite Nat.add_0_r, take_drop. reflexivity.
  - rewrite IH by (rewrite length_insert; lia).
    rewrite drop_insert_lt by lia.
    replace (take (S offset) (<[offset:=x]> r)) with (take offset r ++ [x]).
    2:{ rewrite (take_S_r _ offset x).
        - now rewrite take_insert_ge by lia.
        - apply list_lookup_insert_eq. lia. }
    rewrite <- app_assoc. simpl.
    replace (S (offset + length arg)) with (offset + S (length arg))%nat by lia.
    reflexivity.
Qed.

Lemma concat_loop (args : list (list Z)) : forall (pre : list Z) (n : nat),
  (length pre + length (concat args))%nat = n ->
  foldl (fun '(r, offset) a => write_at r offset a)
        (pre ++ replicate (n - length pre) 0, length pre) args =
  (pre ++ concat args, n).
Proof.
  induction args as [|a args IH]; intros pre n Hn; simpl in *.
  - rewrite app_nil_r in *. rewrite Nat.add_0_r in Hn. subst n.
    now rewrite Nat.sub_diag, app_nil_r.
  - rewrite length_app in Hn.
    rewrite write_at_spec by (rewrite length_app, length_replicate; lia).
    rewrite take_app_length.
    rewrite drop_app_ge by lia.
    rewrite drop_replicate.
    replace (length pre + length a - length pre)%nat with (length a) by lia.
    specialize (IH (pre ++ a) n). rewrite length_app in IH.
    replace (n - length pre - length a)%nat with (n - (length pre + length a))%nat by lia.
    rewrite !app_assoc. apply IH. lia.
Qed.

Lemma total_length (args : list (list Z)) : forall t : nat,
  foldl (fun t a => (t + length a)%nat) t args = (t + length (concat args))%nat.
Proof.
  induction args as [|a args IH]; intros t; simpl.
  - lia.
  - rewrite IH, length_app. lia.
Qed.

Lemma arrayBufferConcat_concat args :
  arrayBufferConcat args = Resolved (concat args).
Proof.
  unfold arrayBufferConcat. rewrite total_length. simpl.
  pose proof (concat_loop args [] (length (concat args)) eq_refl) as E.
  simpl in E. rewrite Nat.sub_0_r in E. rewrite E.
  now rewrite Nat.eqb_refl.
Qed.

Lemma arrayFromInt32_be_word i : arrayFromInt32 i = uint32_be (i mod 2 ^ 32).
Proof. reflexivity. Qed.

Lemma uint32_be_mod n : uint32_be (n mod 2 ^ 32) = uint32_be n.
Proof.
  unfold uint32_be.
  f_equal; [|f_equal; [|f_equal; [|f_equal]]]; Z.div_mod_to_equations; lia.
Qed.

Lemma uint32_be_bytes n : Forall is_byte (uint32_be n).
Proof.
  unfold uint32_be, is_byte.
  repeat (apply List.Forall_cons; [Z.div_mod_to_equations; lia|]). apply List.Forall_nil.
Qed.

Lemma uint32_be_value n : big_endian (uint32_be n) = n mod 2 ^ 32.
Proof. unfold big_endian, uint32_be. simpl. Z.div_mod_to_equations; lia. Qed.

End Buffers.
(** ** The MAC-then-encrypt construction *)

Section MacThenEncrypt.
Context `{H : Host}.
Local Arguments uint32_be : simpl never.

Lemma slice_take (buf : list Z) (n : Z) :
  0 <= n -> slice buf (Some 0) (Some n) = take (Z.to_nat n) buf.
Proof.
  intros Hn. unfold slice, clamp. simpl.
  destruct (Z.ltb_spec n 0) as [?|_]; [lia|].
  rewrite drop_0, Nat.sub_0_r.
  destruct (Nat.le_ge_cases (Z.to_nat n) (length buf)) as [Hle|Hge].
  - now rewrite Nat.min_l.
  - rewrite Nat.min_r by assumption. now rewrite !take_ge by lia.
Qed.

Lemma slice_drop (buf : list Z) (n : Z) :
  0 <= n -> slice buf (Some n) None = drop (Z.to_nat n) buf.
Proof.
  intros Hn. unfold slice, clamp.
  destruct (Z.ltb_spec n 0) as [?|_]; [lia|].
  rewrite take_ge by (rewrite length_drop; lia).
  destruct (Nat.le_ge_cases (Z.to_nat n) (length buf)) as [Hle|Hge].
  - now rewrite Nat.min_l.
  - rewrite Nat.min_r by assumption. now rewrite !drop_ge by lia.
Qed.

(** The members of a composite configuration. *)
Lemma composite_members config :
  composite config ->
  exists (hmac : AlgorithmIdentifier) (a : AuthConfig) (kb bits : Z),
    auth config = Some a /\ aead a = false /\ auth_id a = Some hmac
    /\ key_bytes a = Some kb /\ truncated_bytes a = Some kb
    /\ alg_length (cfg_id config) = Some bits
    /\ specific_cek_bytes config = Some (kb + bits / 8)
    /\ iv_bytes config = Some 16
    /\ 0 < kb /\ bits = kb * 8
    /\ alg_name (cfg_id config) = "AES-CBC" /\ alg_name hmac = "HMAC".
Proof.
  intros [E|E]; vm_compute in E; injection E as <-; simpl;
    eexists _, _, _, _; repeat split; reflexivity.
Qed.

Ltac run_codec :=
  unfold then_, bind, lift, defined, promise_of, reject, ret, get_this, set_this,
    call_sign, call_importKey, call_exportKey, call_decrypt, call_unwrapKey in *.

(** The length block: [al_full] is eight bytes, the last four the
    big-endian word of the bit length. *)
Lemma al_full_spec (aad : list Z) :
  set (replicate 8 0) (Utils.arrayFromInt32 (Z.of_nat (length aad) * 8)) 4 =
  [0; 0; 0; 0] ++ uint32_be (8 * Z.of_nat (length aad)).
Proof.
  rewrite arrayFromInt32_be_word, uint32_be_mod.
  replace (Z.of_nat (length aad) * 8) with (8 * Z.of_nat (length aad)) by lia.
  reflexivity.
Qed.

Lemma truncatedMac_run this config mac_key (aad iv cipher_text : list Z)
    (hmac : AlgorithmIdentifier) (a : AuthConfig) (n : Z) :
  auth config = Some a -> auth_id a = Some hmac -> truncated_bytes a = Some n -> 0 <= n ->
  truncatedMac config (Resolved mac_key) aad iv cipher_text this =
  (match subtle_sign hmac mac_key
           (aad ++ iv ++ cipher_text ++ [0; 0; 0; 0] ++ uint32_be (8 * Z.of_nat (length aad)))
   with
   | Resolved bytes => Resolved (take (Z.to_nat n) bytes)
   | Rejected e | Thrown e => Rejected e
   end, this,
   [Sign hmac mac_key
      (aad ++ iv ++ cipher_text ++ [0; 0; 0; 0] ++ uint32_be (8 * Z.of_nat (length aad)))]).
Proof.
  intros Ha Hi Hn Hpos. unfold truncatedMac. run_codec.
  rewrite arrayBufferConcat_concat, al_full_spec, Ha, Hi, Hn. simpl.
  rewrite ?app_nil_r.
  destruct (subtle_sign _ _ _) as [bytes|e|e]; simpl; try reflexivity.
  now rewrite slice_take.
Qed.

Lemma truncatedMac_rejected this config e (aad iv cipher_text : list Z) :
  truncatedMac config (Rejected e) aad iv cipher_text this = (Rejected e, this, []).
Proof. reflexivity. Qed.

Lemma splitKey_run this config cek_promise purpose
    (hmac : AlgorithmIdentifier) (a : AuthConfig) (kb bits : Z) :
  auth config = Some a -> auth_id a = Some hmac -> key_bytes a = Some kb ->
  alg_length (cfg_id config) = Some bits -> 0 <= kb ->
  splitKey config cek_promise purpose this =
  match cek_promise with
  | Resolved cek =>
      match subtle_exportKey cek with
      | Resolved cek_bytes =>
          if Z.of_nat (length cek_bytes) * 8 =? bits + kb * 8
          then (Resolved
                  (settled (subtle_importKey (take (Z.to_nat kb) cek_bytes) hmac false ["sign"]),
                   settled (subtle_importKey (drop (Z.to_nat kb) cek_bytes) (cfg_id config)
                              false purpose)),
                this,
                [ExportKey cek;
                 ImportKey (take (Z.to_nat kb) cek_bytes) hmac false ["sign"];
                 ImportKey (drop (Z.to_nat kb) cek_bytes) (cfg_id config) false purpose])
          else (Resolved (Rejected incorrect_cek_length, Rejected incorrect_cek_length),
                this, [ExportKey cek])
      | Rejected e | Thrown e => (Resolved (Rejected e, Rejected e), this, [ExportKey cek])
      end
  | Rejected e | Thrown e => (Resolved (Rejected e, Rejected e), this, [])
  end.
Proof.
  intros Ha Hi Hk Hb Hpos. unfold splitKey. run_codec.
  destruct cek_promise as [cek|e|e]; try reflexivity.
  destruct (subtle_exportKey cek) as [cek_bytes|e|e]; try reflexivity.
  rewrite Ha, Hk, Hb, Hi. simpl.
  destruct (Z.of_nat (length cek_bytes) * 8 =? bits + kb * 8); simpl; [|reflexivity].
  rewrite slice_take, slice_drop by assumption.
  destruct (subtle_importKey (take _ _) _ _ _), (subtle_importKey (drop _ _) _ _ _);
    reflexivity.
Qed.

End MacThenEncrypt.

(** C5. In a composite suite the bytes signed are [aad ‖ iv ‖ ciphertext ‖
    AL], where [AL] is eight bytes: four zero bytes, then the big-endian
    32-bit encoding of eight times the length of [aad]; and the tag is the
    first [truncated_bytes] bytes of the signature. *)
Theorem truncatedMac_input_and_tag `{H : Host} (this : JoseJWE) (config : CryptoConfig)
    (mac_key : CryptoKey) (aad iv cipher_text : list Z) :
  composite config ->
  exists (hmac : AlgorithmIdentifier) (n : Z) (AL : list Z),
    auth config ≫= auth_id = Some hmac
    /\ auth config ≫= truncated_bytes = Some n
    /\ length AL = 8%nat
    /\ take 4 AL = [0; 0; 0; 0]
    /\ drop 4 AL = uint32_be (8 * Z.of_nat (length aad))
    /\ Forall Utils.is_byte AL
    /\ big_endian (drop 4 AL) = (8 * Z.of_nat (length aad)) mod 2 ^ 32
    /\ truncatedMac config (Resolved mac_key) aad iv cipher_text this =
       (match subtle_sign hmac mac_key (aad ++ iv ++ cipher_text ++ AL) with
        | Resolved bytes => Resolved (take (Z.to_nat n) bytes)
        | Rejected e | Thrown e => Rejected e
        end, this,
        [Sign hmac mac_key (aad ++ iv ++ cipher_text ++ AL)]).
Proof.
  intros Hc.
  destruct (composite_members config Hc)
    as (hmac & a & kb & bits & Ha & _ & Hi & _ & Hn & _ & _ & _ & Hpos & _).
  exists hmac, kb, ([0; 0; 0; 0] ++ uint32_be (8 * Z.of_nat (length aad))).
  rewrite Ha. simpl. repeat split; try assumption.
  - repeat (apply List.Forall_cons; [unfold Utils.is_byte; lia|]). apply uint32_be_bytes.
  - apply uint32_be_value.
  - apply truncatedMac_run with a; auto. lia.
Qed.

(** C6. In a composite suite the exported key bytes must be
    [specific_cek_bytes] long, which is [key_bytes] plus the AES key
    length; otherwise both key promises are rejected.  When they are, the
    first [key_bytes] bytes are imported as the HMAC key with usage
    [sign], then the remaining bytes as the AES-CBC key. *)
Theorem splitKey_halves `{H : Host} (this : JoseJWE) (config : CryptoConfig)
    (cek : CryptoKey) (cek_bytes : list Z) (purpose : list string) :
  composite config ->
  subtle_exportKey cek = Resolved cek_bytes ->
  exists (hmac : AlgorithmIdentifier) (kb bits : Z),
    auth config ≫= auth_id = Some hmac
    /\ auth config ≫= key_bytes = Some kb
    /\ alg_length (cfg_id config) = Some bits
    /\ specific_cek_bytes config = Some (kb + bits / 8)
    /\ alg_name hmac = "HMAC" /\ alg_name (cfg_id config) = "AES-CBC"
    /\ splitKey config (Resolved cek) purpose this =
       if bool_decide (Some (Z.of_nat (length cek_bytes)) = specific_cek_bytes config)
       then (Resolved
               (settled (subtle_importKey (take (Z.to_nat kb) cek_bytes) hmac false ["sign"]),
                settled (subtle_importKey (drop (Z.to_nat kb) cek_bytes) (cfg_id config)
                           false purpose)),
             this,
             [ExportKey cek;
              ImportKey (take (Z.to_nat kb) cek_bytes) hmac false ["sign"];
              ImportKey (drop (Z.to_nat kb) cek_bytes) (cfg_id config) false purpose])
       else (Resolved (Rejected (Reason "encryptPlainText: incorrect cek length"),
                       Rejected (Reason "encryptPlainText: incorrect cek length")),
             this, [ExportKey cek]).
Proof.
  intros Hc He.
  destruct (composite_members config Hc)
    as (hmac & a & kb & bits & Ha & _ & Hi & Hk & _ & Hb & Hs & _ & Hpos & Hbits & Hn1 & Hn2).
  exists hmac, kb, bits. rewrite Ha. simpl. repeat split; try assumption.
  rewrite (splitKey_run this config (Resolved cek) purpose hmac a kb bits) by (auto; lia).
  rewrite He, Hs.
  destruct (Z.eqb_spec (Z.of_nat (length cek_bytes) * 8) (bits + kb * 8)) as [E|E].
  - rewrite bool_decide_eq_true_2; [reflexivity|]. f_equal. subst bits.
    rewrite Z.div_mul by lia. lia.
  - rewrite bool_decide_eq_false_2; [reflexivity|]. intros [= E']. apply E. subst bits.
    rewrite Z.div_mul in E' by lia. lia.
Qed.
(** ** Decryption of the content *)

Section DecryptCiphertext.
Context `{H : Host}.
Local Arguments uint32_be : simpl never.
Local Arguments truncatedMac : simpl never.

(** The composite path, stage by stage: what is returned and which calls
    are made, according to the results of the provider. *)
Lemma decryptCiphertext_composite this cek_promise (aad iv cipher_text tag : list Z)
    (hmac : AlgorithmIdentifier) (a : AuthConfig) (kb bits : Z) :
  let config := content_encryption this in
  auth config = Some a -> aead a = false -> auth_id a = Some hmac ->
  key_bytes a = Some kb -> truncated_bytes a = Some kb ->
  alg_length (cfg_id config) = Some bits -> iv_bytes config = Some 16 -> 0 < kb ->
  let dec := {| cp_name := alg_name (cfg_id config); cp_iv := iv;
                cp_additionalData := None; cp_tagLength := None |} in
  decryptCiphertext cek_promise aad iv cipher_text tag this =
  if Z.of_nat (length iv) =? 16 then
    match cek_promise with
    | Resolved cek =>
        match subtle_exportKey cek with
        | Resolved cek_bytes =>
            if Z.of_nat (length cek_bytes) * 8 =? bits + kb * 8 then
              let mac_bytes := take (Z.to_nat kb) cek_bytes in
              let enc_bytes := drop (Z.to_nat kb) cek_bytes in
              let pre := [ExportKey cek;
                          ImportKey mac_bytes hmac false ["sign"];
                          ImportKey enc_bytes (cfg_id config) false ["decrypt"]] in
              match subtle_importKey mac_bytes hmac false ["sign"] with
              | Resolved mac_key =>
                  let input := aad ++ iv ++ cipher_text ++ length_block aad in
                  match subtle_importKey enc_bytes (cfg_id config) false ["decrypt"],
                        subtle_sign hmac mac_key input with
                  | Resolved enc_key, Resolved signature =>
                      if Utils.compare (take (Z.to_nat kb) signature) tag
                      then (settled (subtle_decrypt dec enc_key cipher_text), this,
                            pre ++ [Sign hmac mac_key input; Decrypt dec enc_key cipher_text])
                      else (Rejected MAC_failed, this, pre ++ [Sign hmac mac_key input])
                  | Resolved _, Rejected e | Resolved _, Thrown e
                  | Rejected e, _ | Thrown e, _ =>
                      (Rejected e, this, pre ++ [Sign hmac mac_key input])
                  end
              | Rejected e | Thrown e =>
                  match subtle_importKey enc_bytes (cfg_id config) false ["decrypt"] with
                  | Resolved _ => (Rejected e, this, pre)
                  | Rejected e' | Thrown e' => (Rejected e', this, pre)
                  end
              end
            else (Rejected incorrect_cek_length, this, [ExportKey cek])
        | Rejected e | Thrown e => (Rejected e, this, [ExportKey cek])
        end
    | Rejected e | Thrown e => (Rejected e, this, [])
    end
  else (Rejected invalid_IV, this, []).
Proof.
  intros config Ha Hae Hi Hk Hn Hb Hiv Hpos dec. subst config dec.
  unfold decryptCiphertext, bind, get_this. rewrite Hiv. simpl.
  destruct (Z.of_nat (length iv) =? 16); simpl; [|reflexivity].
  unfold defined. rewrite Ha. simpl. rewrite Hae.
  rewrite (splitKey_run this _ cek_promise ["decrypt"] hmac a kb bits) by (auto; lia).
  destruct cek_promise as [cek|e|e]; try reflexivity.
  destruct (subtle_exportKey cek) as [cek_bytes|e|e]; try reflexivity.
  destruct (Z.of_nat (length cek_bytes) * 8 =? bits + kb * 8); [|reflexivity].
  unfold promise_of.
  destruct (subtle_importKey (take _ _) _ _ _) as [mac_key|e|e];
    destruct (subtle_importKey (drop _ _) _ _ _) as [enc_key|e'|e']; simpl;
    rewrite ?truncatedMac_rejected; try reflexivity;
    rewrite (truncatedMac_run this _ mac_key aad iv cipher_text hmac a kb) by (auto; lia);
    fold (length_block aad);
    destruct (subtle_sign _ _ _) as [signature|e''|e'']; simpl; try reflexivity.
  destruct (Utils.compare _ tag); simpl; [|reflexivity].
  unfold call_decrypt. destruct (subtle_decrypt _ _ _); reflexivity.
Qed.

Section Composite.
Variables (this : JoseJWE) (hmac : AlgorithmIdentifier) (a : AuthConfig) (kb bits : Z).
Let config := content_encryption this.
Hypothesis Ha : auth config = Some a.
Hypothesis Hae : aead a = false.
Hypothesis Hi : auth_id a = Some hmac.
Hypothesis Hk : key_bytes a = Some kb.
Hypothesis Hn : truncated_bytes a = Some kb.
Hypothesis Hb : alg_length (cfg_id config) = Some bits.
Hypothesis Hiv : iv_bytes config = Some 16.
Hypothesis Hpos : 0 < kb.
Variables (cek_promise : outcome CryptoKey) (aad iv cipher_text : list Z).

Let run (tag : list Z) := decryptCiphertext cek_promise aad iv cipher_text tag this.
Let input := aad ++ iv ++ cipher_text ++ length_block aad.

Ltac stages :=
  unfold run;
  rewrite (decryptCiphertext_composite this cek_promise aad iv cipher_text _ hmac a kb bits)
    by assumption;
  cbv zeta; fold config; fold input;
  repeat case_match; simplify_eq; simpl.

Lemma composite_this tag : final_this (run tag) = this.
Proof. stages; reflexivity. Qed.

Lemma composite_decrypt_after_mac tag params key data :
  In (Decrypt params key data) (trace (run tag)) ->
  exists mac_key signature pre,
    trace (run tag) = pre ++ [Sign hmac mac_key input; Decrypt params key data]
    /\ no_decrypt pre
    /\ subtle_sign hmac mac_key input = Resolved signature
    /\ Utils.compare (take (Z.to_nat kb) signature) tag = true
    /\ data = cipher_text /\ cp_iv params = iv
    /\ cp_name params = alg_name (cfg_id config).
Proof.
  stages; intros Hin; try (intuition discriminate).
  destruct Hin as [|[|[|[|[Hin|[]]]]]]; try discriminate. injection Hin as <- <- <-.
  eexists _, _, [_; _; _]. repeat split; eauto.
Qed.

Lemma composite_plaintext tag plain :
  result (run tag) = Resolved plain ->
  exists params key,
    In (Decrypt params key cipher_text) (trace (run tag))
    /\ subtle_decrypt params key cipher_text = Resolved plain.
Proof.
  stages; intros Hr; try discriminate.
  eexists _, _. split; [do 4 right; left; reflexivity|].
  unfold result in Hr. simpl in Hr. destruct (subtle_decrypt _ _ _); now simplify_eq.
Qed.

Lemma composite_mismatch tag cek cek_bytes mac_key enc_key signature :
  Z.of_nat (length iv) = 16 ->
  cek_promise = Resolved cek ->
  subtle_exportKey cek = Resolved cek_bytes ->
  Z.of_nat (length cek_bytes) * 8 = bits + kb * 8 ->
  subtle_importKey (take (Z.to_nat kb) cek_bytes) hmac false ["sign"] = Resolved mac_key ->
  subtle_importKey (drop (Z.to_nat kb) cek_bytes) (cfg_id config) false ["decrypt"]
    = Resolved enc_key ->
  subtle_sign hmac mac_key input = Resolved signature ->
  Utils.compare (take (Z.to_nat kb) signature) tag = false ->
  run tag =
  (Rejected MAC_failed, this,
   [ExportKey cek;
    ImportKey (take (Z.to_nat kb) cek_bytes) hmac false ["sign"];
    ImportKey (drop (Z.to_nat kb) cek_bytes) (cfg_id config) false ["decrypt"];
    Sign hmac mac_key input]).
Proof.
  intros Hl -> He Hc Hm Hen Hs Hcmp. unfold run.
  rewrite (decryptCiphertext_composite this _ aad iv cipher_text _ hmac a kb bits)
    by assumption.
  cbv zeta; fold config; fold input.
  rewrite Hl, He, Hc, Z.eqb_refl, Z.eqb_refl, Hm, Hen, Hs, Hcmp. reflexivity.
Qed.

Lemma composite_tampered tag tag' plain :
  result (run tag) = Resolved plain -> tag' <> tag ->
  result (run tag') = Rejected MAC_failed /\ no_decrypt (trace (run tag')).
Proof.
  intros Hr Hne. revert Hr. unfold run.
  rewrite !(decryptCiphertext_composite this cek_promise aad iv cipher_text _ hmac a kb bits)
    by assumption.
  cbv zeta; fold config; fold input.
  repeat case_match; simplify_eq; simpl; intros Hr; try discriminate;
    try (split; reflexivity).
  exfalso.
  repeat match goal with
         | H : Utils.compare _ _ = true |- _ => apply compare_true_iff in H
         end.
  congruence.
Qed.

Lemma composite_failure tag :
  is_failure (result (run tag)) -> no_decrypt (trace (run tag))
  \/ exists params key e, In (Decrypt params key cipher_text) (trace (run tag))
       /\ settled (subtle_decrypt params key cipher_text) = Rejected e.
Proof.
  stages; intros Hf; try (left; reflexivity).
  right. unfold result in Hf. simpl in Hf.
  destruct (subtle_decrypt _ _ _) eqn:E; simpl in *; try contradiction;
    eexists _, _, _; (split; [do 4 right; left; reflexivity|]); rewrite E; reflexivity.
Qed.

End Composite.

End DecryptCiphertext.
(** ** The codec monad *)

Section Monad.
Context `{H : Host}.

Lemma bind_ret_l {A B} (a : A) (k : A -> M B) this : bind (ret a) k this = k a this.
Proof. unfold bind, ret. now destruct (k a this) as [[o s] t]. Qed.

Lemma bind_assoc {A B C} (m : M A) (k : A -> M B) (k' : B -> M C) this :
  bind (bind m k) k' this = bind m (fun a => bind (k a) k') this.
Proof.
  unfold bind. destruct (m this) as [[[a|e|e] this1] t1]; try reflexivity.
  destruct (k a this1) as [[[b|e|e] this2] t2]; try reflexivity.
  destruct (k' b this2) as [[o this3] t3]. now rewrite app_assoc.
Qed.

Lemma bind_ext {A B} (m : M A) (k k' : A -> M B) this :
  (forall a this', k a this' = k' a this') -> bind m k this = bind m k' this.
Proof.
  intros E. unfold bind. destruct (m this) as [[[a|e|e] this1] t1]; try reflexivity.
  now rewrite E.
Qed.

Lemma bind_reject {A B} msg (k : A -> M B) this : bind (reject msg) k this = reject msg this.
Proof. reflexivity. Qed.

End Monad.

(** ** The compact codec *)

Section Decrypt.
Context `{H : Host}.

Lemma decrypt_halves key_promise this jwe h ek ivs cs ts :
  Utils.split "." jwe = [h; ek; ivs; cs; ts] ->
  decrypt key_promise jwe this =
  bind (read_header h) (fun _ => decrypt_parts key_promise h ek ivs cs ts) this.
Proof.
  intros Hs. unfold decrypt, read_header, decrypt_parts. rewrite Hs.
  change (negb (Nat.eqb (length [h; ek; ivs; cs; ts]) 5)) with false.
  change ([h; ek; ivs; cs; ts] !!! 0%nat) with h.
  change ([h; ek; ivs; cs; ts] !!! 1%nat) with ek.
  change ([h; ek; ivs; cs; ts] !!! 2%nat) with ivs.
  change ([h; ek; ivs; cs; ts] !!! 3%nat) with cs.
  change ([h; ek; ivs; cs; ts] !!! 4%nat) with ts.
  cbv iota.
  rewrite bind_assoc. apply bind_ext. intros json this1.
  rewrite bind_assoc. apply bind_ext. intros header this2.
  rewrite bind_assoc. apply bind_ext. intros alg this3.
  destruct (negb (truthy alg)); [reflexivity|].
  rewrite bind_assoc. apply bind_ext. intros _ this4.
  rewrite bind_assoc. apply bind_ext. intros enc this5.
  destruct (negb (truthy enc)); [reflexivity|].
  rewrite bind_assoc. apply bind_ext. intros _ this6.
  rewrite bind_assoc. apply bind_ext. intros crit this7.
  destruct (truthy crit); [reflexivity|].
  now rewrite bind_ret_l.
Qed.
End Decrypt.
Create HintDb frame.

Section Frames.
Context `{H : Host}.

Lemma trace_triple {A} (o : outcome A) (s : JoseJWE) (t : list call) : trace (o, s, t) = t.
Proof. reflexivity. Qed.

Lemma bind_unfold {A B} (m : M A) (k : A -> M B) this :
  bind m k this =
  match result (m this) with
  | Resolved a =>
      (result (k a (final_this (m this))), final_this (k a (final_this (m this))),
       trace (m this) ++ trace (k a (final_this (m this))))
  | Rejected e => (Rejected e, final_this (m this), trace (m this))
  | Thrown e => (Thrown e, final_this (m this), trace (m this))
  end.
Proof.
  unfold bind, result, final_this, trace.
  destruct (m this) as [[[a|e|e] this1] t1]; try reflexivity.
  simpl. now destruct (k a this1) as [[o this2] t2].
Qed.

Lemma result_bind {A B} (m : M A) (k : A -> M B) this :
  result (bind m k this) =
  match result (m this) with
  | Resolved a => result (k a (final_this (m this)))
  | Rejected e => Rejected e
  | Thrown e => Thrown e
  end.
Proof.
  unfold bind, result, final_this, trace.
  destruct (m this) as [[[a|e|e] this1] t1]; try reflexivity.
  simpl. now destruct (k a this1) as [[o this2] t2].
Qed.

Lemma final_this_bind {A B} (m : M A) (k : A -> M B) this :
  final_this (bind m k this) =
  match result (m this) with
  | Resolved a => final_this (k a (final_this (m this)))
  | _ => final_this (m this)
  end.
Proof.
  unfold bind, result, final_this, trace.
  destruct (m this) as [[[a|e|e] this1] t1]; try reflexivity.
  simpl. now destruct (k a this1) as [[o this2] t2].
Qed.

Lemma trace_bind {A B} (m : M A) (k : A -> M B) this :
  trace (bind m k this) =
  match result (m this) with
  | Resolved a => trace (m this) ++ trace (k a (final_this (m this)))
  | _ => trace (m this)
  end.
Proof.
  unfold bind, result, final_this, trace.
  destruct (m this) as [[[a|e|e] this1] t1]; try reflexivity.
  simpl. now destruct (k a this1) as [[o this2] t2].
Qed.

Lemma no_decrypt_app (t1 t2 : list call) :
  no_decrypt t1 -> no_decrypt t2 -> no_decrypt (t1 ++ t2).
Proof. unfold no_decrypt. rewrite forallb_app. now intros -> ->. Qed.

(** *** Methods that leave [this] alone *)

Lemma preserves_ret {A} (a : A) : preserves (ret a).
Proof. now intros this. Qed.

Lemma preserves_lift {A} (o : outcome A) : preserves (lift o).
Proof. now intros this. Qed.

Lemma preserves_reject {A} msg : preserves (@reject _ A msg).
Proof. now intros this. Qed.

Lemma preserves_get_this : preserves get_this.
Proof. now intros this. Qed.

Lemma preserves_defined {A} (o : option A) : preserves (defined o).
Proof. now destruct o; intros this. Qed.

Lemma preserves_bind {A B} (m : M A) (k : A -> M B) :
  preserves m -> (forall a, preserves (k a)) -> preserves (bind m k).
Proof.
  intros Hm Hk this. rewrite final_this_bind, Hm.
  destruct (result (m this)); [apply Hk | reflexivity | reflexivity].
Qed.

Lemma preserves_promise_of {A} (m : M A) : preserves m -> preserves (promise_of m).
Proof.
  intros Hm this. specialize (Hm this). unfold promise_of.
  now destruct (m this) as [[[a|e|e] this1] t1].
Qed.

Lemma preserves_then {A B} (p : outcome A) (cb : A -> M B) :
  (forall a, preserves (cb a)) -> preserves (then_ p cb).
Proof.
  intros Hcb this. destruct p as [a|e|e]; try reflexivity.
  specialize (Hcb a this). unfold then_.
  now destruct (cb a this) as [[[b|e|e] this1] t1].
Qed.

Lemma preserves_call_unwrapKey w k a1 a2 x u : preserves (call_unwrapKey w k a1 a2 x u).
Proof. now intros this. Qed.
Lemma preserves_call_exportKey k : preserves (call_exportKey k).
Proof. now intros this. Qed.
Lemma preserves_call_importKey r a x u : preserves (call_importKey r a x u).
Proof. now intros this. Qed.
Lemma preserves_call_sign a k d : preserves (call_sign a k d).
Proof. now intros this. Qed.
Lemma preserves_call_decrypt p k d : preserves (call_decrypt p k d).
Proof. now intros this. Qed.

Lemma preserves_if {A} (b : bool) (m1 m2 : M A) :
  preserves m1 -> preserves m2 -> preserves (if b then m1 else m2).
Proof. now destruct b. Qed.

#[local] Hint Resolve preserves_ret preserves_lift preserves_reject preserves_get_this
  preserves_defined preserves_bind preserves_promise_of preserves_then
  preserves_call_unwrapKey preserves_call_exportKey preserves_call_importKey
  preserves_call_sign preserves_call_decrypt preserves_if : frame.

Lemma preserves_truncatedMac config p (aad iv cipher_text : list Z) :
  preserves (truncatedMac config p aad iv cipher_text).
Proof. unfold truncatedMac. auto 12 with frame. Qed.

Lemma preserves_splitKey config p purpose : preserves (splitKey config p purpose).
Proof. unfold splitKey. auto 12 with frame. Qed.

Lemma preserves_decryptCek p (encrypted_cek : list Z) : preserves (decryptCek p encrypted_cek).
Proof. unfold decryptCek. auto 12 with frame. Qed.

#[local] Hint Resolve preserves_truncatedMac preserves_splitKey preserves_decryptCek : frame.

Lemma preserves_decryptCiphertext p (aad iv cipher_text tag : list Z) :
  preserves (decryptCiphertext p aad iv cipher_text tag).
Proof.
  unfold decryptCiphertext.
  apply preserves_bind; [auto with frame|]. intros this.
  apply preserves_if; [auto with frame|].
  apply preserves_bind; [auto with frame|]. intros a.
  apply preserves_if; [auto 12 with frame|].
  apply preserves_bind; [auto with frame|]. intros [p1 p2].
  auto 12 with frame.
Qed.

#[local] Hint Resolve preserves_decryptCiphertext : frame.

Lemma preserves_decrypt_parts p h ek ivs cs ts : preserves (decrypt_parts p h ek ivs cs ts).
Proof. unfold decrypt_parts. auto 20 with frame. Qed.

End Frames.
Section Header.
Context `{H : Host}.

Lemma bind_resolved {A B} (m : M A) (k : A -> M B) this a this1 :
  m this = (Resolved a, this1, []) -> bind m k this = k a this1.
Proof. intros E. unfold bind. rewrite E. now destruct (k a this1) as [[o s] t]. Qed.

Lemma bind_lift {A B} (a : A) (k : A -> M B) this :
  bind (lift (Resolved a)) k this = k a this.
Proof. now apply bind_resolved. Qed.

Lemma set_key_encryption_run alg c this :
  getCryptoConfig alg = Resolved c ->
  set_key_encryption alg this =
  (Resolved tt,
   {| key_encryption := c; content_encryption := content_encryption this |}, []).
Proof.
  intros E. unfold set_key_encryption, setKeyEncryptionAlgorithm, bind, get_this, lift, set_this.
  now rewrite E.
Qed.

Lemma set_content_encryption_run alg c this :
  getCryptoConfig alg = Resolved c ->
  set_content_encryption alg this =
  (Resolved tt,
   {| key_encryption := key_encryption this; content_encryption := c |}, []).
Proof.
  intros E.
  unfold set_content_encryption, setContentEncryptionAlgorithm, bind, get_this, lift, set_this.
  now rewrite E.
Qed.

Lemma recognized_config (alg : string) :
  In alg recognized ->
  exists c, getCryptoConfig (VString alg) = Resolved c /\ truthy (VString alg) = true.
Proof.
  intros Hin. simpl in Hin.
  repeat (destruct Hin as [<-|Hin]; [eexists; split; reflexivity |]). contradiction.
Qed.

(** Reading a header whose [alg] and [enc] are recognized selects their
    configurations, whether or not the header is then refused. *)
Lemma read_header_selects h this json header (a e : string) ka ca :
  Utils.Base64Url.decode h = Resolved json ->
  JSON_parse json = Resolved header ->
  get header "alg" = Resolved (VString a) ->
  get header "enc" = Resolved (VString e) ->
  getCryptoConfig (VString a) = Resolved ka -> truthy (VString a) = true ->
  getCryptoConfig (VString e) = Resolved ca -> truthy (VString e) = true ->
  exists crit,
    get header "crit" = Resolved crit
    /\ read_header h this =
       (if truthy crit then Rejected (Reason "decrypt: crit is not supported")
        else Resolved tt,
        {| key_encryption := ka; content_encryption := ca |}, []).
Proof.
  intros Hd Hp Ha He Hka Hta Hca Hte.
  assert (exists crit, get header "crit" = Resolved crit) as [crit Hc].
  { destruct header; try discriminate; eexists; reflexivity. }
  exists crit. split; [assumption|].
  unfold read_header.
  rewrite Hd, bind_lift, Hp, bind_lift, Ha, bind_lift, Hta. cbn [negb].
  rewrite (bind_resolved _ _ _ tt _ (set_key_encryption_run _ _ _ Hka)).
  rewrite He, bind_lift, Hte. cbn [negb].
  rewrite (bind_resolved _ _ _ tt _ (set_content_encryption_run _ _ _ Hca)).
  rewrite Hc, bind_lift.
  now destruct (truthy crit).
Qed.

End Header.

(** C3, as the code has it. An input that does not split on [.] into
    exactly five segments is rejected with "decrypt: invalid input", a
    rejection of the kind MalformedInput; no provider call is made and the
    instance is unchanged. *)
Theorem decrypt_segment_count `{H : Host} (key_promise : outcome CryptoKey)
    (this : JoseJWE) (cipher_text : string) :
  length (Utils.split "." cipher_text) <> 5%nat ->
  decrypt key_promise cipher_text this
  = (Rejected (Reason "decrypt: invalid input"), this, [])
  /\ kind_of (Reason "decrypt: invalid input") = MalformedInput.
Proof.
  intros Hlen. split; [|reflexivity]. unfold decrypt.
  destruct (Nat.eqb_spec (length (Utils.split "." cipher_text)) 5) as [E|_];
    [contradiction | reflexivity].
Qed.

(** C10. On a five-segment input whose header names recognized [alg] and
    [enc], [decrypt] leaves the instance with the configurations of those
    two names, however the call ends; a header with [crit] is refused only
    after they have been selected. *)
Theorem decrypt_overwrites_algorithms `{H : Host} (key_promise : outcome CryptoKey)
    (this : JoseJWE) (cipher_text json : string) (header : value) (a e : string) :
  length (Utils.split "." cipher_text) = 5%nat ->
  Utils.Base64Url.decode (Utils.split "." cipher_text !!! 0%nat) = Resolved json ->
  JSON_parse json = Resolved header ->
  get header "alg" = Resolved (VString a) ->
  get header "enc" = Resolved (VString e) ->
  In a recognized -> In e recognized ->
  exists (ka ca : CryptoConfig) (crit : value),
    getCryptoConfig (VString a) = Resolved ka
    /\ getCryptoConfig (VString e) = Resolved ca
    /\ get header "crit" = Resolved crit
    /\ final_this (decrypt key_promise cipher_text this) =
       {| key_encryption := ka; content_encryption := ca |}
    /\ (truthy crit = true ->
        decrypt key_promise cipher_text this =
        (Rejected (Reason "decrypt: crit is not supported"),
         {| key_encryption := ka; content_encryption := ca |}, [])).
Proof.
  intros Hlen Hd Hp Ha He Hina Hine.
  destruct (recognized_config a Hina) as (ka & Hka & Hta).
  destruct (recognized_config e Hine) as (ca & Hca & Hte).
  destruct (Utils.split "." cipher_text) as [|h [|ek [|ivs [|cs [|ts [|]]]]]] eqn:Hs;
    try discriminate.
  change ([h; ek; ivs; cs; ts] !!! 0%nat) with h in Hd.
  destruct (read_header_selects h this json header a e ka ca Hd Hp Ha He Hka Hta Hca Hte)
    as (crit & Hc & Hr).
  exists ka, ca, crit. repeat split; try assumption.
  - rewrite (decrypt_halves key_promise this cipher_text h ek ivs cs ts Hs).
    rewrite final_this_bind, Hr. unfold result, final_this at 2. simpl.
    destruct (truthy crit); [reflexivity|]. apply preserves_decrypt_parts.
  - intros Ht. rewrite (decrypt_halves key_promise this cipher_text h ek ivs cs ts Hs).
    unfold bind. rewrite Hr, Ht. reflexivity.
Qed.
Section Parts.
Context `{H : Host}.

Lemma decryptCek_trace p (encrypted_cek : list Z) this :
  no_decrypt (trace (decryptCek p encrypted_cek this)).
Proof.
  unfold decryptCek, bind, get_this, lift, then_, call_unwrapKey.
  destruct (Utils.getCekWorkaround _); try reflexivity.
  destruct p; try reflexivity. simpl.
  destruct (subtle_unwrapKey _ _ _ _ _ _); reflexivity.
Qed.

Lemma silent_lift {A} (o : outcome A) : silent (lift o).
Proof. now intros this. Qed.
Lemma silent_ret {A} (a : A) : silent (ret a).
Proof. now intros this. Qed.
Lemma silent_reject {A} msg : silent (@reject _ A msg).
Proof. now intros this. Qed.
Lemma silent_get_this : silent get_this.
Proof. now intros this. Qed.
Lemma silent_set_this this' : silent (set_this this').
Proof. now intros this. Qed.
Lemma silent_if {A} (b : bool) (m1 m2 : M A) :
  silent m1 -> silent m2 -> silent (if b then m1 else m2).
Proof. now destruct b. Qed.
Lemma silent_bind {A B} (m : M A) (k : A -> M B) :
  silent m -> (forall a, silent (k a)) -> silent (bind m k).
Proof.
  intros Hm Hk this. rewrite trace_bind, Hm.
  destruct (result (m this)); [apply Hk | reflexivity | reflexivity].
Qed.

#[local] Hint Resolve silent_lift silent_ret silent_reject silent_get_this silent_set_this
  silent_if silent_bind : frame.

Lemma read_header_silent h : silent (read_header h).
Proof.
  unfold read_header, set_key_encryption, set_content_encryption. auto 30 with frame.
Qed.

Lemma bind_lift_unfold {A B} (o : outcome A) (k : A -> M B) this :
  bind (lift o) k this =
  match o with
  | Resolved a => k a this
  | Rejected e => (Rejected e, this, [])
  | Thrown e => (Thrown e, this, [])
  end.
Proof. destruct o; [apply bind_lift | reflexivity | reflexivity]. Qed.

Lemma bind_promise_unfold {A B} (m : M A) (k : outcome A -> M B) this :
  bind (promise_of m) k this =
  match result (m this) with
  | Thrown e => (Thrown e, final_this (m this), trace (m this))
  | o => (result (k o (final_this (m this))), final_this (k o (final_this (m this))),
          trace (m this) ++ trace (k o (final_this (m this))))
  end.
Proof.
  unfold bind, promise_of, result, final_this, trace.
  destruct (m this) as [[[a|e|e] this1] t1]; simpl; try reflexivity.
  - now destruct (k (Resolved a) this1) as [[o s] t].
  - now destruct (k (Rejected e) this1) as [[o s] t].
Qed.

(** Part 3 of [decrypt], from the decoding of the IV on. *)
Lemma part3_cases cek_promise h ivs cs ts this :
  let r :=
    bind (lift (Utils.Base64Url.decodeArray ivs)) (fun iv =>
    bind (lift (Utils.Base64Url.decodeArray cs)) (fun cipher =>
    bind (lift (Utils.Base64Url.decodeArray ts)) (fun tag =>
    bind (promise_of
            (decryptCiphertext cek_promise (Utils.arrayFromString h) iv cipher tag))
         (fun plain_text_promise =>
    then_ plain_text_promise (fun arr => ret (Utils.stringFromArray arr)))))) this in
  (is_failure (result r) /\ trace r = [])
  \/ exists iv cipher tag,
       Utils.Base64Url.decodeArray ivs = Resolved iv
       /\ Utils.Base64Url.decodeArray cs = Resolved cipher
       /\ Utils.Base64Url.decodeArray ts = Resolved tag
       /\ let rd := decryptCiphertext cek_promise (Utils.arrayFromString h) iv cipher tag this in
          trace r = trace rd
          /\ result r =
             match result rd with
             | Resolved arr => Resolved (Utils.stringFromArray arr)
             | Rejected e => Rejected e
             | Thrown e => Thrown e
             end.
Proof.
  cbv zeta.
  rewrite bind_lift_unfold.
  destruct (Utils.Base64Url.decodeArray ivs) as [iv|e|e];
    [| left; split; [exact I | reflexivity]..].
  rewrite bind_lift_unfold.
  destruct (Utils.Base64Url.decodeArray cs) as [cipher|e|e];
    [| left; split; [exact I | reflexivity]..].
  rewrite bind_lift_unfold.
  destruct (Utils.Base64Url.decodeArray ts) as [tag|e|e];
    [| left; split; [exact I | reflexivity]..].
  right. exists iv, cipher, tag. repeat (split; [reflexivity|]).
  rewrite bind_promise_unfold.
  destruct (result (decryptCiphertext _ _ _ _ _ _)); simpl; rewrite ?app_nil_r;
    split; reflexivity.
Qed.

(** How parts 2 and 3 end: either a segment does not decode or the key
    promise cannot be set up, or the result is that of
    [decryptCiphertext] on the decoded segments. *)
Lemma decrypt_parts_cases key_promise h ek ivs cs ts this :
  let r := decrypt_parts key_promise h ek ivs cs ts this in
  (is_failure (result r) /\ no_decrypt (trace r))
  \/ exists encrypted_cek iv cipher tag,
       Utils.Base64Url.decodeArray ek = Resolved encrypted_cek
       /\ Utils.Base64Url.decodeArray ivs = Resolved iv
       /\ Utils.Base64Url.decodeArray cs = Resolved cipher
       /\ Utils.Base64Url.decodeArray ts = Resolved tag
       /\ let rc := decryptCek key_promise encrypted_cek this in
          let rd := decryptCiphertext (result rc) (Utils.arrayFromString h) iv cipher tag this in
          trace r = trace rc ++ trace rd
          /\ result r =
             match result rd with
             | Resolved arr => Resolved (Utils.stringFromArray arr)
             | Rejected e => Rejected e
             | Thrown e => Thrown e
             end.
Proof.
  cbv zeta. unfold decrypt_parts.
  rewrite bind_lift_unfold.
  destruct (Utils.Base64Url.decodeArray ek) as [encrypted_cek|e|e];
    [| left; split; [exact I | reflexivity]..].
  rewrite bind_promise_unfold, (preserves_decryptCek key_promise encrypted_cek this).
  pose proof (decryptCek_trace key_promise encrypted_cek this) as Htc.
  pose proof (part3_cases (result (decryptCek key_promise encrypted_cek this)) h ivs cs ts this)
    as Hp. cbv zeta in Hp.
  destruct (result (decryptCek key_promise encrypted_cek this)) as [cek|e|e] eqn:Ec.
  3:{ left. split; [exact I | exact Htc]. }
  all: destruct Hp as [[Hf Ht]|(iv & cipher & tag & Hiv & Hcs & Hts & Ht & Hr)];
    [ left; split; [exact Hf |];
      rewrite trace_triple, Ht, app_nil_r; exact Htc
    | right; exists encrypted_cek, iv, cipher, tag; rewrite ?Ec;
      repeat (split; [assumption || reflexivity|]);
      split; [rewrite trace_triple; f_equal; exact Ht | exact Hr] ].
Qed.

(** Parts 2 and 3 when the four segments decode. *)
Lemma decrypt_parts_run key_promise h ek ivs cs ts this
    (encrypted_cek iv cipher tag : list Z) :
  Utils.Base64Url.decodeArray ek = Resolved encrypted_cek ->
  Utils.Base64Url.decodeArray ivs = Resolved iv ->
  Utils.Base64Url.decodeArray cs = Resolved cipher ->
  Utils.Base64Url.decodeArray ts = Resolved tag ->
  decrypt_parts key_promise h ek ivs cs ts this =
  let rc := decryptCek key_promise encrypted_cek this in
  let rd p := decryptCiphertext p (Utils.arrayFromString h) iv cipher tag this in
  let finish p :=
    (match result (rd p) with
     | Resolved arr => Resolved (Utils.stringFromArray arr)
     | Rejected e => Rejected e
     | Thrown e => Thrown e
     end, this, trace rc ++ trace (rd p)) in
  match result rc with
  | Resolved cek => finish (Resolved cek)
  | Rejected e => finish (Rejected e)
  | Thrown e => (Thrown e, this, trace rc)
  end.
Proof.
  intros Hek Hiv Hcs Hts. cbv zeta. unfold decrypt_parts.
  rewrite Hek, bind_lift, bind_promise_unfold, (preserves_decryptCek key_promise _ this).
  destruct (result (decryptCek key_promise encrypted_cek this)) as [cek|e|e];
    [| |reflexivity].
  all: cbv beta zeta.
  all: rewrite Hiv, !bind_lift, Hcs, !bind_lift, Hts, !bind_lift, !bind_promise_unfold.
  all: rewrite !preserves_decryptCiphertext.
  all: destruct (result (decryptCiphertext _ _ _ _ _ _)); simpl; rewrite ?app_nil_r;
    reflexivity.
Qed.

Lemma decrypt_header_ok key_promise this jwe h ek ivs cs ts this2 t0 :
  Utils.split "." jwe = [h; ek; ivs; cs; ts] ->
  read_header h this = (Resolved tt, this2, t0) ->
  decrypt key_promise jwe this = decrypt_parts key_promise h ek ivs cs ts this2.
Proof.
  intros Hs Hh. rewrite (decrypt_halves _ _ _ _ _ _ _ _ Hs).
  pose proof (read_header_silent h this) as Ht. rewrite Hh in Ht.
  unfold trace in Ht. simpl in Ht. subst t0.
  exact (bind_resolved (read_header h) (fun _ => decrypt_parts key_promise h ek ivs cs ts)
           this tt this2 Hh).
Qed.

Lemma decrypt_header_failed key_promise this jwe h ek ivs cs ts :
  Utils.split "." jwe = [h; ek; ivs; cs; ts] ->
  is_failure (result (read_header h this)) ->
  is_failure (result (decrypt key_promise jwe this))
  /\ trace (decrypt key_promise jwe this) = [].
Proof.
  intros Hs Hf. rewrite (decrypt_halves _ _ _ _ _ _ _ _ Hs).
  rewrite result_bind, trace_bind.
  destruct (result (read_header h this)); [contradiction| |];
    (split; [exact I | apply read_header_silent]).
Qed.

(** A run of [decrypt] on five segments fails without asking for
    plaintext, or is a run of [decryptCiphertext] on the decoded segments
    in the instance the header has configured. *)
Lemma decrypt_cases key_promise this jwe h ek ivs cs ts :
  Utils.split "." jwe = [h; ek; ivs; cs; ts] ->
  let r := decrypt key_promise jwe this in
  (is_failure (result r) /\ no_decrypt (trace r))
  \/ exists encrypted_cek iv cipher tag,
       Utils.Base64Url.decodeArray ek = Resolved encrypted_cek
       /\ Utils.Base64Url.decodeArray ivs = Resolved iv
       /\ Utils.Base64Url.decodeArray cs = Resolved cipher
       /\ Utils.Base64Url.decodeArray ts = Resolved tag
       /\ read_header h this = (Resolved tt, final_this r, [])
       /\ let rc := decryptCek key_promise encrypted_cek (final_this r) in
          let rd := decryptCiphertext (result rc) (Utils.arrayFromString h) iv cipher tag
                      (final_this r) in
          trace r = trace rc ++ trace rd
          /\ result r =
             match result rd with
             | Resolved arr => Resolved (Utils.stringFromArray arr)
             | Rejected e => Rejected e
             | Thrown e => Thrown e
             end.
Proof.
  intros Hs. cbv zeta.
  destruct (read_header h this) as [[[[]|e|e] this2] t0] eqn:Hh.
  2,3: left; destruct (decrypt_header_failed key_promise this jwe h ek ivs cs ts Hs)
         as [Hf Ht]; [now rewrite Hh | split; [exact Hf | now rewrite Ht]].
  rewrite (decrypt_header_ok _ _ _ _ _ _ _ _ _ _ Hs Hh).
  rewrite (preserves_decrypt_parts key_promise h ek ivs cs ts this2).
  pose proof (read_header_silent h this) as Ht. rewrite Hh in Ht.
  unfold trace in Ht. simpl in Ht. subst t0.
  destruct (decrypt_parts_cases key_promise h ek ivs cs ts this2)
    as [Hf|(encrypted_cek & iv & cipher & tag & Hek & Hiv & Hcs & Hts & Ht & Hr)].
  - now left.
  - right. exists encrypted_cek, iv, cipher, tag.
    repeat split; first [assumption | reflexivity].
Qed.

End Parts.
Section Claims.
Context `{H : Host}.

Lemma decryptCiphertext_invalid_IV this cek_promise (aad iv cipher_text tag : list Z) :
  Some (Z.of_nat (length iv)) <> iv_bytes (content_encryption this) ->
  decryptCiphertext cek_promise aad iv cipher_text tag this = (Rejected invalid_IV, this, []).
Proof.
  intros Hne. unfold decryptCiphertext.
  rewrite (bind_resolved get_this _ this this this) by reflexivity.
  assert (E : differs (Z.of_nat (length iv)) (iv_bytes (content_encryption this)) = true).
  { unfold differs. destruct (iv_bytes (content_encryption this)) as [n|]; [|reflexivity].
    destruct (Z.eqb_spec (Z.of_nat (length iv)) n) as [E|_]; [|reflexivity].
    contradict Hne. now f_equal. }
  now rewrite E.
Qed.

Lemma compare_lengths (arr1 arr2 : list Z) :
  length arr1 <> length arr2 -> Utils.compare arr1 arr2 = false.
Proof. intros Hne. apply compare_false_iff. now intros ->. Qed.

Section Composite.
Variables (this : JoseJWE) (hmac : AlgorithmIdentifier) (a : AuthConfig) (kb bits : Z).
Let config := content_encryption this.
Hypothesis Ha : auth config = Some a.
Hypothesis Hae : aead a = false.
Hypothesis Hi : auth_id a = Some hmac.
Hypothesis Hk : key_bytes a = Some kb.
Hypothesis Hn : truncated_bytes a = Some kb.
Hypothesis Hb : alg_length (cfg_id config) = Some bits.
Hypothesis Hiv : iv_bytes config = Some 16.
Hypothesis Hpos : 0 < kb.
Variables (cek_promise : outcome CryptoKey) (aad iv cipher_text tag : list Z).

Let run := decryptCiphertext cek_promise aad iv cipher_text tag this.
Let input := aad ++ iv ++ cipher_text ++ length_block aad.

Ltac stages :=
  unfold run;
  rewrite (decryptCiphertext_composite this cek_promise aad iv cipher_text tag hmac a kb bits)
    by assumption;
  cbv zeta; fold config; fold input;
  repeat case_match; simplify_eq; simpl.

Lemma composite_signed_mismatch mac_key signature :
  In (Sign hmac mac_key input) (trace run) ->
  subtle_sign hmac mac_key input = Resolved signature ->
  Utils.compare (take (Z.to_nat kb) signature) tag = false ->
  is_failure (result run) /\ no_decrypt (trace run).
Proof.
  stages; intros Hin Hs Hc; try (split; [exact I | reflexivity]).
  exfalso. destruct Hin as [|[|[|[Hin|[|[]]]]]]; try discriminate.
  injection Hin as ->. congruence.
Qed.

Lemma composite_wrong_length :
  (forall key data signature,
     subtle_sign hmac key data = Resolved signature -> kb <= Z.of_nat (length signature)) ->
  Z.of_nat (length tag) <> kb ->
  is_failure (result run) /\ no_decrypt (trace run).
Proof.
  intros Hsig Hlen. stages; try (split; [exact I | reflexivity]).
  exfalso.
  match goal with
  | Hs : subtle_sign _ _ _ = Resolved ?s, Hc : Utils.compare _ _ = true |- _ =>
      apply Hsig in Hs; apply compare_true_iff in Hc; apply (f_equal length) in Hc;
      rewrite length_take in Hc; lia
  end.
Qed.

End Composite.
End Claims.

(** ** MAC verification before decryption *)

Section TamperedTag.
Context `{H : Host}.

(** [decrypt] depends on a segment through its decoding only. *)
Lemma decrypt_tampered_tag key_promise this jwe jwe' h ek ivs cs ts ts' plain :
  Utils.split "." jwe = [h; ek; ivs; cs; ts] ->
  Utils.split "." jwe' = [h; ek; ivs; cs; ts'] ->
  result (decrypt key_promise jwe this) = Resolved plain ->
  composite (content_encryption (final_this (decrypt key_promise jwe this))) ->
  Utils.Base64Url.decodeArray ts' <> Utils.Base64Url.decodeArray ts ->
  is_failure (result (decrypt key_promise jwe' this))
  /\ no_decrypt (trace (decrypt key_promise jwe' this))
  /\ forall tag', Utils.Base64Url.decodeArray ts' = Resolved tag' ->
       result (decrypt key_promise jwe' this) = Rejected MAC_failed.
Proof.
  intros Hs Hs' Hr Hc Hne.
  destruct (decrypt_cases key_promise this jwe h ek ivs cs ts Hs)
    as [[Hf _]|(encrypted_cek & iv & cipher & tag & Hek & Hiv & Hcs & Hts & Hh & _)].
  { rewrite Hr in Hf. contradiction. }
  set (this2 := final_this (decrypt key_promise jwe this)) in *.
  rewrite (decrypt_header_ok _ _ _ _ _ _ _ _ _ _ Hs Hh) in Hr.
  rewrite (decrypt_header_ok _ _ _ _ _ _ _ _ _ _ Hs' Hh).
  rewrite (decrypt_parts_run _ _ _ _ _ _ _ _ _ _ _ Hek Hiv Hcs Hts) in Hr. cbv zeta in Hr.
  destruct (composite_members _ Hc)
    as (hmac & a & kb & bits & Ha & Hae & Hi & Hk & Hn & Hb & _ & Hv & Hpos & _).
  pose proof (decryptCek_trace key_promise encrypted_cek this2) as Htc.
  destruct (Utils.Base64Url.decodeArray ts') as [tag'|e|e] eqn:Hts'.
  - assert (Htag : tag' <> tag) by (intros ->; now rewrite Hts in Hne).
    rewrite (decrypt_parts_run _ _ _ _ _ _ _ _ _ _ _ Hek Hiv Hcs Hts'). cbv zeta.
    destruct (result (decryptCek key_promise encrypted_cek this2)) as [k|e|e];
      [| |discriminate Hr].
    all: match type of Hr with
         | result (match result ?rd with _ => _ end, _, _) = _ =>
             destruct (result rd) as [arr|e'|e'] eqn:Hrd; try discriminate Hr
         end.
    all: destruct (composite_tampered this2 hmac a kb bits Ha Hae Hi Hk Hn Hb Hv Hpos
                     _ _ _ _ tag tag' arr Hrd Htag) as [Hres Htr].
    all: rewrite Hres.
    all: split; [exact I | split; [| intros ? _; reflexivity]].
    all: rewrite trace_triple; apply no_decrypt_app; assumption.
  - destruct (decrypt_parts_cases key_promise h ek ivs cs ts' this2)
      as [[Hf Ht]|(? & ? & ? & ? & _ & _ & _ & Hx & _)]; [|congruence].
    repeat split; try assumption. discriminate.
  - destruct (decrypt_parts_cases key_promise h ek ivs cs ts' this2)
      as [[Hf Ht]|(? & ? & ? & ? & _ & _ & _ & Hx & _)]; [|congruence].
    repeat split; try assumption. discriminate.
Qed.

(** Two inputs whose segments decode alike are decrypted alike. *)
Lemma decrypt_same_decoding key_promise this jwe jwe' h ek ivs cs ts ts' :
  Utils.split "." jwe = [h; ek; ivs; cs; ts] ->
  Utils.split "." jwe' = [h; ek; ivs; cs; ts'] ->
  Utils.Base64Url.decodeArray ts' = Utils.Base64Url.decodeArray ts ->
  decrypt key_promise jwe' this = decrypt key_promise jwe this.
Proof.
  intros Hs Hs' E.
  rewrite (decrypt_halves _ _ _ _ _ _ _ _ Hs), (decrypt_halves _ _ _ _ _ _ _ _ Hs').
  apply bind_ext. intros _ this2. unfold decrypt_parts.
  do 4 (apply bind_ext; intros ? ?). now rewrite E.
Qed.

End TamperedTag.

(** C1, as the code has it.  In a composite suite [decryptCiphertext]
    signs [aad ‖ iv ‖ ciphertext ‖ AL], truncates the signature and
    compares it with the tag by [compare] before any call to
    [crypto.subtle.decrypt]: such a call is the last of the trace, right
    after the signature, and is made only if the comparison succeeds;
    plaintext comes from that call only.  When every provider call before
    the comparison succeeds and the comparison fails, the result is the
    rejection "decryptCiphertext: MAC failed." and no decrypt call is made.
    Through [decrypt]: if a serialization decrypts, every serialization
    that differs from it in the tag segment only, and whose tag segment
    does not decode to the same bytes, fails without any decrypt call. *)
Theorem decryptCiphertext_verifies_mac_first `{H : Host} :
  (forall (this : JoseJWE) (cek_promise : outcome CryptoKey)
          (aad iv cipher_text tag : list Z),
     composite (content_encryption this) ->
     exists (hmac : AlgorithmIdentifier) (n : Z),
       let config := content_encryption this in
       let run := decryptCiphertext cek_promise aad iv cipher_text tag this in
       let input := aad ++ iv ++ cipher_text ++ length_block aad in
       auth config ≫= auth_id = Some hmac
       /\ auth config ≫= key_bytes = Some n
       /\ auth config ≫= truncated_bytes = Some n
       /\ (forall params key data,
             In (Decrypt params key data) (trace run) ->
             exists mac_key signature pre,
               trace run = pre ++ [Sign hmac mac_key input; Decrypt params key data]
               /\ no_decrypt pre
               /\ subtle_sign hmac mac_key input = Resolved signature
               /\ Utils.compare (take (Z.to_nat n) signature) tag = true
               /\ data = cipher_text /\ cp_iv params = iv
               /\ cp_name params = alg_name (cfg_id config))
       /\ (forall plain,
             result run = Resolved plain ->
             exists params key,
               In (Decrypt params key cipher_text) (trace run)
               /\ subtle_decrypt params key cipher_text = Resolved plain)
       /\ (forall mac_key signature,
             In (Sign hmac mac_key input) (trace run) ->
             subtle_sign hmac mac_key input = Resolved signature ->
             Utils.compare (take (Z.to_nat n) signature) tag = false ->
             is_failure (result run) /\ no_decrypt (trace run))
       /\ (forall cek cek_bytes mac_key enc_key signature,
             Some (Z.of_nat (length iv)) = iv_bytes config ->
             cek_promise = Resolved cek ->
             subtle_exportKey cek = Resolved cek_bytes ->
             Some (Z.of_nat (length cek_bytes)) = specific_cek_bytes config ->
             subtle_importKey (take (Z.to_nat n) cek_bytes) hmac false ["sign"]
               = Resolved mac_key ->
             subtle_importKey (drop (Z.to_nat n) cek_bytes) (cfg_id config) false ["decrypt"]
               = Resolved enc_key ->
             subtle_sign hmac mac_key input = Resolved signature ->
             Utils.compare (take (Z.to_nat n) signature) tag = false ->
             run =
             (Rejected (Reason "decryptCiphertext: MAC failed."), this,
              [ExportKey cek;
               ImportKey (take (Z.to_nat n) cek_bytes) hmac false ["sign"];
               ImportKey (drop (Z.to_nat n) cek_bytes) (cfg_id config) false ["decrypt"];
               Sign hmac mac_key input])))
  /\ (forall (key_promise : outcome CryptoKey) (this : JoseJWE)
             (jwe jwe' h ek ivs cs ts ts' plain : string),
        Utils.split "." jwe = [h; ek; ivs; cs; ts] ->
        Utils.split "." jwe' = [h; ek; ivs; cs; ts'] ->
        result (decrypt key_promise jwe this) = Resolved plain ->
        composite (content_encryption (final_this (decrypt key_promise jwe this))) ->
        Utils.Base64Url.decodeArray ts' <> Utils.Base64Url.decodeArray ts ->
        is_failure (result (decrypt key_promise jwe' this))
        /\ no_decrypt (trace (decrypt key_promise jwe' this))
        /\ forall tag', Utils.Base64Url.decodeArray ts' = Resolved tag' ->
             result (decrypt key_promise jwe' this)
             = Rejected (Reason "decryptCiphertext: MAC failed.")).
Proof.
  split.
  - intros this cek_promise aad iv cipher_text tag Hc.
    destruct (composite_members _ Hc)
      as (hmac & a & kb & bits & Ha & Hae & Hi & Hk & Hn & Hb & Hs & Hv & Hpos & Hbits & _).
    exists hmac, kb. cbv zeta. rewrite Ha. cbn [mbind option_bind].
    repeat (split; [assumption|]).
    split; [|split; [|split]].
    + intros params key data.
      apply (composite_decrypt_after_mac this hmac a kb bits Ha Hae Hi Hk Hn Hb Hv Hpos).
    + intros plain.
      apply (composite_plaintext this hmac a kb bits Ha Hae Hi Hk Hn Hb Hv Hpos).
    + intros mac_key signature.
      apply (composite_signed_mismatch this hmac a kb bits Ha Hae Hi Hk Hn Hb Hv Hpos).
    + intros cek cek_bytes mac_key enc_key signature Hl Hp He Hlen.
      apply (composite_mismatch this hmac a kb bits Ha Hae Hi Hk Hn Hb Hv Hpos); auto.
      * rewrite Hv in Hl. now injection Hl.
      * rewrite Hs in Hlen. injection Hlen as Hlen. subst bits.
        rewrite Z.div_mul in Hlen by lia. lia.
  - intros key_promise this jwe jwe' h ek ivs cs ts ts' plain.
    apply decrypt_tampered_tag.
Qed.

(** ** RSA key normalisation *)

Section ConvertRsaKey.
Import Utils.

Lemma member_insert (k : gmap string value) (p q : string) (v : value) :
  member (<[q := v]> k) p = if decide (q = p) then v else member k p.
Proof. unfold member. rewrite lookup_insert. now case_decide. Qed.

Lemma loop_ext (k1 k2 : gmap string value) (ps : list string) :
  (forall p, convertRsaKey_value p (member k1 p) = convertRsaKey_value p (member k2 p)) ->
  forall r, convertRsaKey_loop k1 ps r = convertRsaKey_loop k2 ps r.
Proof.
  intros E. induction ps as [|p ps IH]; intros r; simpl; [reflexivity|].
  rewrite E. destruct (convertRsaKey_value p (member k2 p)); simpl; auto.
Qed.

Lemma loop_lookup (k : gmap string value) (ps : list string) :
  forall (r0 r : gmap string value) (p : string),
    convertRsaKey_loop k ps r0 = Resolved r ->
    (p ∈ ps -> exists v, convertRsaKey_value p (member k p) = Resolved v /\ r !! p = Some v)
    /\ (p ∉ ps -> r !! p = r0 !! p).
Proof.
  induction ps as [|q ps IH]; intros r0 r p Hr; simpl in Hr.
  - injection Hr as <-. split; [intros Hin; inversion Hin | reflexivity].
  - destruct (convertRsaKey_value q (member k q)) as [v|e|e] eqn:Hv; try discriminate.
    simpl in Hr. destruct (IH _ _ p Hr) as [IHin IHout].
    destruct (decide (p ∈ ps)) as [Hin|Hin].
    + split; [intros _; now apply IHin | intros Hn; contradict Hn; now right].
    + split.
      * intros Hp. apply elem_of_cons in Hp as [->|?]; [|contradiction].
        exists v. split; [assumption|]. rewrite IHout by assumption. apply lookup_insert_eq.
      * intros Hn. apply not_elem_of_cons in Hn as [Hne _].
        rewrite IHout by assumption. now apply lookup_insert_ne.
Qed.

(** Two keys that give every parameter the same converted value and the
    same [kty] and [alg] are converted alike. *)
Lemma convertRsaKey_ext (k1 k2 : gmap string value) (ps : list string) :
  (forall p, convertRsaKey_value p (member k1 p) = convertRsaKey_value p (member k2 p)) ->
  (forall p, is_undefined (member k1 p) = is_undefined (member k2 p)) ->
  member k1 "kty" = member k2 "kty" -> member k1 "alg" = member k2 "alg" ->
  convertRsaKey k1 ps = convertRsaKey k2 ps.
Proof.
  intros Ev Eu Ek Ea. unfold convertRsaKey.
  rewrite (List.filter_ext _ (fun p => is_undefined (member k2 p)) Eu), Ek, Ea.
  cbv zeta.
  repeat match goal with
         | |- obind ?o _ = obind ?o _ => destruct o; simpl; try reflexivity
         end.
  apply loop_ext, Ev.
Qed.

Lemma convertRsaKey_member_e (k : gmap string value) (ps : list string) (v v' : value) r :
  convertRsaKey (<["e" := v]> k) ps = Resolved r ->
  convertRsaKey_value "e" v = Resolved v' ->
  In "e" ps -> r !! "e" = Some v'.
Proof.
  unfold convertRsaKey. cbv zeta. intros Hr Hv Hin.
  repeat match type of Hr with
         | obind ?o _ = _ => destruct o; simpl in Hr; try discriminate Hr
         end.
  destruct (loop_lookup _ _ _ _ "e" Hr) as [Hl _].
  destruct (Hl ltac:(now apply list_elem_of_In)) as (w & Hw & ->).
  rewrite member_insert in Hw.
  rewrite decide_True in Hw by reflexivity. congruence.
Qed.

End ConvertRsaKey.

(** C4, as the code has it.  Keys that differ only in giving [e] as the
    number 65537 or as the string "AQAB" are normalised alike, with [e]
    equal to "AQAB".  The colon-delimited form is converted for every
    parameter but [e]: "01:00:01" given for another parameter becomes
    "AQAB", given for [e] it is copied as it is. *)
Theorem convertRsaKey_exponent_shapes (rsa_key : gmap string value)
    (parameters : list string) :
  Utils.convertRsaKey (<["e" := VNumber 65537]> rsa_key) parameters
  = Utils.convertRsaKey (<["e" := VString "AQAB"]> rsa_key) parameters
  /\ (forall r, In "e" parameters ->
        Utils.convertRsaKey (<["e" := VNumber 65537]> rsa_key) parameters = Resolved r ->
        r !! "e" = Some (VString "AQAB"))
  /\ (forall r, In "e" parameters ->
        Utils.convertRsaKey (<["e" := VString "01:00:01"]> rsa_key) parameters = Resolved r ->
        r !! "e" = Some (VString "01:00:01"))
  /\ (forall p, p <> "e" ->
        Utils.convertRsaKey_value p (VString "01:00:01") = Resolved (VString "AQAB")).
Proof.
  split; [|split; [|split]].
  - apply convertRsaKey_ext.
    + intros p. rewrite !member_insert. case_decide; [subst p|]; reflexivity.
    + intros p. rewrite !member_insert. case_decide; reflexivity.
    + now rewrite !member_insert.
    + now rewrite !member_insert.
  - intros r Hin Hr. now apply (convertRsaKey_member_e _ _ _ (VString "AQAB") _ Hr).
  - intros r Hin Hr. now apply (convertRsaKey_member_e _ _ _ (VString "01:00:01") _ Hr).
  - intros p Hp. unfold Utils.convertRsaKey_value.
    destruct (String.eqb_spec p "e") as [->|_]; [contradiction|]. reflexivity.
Qed.

Lemma convertRsaKey_exponent_shapes_witness :
  In "e" ["n"; "e"]
  /\ exponent_of (Utils.convertRsaKey (<["e" := VNumber 65537]> {["n" := VString "wQ"]})
                    ["n"; "e"])
     = Some (VString "AQAB")
  /\ Utils.convertRsaKey (<["e" := VNumber 65537]> {["n" := VString "wQ"]}) ["n"; "e"]
     = Utils.convertRsaKey (<["e" := VString "AQAB"]> {["n" := VString "wQ"]}) ["n"; "e"]
  /\ "n" <> "e"
  /\ Utils.convertRsaKey_value "n" (VString "01:00:01") = Resolved (VString "AQAB").
Proof.
  destruct (convertRsaKey_exponent_shapes {["n" := VString "wQ"]} ["n"; "e"])
    as (Heq & Hint & _ & Hhex).
  assert (Hin : In "e" ["n"; "e"]) by (right; left; reflexivity).
  assert (Hne : "n" <> "e") by discriminate.
  split; [exact Hin|]. split; [|split; [exact Heq | split; [exact Hne | exact (Hhex "n" Hne)]]].
  destruct (Utils.convertRsaKey (<["e" := VNumber 65537]> {["n" := VString "wQ"]}) ["n"; "e"])
    as [r|e|e] eqn:E; [| vm_compute in E; discriminate E ..].
  exact (Hint r Hin eq_refl).
Defined.

(** The colon-delimited form of the exponent is not normalised: the three
    shapes of [e] do not give the same key. *)
Lemma exponent_colon_hex_not_converted :
  exponent_of (Utils.convertRsaKey (<["e" := VString "01:00:01"]> {["n" := VString "wQ"]})
                 ["n"; "e"])
  = Some (VString "01:00:01")
  /\ exponent_of (Utils.convertRsaKey (<["e" := VNumber 65537]> {["n" := VString "wQ"]})
                    ["n"; "e"])
     = Some (VString "AQAB")
  /\ exponent_of (Utils.convertRsaKey (<["e" := VString "AQAB"]> {["n" := VString "wQ"]})
                    ["n"; "e"])
     = Some (VString "AQAB")
  /\ Utils.convertRsaKey (<["e" := VString "01:00:01"]> {["n" := VString "wQ"]}) ["n"; "e"]
     <> Utils.convertRsaKey (<["e" := VNumber 65537]> {["n" := VString "wQ"]}) ["n"; "e"].
Proof.
  repeat split; try (vm_compute; reflexivity).
  intros E. apply (f_equal exponent_of) in E. vm_compute in E. discriminate E.
Qed.

(** ** Runs of [decrypt] up to [decryptCiphertext] *)

Section DecryptRuns.
Context `{H : Host}.

Lemma decryptCek_run this key_promise (encrypted_cek : list Z) hack :
  Utils.getCekWorkaround (content_encryption this) = Resolved hack ->
  let extractable :=
    match specific_cek_bytes (content_encryption this) with
    | Some n => 0 <? n
    | None => false
    end in
  decryptCek key_promise encrypted_cek this =
  match key_promise with
  | Resolved key =>
      (settled (subtle_unwrapKey encrypted_cek key (cfg_id (key_encryption this))
                  (Utils.hack_id hack) extractable (Utils.dec_op hack)),
       this,
       [UnwrapKey encrypted_cek key (cfg_id (key_encryption this))
          (Utils.hack_id hack) extractable (Utils.dec_op hack)])
  | Rejected e | Thrown e => (Rejected e, this, [])
  end.
Proof.
  intros Hh. cbv zeta. unfold decryptCek, bind, get_this, lift. rewrite Hh. simpl.
  destruct key_promise as [key|e|e]; try reflexivity.
  unfold then_, call_unwrapKey. destruct (subtle_unwrapKey _ _ _ _ _ _); reflexivity.
Qed.

Lemma header_accepted h this json header (a e : string) crit :
  Utils.Base64Url.decode h = Resolved json ->
  JSON_parse json = Resolved header ->
  get header "alg" = Resolved (VString a) ->
  get header "enc" = Resolved (VString e) ->
  get header "crit" = Resolved crit -> truthy crit = false ->
  In a recognized -> In e recognized ->
  exists ka ca,
    getCryptoConfig_string a = Some ka /\ getCryptoConfig_string e = Some ca
    /\ read_header h this
       = (Resolved tt, {| key_encryption := ka; content_encryption := ca |}, []).
Proof.
  intros Hd Hp Ha He Hc Ht Hia Hie.
  destruct (recognized_config a Hia) as (ka & Hka & Hta).
  destruct (recognized_config e Hie) as (ca & Hca & Hte).
  destruct (read_header_selects h this json header a e ka ca Hd Hp Ha He Hka Hta Hca Hte)
    as (crit' & Hc' & Hr).
  assert (crit' = crit) by congruence. subst crit'. rewrite Ht in Hr.
  exists ka, ca. split; [|split; [|exact Hr]].
  - simpl in Hka. destruct (getCryptoConfig_string a); congruence.
  - simpl in Hca. destruct (getCryptoConfig_string e); congruence.
Qed.

Lemma getCekWorkaround_recognized (e : string) ca :
  getCryptoConfig_string e = Some ca -> exists hack, Utils.getCekWorkaround ca = Resolved hack.
Proof.
  intros He.
  assert (Hin : In e recognized) by (apply getCryptoConfig_recognized; rewrite He; now eexists).
  unfold recognized in Hin. simpl in Hin.
  destruct Hin as [<-|[<-|[<-|[<-|[<-|[<-|[<-|[<-|[]]]]]]]]];
    vm_compute in He; injection He as <-; eexists; reflexivity.
Qed.

(** [decrypt] on five segments that decode, under an accepted header,
    when the IV has not the length of the suite. *)
Lemma decrypt_invalid_IV key_promise this jwe h ek ivs cs ts json header (a e : string) crit
    (encrypted_cek iv cipher tag : list Z) :
  Utils.split "." jwe = [h; ek; ivs; cs; ts] ->
  Utils.Base64Url.decode h = Resolved json ->
  JSON_parse json = Resolved header ->
  get header "alg" = Resolved (VString a) ->
  get header "enc" = Resolved (VString e) ->
  get header "crit" = Resolved crit -> truthy crit = false ->
  In a recognized -> In e recognized ->
  Utils.Base64Url.decodeArray ek = Resolved encrypted_cek ->
  Utils.Base64Url.decodeArray ivs = Resolved iv ->
  Utils.Base64Url.decodeArray cs = Resolved cipher ->
  Utils.Base64Url.decodeArray ts = Resolved tag ->
  let r := decrypt key_promise jwe this in
  Some (Z.of_nat (length iv)) <> iv_bytes (content_encryption (final_this r)) ->
  result r = Rejected invalid_IV
  /\ trace r = trace (decryptCek key_promise encrypted_cek (final_this r))
  /\ match key_promise with
     | Resolved key =>
         exists inner extractable usages,
           trace r = [UnwrapKey encrypted_cek key (cfg_id (key_encryption (final_this r)))
                        inner extractable usages]
     | Rejected _ | Thrown _ => trace r = []
     end.
Proof.
  intros Hs Hd Hp Ha He Hc Ht Hia Hie Hek Hiv Hcs Hts.
  destruct (header_accepted h this json header a e crit Hd Hp Ha He Hc Ht Hia Hie)
    as (ka & ca & Hka & Hca & Hr).
  set (this2 := {| key_encryption := ka; content_encryption := ca |}) in *.
  destruct (getCekWorkaround_recognized e ca Hca) as [hack Hh].
  cbv zeta.
  rewrite (decrypt_header_ok key_promise this jwe h ek ivs cs ts this2 [] Hs Hr).
  rewrite (decrypt_parts_run key_promise h ek ivs cs ts this2 _ _ _ _ Hek Hiv Hcs Hts).
  cbv zeta.
  pose proof (decryptCek_run this2 key_promise encrypted_cek hack Hh) as Hrun.
  cbv zeta in Hrun.
  destruct key_promise as [key|err|err]; rewrite Hrun; unfold result at 1; cbn [fst].
  1: destruct (subtle_unwrapKey _ _ _ _ _ _) as [cek|err|err]; cbn [settled].
  all: unfold final_this, result, trace; cbn [fst snd]; intros Hne.
  all: rewrite (decryptCiphertext_invalid_IV this2 _ _ _ _ _ Hne); cbn [fst snd].
  all: rewrite ?app_nil_r, ?Hrun; cbn [fst snd].
  all: split; [reflexivity | split; [reflexivity |]]; try reflexivity.
  all: now eexists _, _, _.
Qed.

(** [decrypt] on five segments that decode, under an accepted header,
    once the key is unwrapped: the outcome is that of [decryptCiphertext]. *)
Lemma decrypt_to_ciphertext key_promise this jwe h ek ivs cs ts json header (a e : string)
    crit (encrypted_cek iv cipher tag : list Z) cek :
  Utils.split "." jwe = [h; ek; ivs; cs; ts] ->
  Utils.Base64Url.decode h = Resolved json ->
  JSON_parse json = Resolved header ->
  get header "alg" = Resolved (VString a) ->
  get header "enc" = Resolved (VString e) ->
  get header "crit" = Resolved crit -> truthy crit = false ->
  In a recognized -> In e recognized ->
  Utils.Base64Url.decodeArray ek = Resolved encrypted_cek ->
  Utils.Base64Url.decodeArray ivs = Resolved iv ->
  Utils.Base64Url.decodeArray cs = Resolved cipher ->
  Utils.Base64Url.decodeArray ts = Resolved tag ->
  let r := decrypt key_promise jwe this in
  result (decryptCek key_promise encrypted_cek (final_this r)) = Resolved cek ->
  result r =
  match result (decryptCiphertext (Resolved cek) (Utils.arrayFromString h) iv cipher tag
                  (final_this r)) with
  | Resolved arr => Resolved (Utils.stringFromArray arr)
  | Rejected err => Rejected err
  | Thrown err => Thrown err
  end.
Proof.
  intros Hs Hd Hp Ha He Hc Ht Hia Hie Hek Hiv Hcs Hts.
  destruct (header_accepted h this json header a e crit Hd Hp Ha He Hc Ht Hia Hie)
    as (ka & ca & Hka & Hca & Hr).
  set (this2 := {| key_encryption := ka; content_encryption := ca |}) in *.
  cbv zeta.
  rewrite (decrypt_header_ok key_promise this jwe h ek ivs cs ts this2 [] Hs Hr).
  rewrite (decrypt_parts_run key_promise h ek ivs cs ts this2 _ _ _ _ Hek Hiv Hcs Hts).
  cbv zeta.
  destruct (result (decryptCek key_promise encrypted_cek this2)) as [cek'|err|err] eqn:Erc;
    unfold final_this, result; cbn [fst snd]; fold (@result CryptoKey); intros Hcek.
  - unfold result in Erc. rewrite Erc in Hcek. injection Hcek as ->. reflexivity.
  - unfold result in Erc. rewrite Erc in Hcek. discriminate Hcek.
  - unfold result in Erc. rewrite Erc in Hcek. discriminate Hcek.
Qed.

End DecryptRuns.

(** ** Lengths of the IV and of the tag *)

(** C7, as the code has it.  [decryptCiphertext] rejects an IV whose
    length is not [iv_bytes] with "decryptCiphertext: invalid IV", before
    any provider call of its own.  Through [decrypt], on five segments
    that decode under an accepted header, the operation is rejected with
    this reason, which is malformed input, and its only provider call is
    the [unwrapKey] of [decryptCek], made when the key promise is
    resolved: nothing is exported, imported, signed or decrypted.  The
    length of the tag is not validated on its own: in a composite suite a
    tag whose length is not [truncated_bytes] fails the comparison with
    the truncated MAC, so that the call fails without any decrypt call,
    and with the rejection "decryptCiphertext: MAC failed." when every
    provider call before the comparison succeeds; this relies on the
    signature being at least [truncated_bytes] long. *)
Theorem decrypt_iv_and_tag_lengths `{H : Host} :
  (forall (this : JoseJWE) (cek_promise : outcome CryptoKey)
          (aad iv cipher_text tag : list Z),
     Some (Z.of_nat (length iv)) <> iv_bytes (content_encryption this) ->
     decryptCiphertext cek_promise aad iv cipher_text tag this
     = (Rejected (Reason "decryptCiphertext: invalid IV"), this, []))
  /\ (forall (this : JoseJWE) (cek_promise : outcome CryptoKey)
             (aad iv cipher_text tag : list Z) (hmac : AlgorithmIdentifier) (n : Z),
        let config := content_encryption this in
        let run := decryptCiphertext cek_promise aad iv cipher_text tag this in
        let input := aad ++ iv ++ cipher_text ++ length_block aad in
        composite config ->
        auth config ≫= auth_id = Some hmac ->
        auth config ≫= truncated_bytes = Some n ->
        Z.of_nat (length tag) <> n ->
        (forall key data signature,
           subtle_sign hmac key data = Resolved signature ->
           n <= Z.of_nat (length signature)) ->
        is_failure (result run) /\ no_decrypt (trace run)
        /\ (forall cek cek_bytes mac_key enc_key signature,
              Some (Z.of_nat (length iv)) = iv_bytes config ->
              cek_promise = Resolved cek ->
              subtle_exportKey cek = Resolved cek_bytes ->
              Some (Z.of_nat (length cek_bytes)) = specific_cek_bytes config ->
              subtle_importKey (take (Z.to_nat n) cek_bytes) hmac false ["sign"]
                = Resolved mac_key ->
              subtle_importKey (drop (Z.to_nat n) cek_bytes) (cfg_id config) false
                ["decrypt"] = Resolved enc_key ->
              subtle_sign hmac mac_key input = Resolved signature ->
              result run = Rejected (Reason "decryptCiphertext: MAC failed.")))
  /\ (forall (key_promise : outcome CryptoKey) (this : JoseJWE)
             (jwe h ek ivs cs ts : string),
        let r := decrypt key_promise jwe this in
        let config := content_encryption (final_this r) in
        Utils.split "." jwe = [h; ek; ivs; cs; ts] ->
        (forall iv,
           Utils.Base64Url.decodeArray ivs = Resolved iv ->
           Some (Z.of_nat (length iv)) <> iv_bytes config ->
           is_failure (result r) /\ no_decrypt (trace r)
           /\ (forall json header (a e : string) crit (encrypted_cek cipher tag : list Z),
                 Utils.Base64Url.decode h = Resolved json ->
                 JSON_parse json = Resolved header ->
                 get header "alg" = Resolved (VString a) ->
                 get header "enc" = Resolved (VString e) ->
                 get header "crit" = Resolved crit -> truthy crit = false ->
                 In a recognized -> In e recognized ->
                 Utils.Base64Url.decodeArray ek = Resolved encrypted_cek ->
                 Utils.Base64Url.decodeArray cs = Resolved cipher ->
                 Utils.Base64Url.decodeArray ts = Resolved tag ->
                 result r = Rejected (Reason "decryptCiphertext: invalid IV")
                 /\ kind_of (Reason "decryptCiphertext: invalid IV") = MalformedInput
                 /\ trace r = trace (decryptCek key_promise encrypted_cek (final_this r))
                 /\ match key_promise with
                    | Resolved key =>
                        exists inner extractable usages,
                          trace r = [UnwrapKey encrypted_cek key
                                       (cfg_id (key_encryption (final_this r)))
                                       inner extractable usages]
                    | Rejected _ | Thrown _ => trace r = []
                    end))
        /\ (forall tag hmac n,
              Utils.Base64Url.decodeArray ts = Resolved tag ->
              composite config ->
              auth config ≫= auth_id = Some hmac ->
              auth config ≫= truncated_bytes = Some n ->
              Z.of_nat (length tag) <> n ->
              (forall key data signature,
                 subtle_sign hmac key data = Resolved signature ->
                 n <= Z.of_nat (length signature)) ->
              is_failure (result r) /\ no_decrypt (trace r)
              /\ (forall json header (a e : string) crit (encrypted_cek iv cipher : list Z)
                         cek cek_bytes mac_key enc_key signature,
                    let aad := Utils.arrayFromString h in
                    Utils.Base64Url.decode h = Resolved json ->
                    JSON_parse json = Resolved header ->
                    get header "alg" = Resolved (VString a) ->
                    get header "enc" = Resolved (VString e) ->
                    get header "crit" = Resolved crit -> truthy crit = false ->
                    In a recognized -> In e recognized ->
                    Utils.Base64Url.decodeArray ek = Resolved encrypted_cek ->
                    Utils.Base64Url.decodeArray ivs = Resolved iv ->
                    Utils.Base64Url.decodeArray cs = Resolved cipher ->
                    Some (Z.of_nat (length iv)) = iv_bytes config ->
                    result (decryptCek key_promise encrypted_cek (final_this r))
                      = Resolved cek ->
                    subtle_exportKey cek = Resolved cek_bytes ->
                    Some (Z.of_nat (length cek_bytes)) = specific_cek_bytes config ->
                    subtle_importKey (take (Z.to_nat n) cek_bytes) hmac false ["sign"]
                      = Resolved mac_key ->
                    subtle_importKey (drop (Z.to_nat n) cek_bytes) (cfg_id config) false
                      ["decrypt"] = Resolved enc_key ->
                    subtle_sign hmac mac_key (aad ++ iv ++ cipher ++ length_block aad)
                      = Resolved signature ->
                    result r = Rejected (Reason "decryptCiphertext: MAC failed.")
                    /\ kind_of (Reason "decryptCiphertext: MAC failed.")
                       = IntegrityFailure))).
Proof.
  assert (Htag : forall this cek_promise aad iv cipher_text tag hmac n,
            composite (content_encryption this) ->
            auth (content_encryption this) ≫= auth_id = Some hmac ->
            auth (content_encryption this) ≫= truncated_bytes = Some n ->
            Z.of_nat (length tag) <> n ->
            (forall key data signature,
               subtle_sign hmac key data = Resolved signature ->
               n <= Z.of_nat (length signature)) ->
            is_failure (result (decryptCiphertext cek_promise aad iv cipher_text tag this))
            /\ no_decrypt (trace (decryptCiphertext cek_promise aad iv cipher_text tag this))).
  { intros this cek_promise aad iv cipher_text tag hmac n Hc Hh Hn Hlen Hsig.
    destruct (composite_members _ Hc)
      as (hmac' & a & kb & bits & Ha & Hae & Hi & Hk & Hn' & Hb & Hs & Hv & Hpos & _).
    rewrite Ha in Hh, Hn. cbn [mbind option_bind] in Hh, Hn.
    assert (hmac' = hmac) by congruence. assert (kb = n) by congruence. subst hmac' kb.
    now apply (composite_wrong_length this hmac a n bits Ha Hae Hi Hk Hn Hb Hv Hpos). }
  assert (Hmac : forall this cek_promise aad iv cipher_text tag hmac n,
            composite (content_encryption this) ->
            auth (content_encryption this) ≫= auth_id = Some hmac ->
            auth (content_encryption this) ≫= truncated_bytes = Some n ->
            Z.of_nat (length tag) <> n ->
            (forall key data signature,
               subtle_sign hmac key data = Resolved signature ->
               n <= Z.of_nat (length signature)) ->
            forall cek cek_bytes mac_key enc_key signature,
              Some (Z.of_nat (length iv)) = iv_bytes (content_encryption this) ->
              cek_promise = Resolved cek ->
              subtle_exportKey cek = Resolved cek_bytes ->
              Some (Z.of_nat (length cek_bytes))
              = specific_cek_bytes (content_encryption this) ->
              subtle_importKey (take (Z.to_nat n) cek_bytes) hmac false ["sign"]
                = Resolved mac_key ->
              subtle_importKey (drop (Z.to_nat n) cek_bytes)
                (cfg_id (content_encryption this)) false ["decrypt"] = Resolved enc_key ->
              subtle_sign hmac mac_key (aad ++ iv ++ cipher_text ++ length_block aad)
                = Resolved signature ->
              result (decryptCiphertext cek_promise aad iv cipher_text tag this)
              = Rejected (Reason "decryptCiphertext: MAC failed.")).
  { intros this cek_promise aad iv cipher_text tag hmac n Hc Hh Hn Hlen Hsig.
    set (config := content_encryption this).
    set (run := decryptCiphertext cek_promise aad iv cipher_text tag this).
    set (input := aad ++ iv ++ cipher_text ++ length_block aad).
    intros cek cek_bytes mac_key enc_key signature Hl Hp He Hcl Hm Hen Hs.
    destruct (composite_members _ Hc)
      as (hmac' & a & kb & bits & Ha & Hae & Hi & Hk & Hn' & Hb & Hsp & Hv & Hpos & Hbits & _).
    subst config. rewrite Ha in Hh, Hn. cbn [mbind option_bind] in Hh, Hn.
    assert (hmac' = hmac) by congruence. assert (kb = n) by congruence. subst hmac' kb.
    subst run.
    rewrite (composite_mismatch this hmac a n bits Ha Hae Hi Hk Hn Hb Hv Hpos
               cek_promise aad iv cipher_text tag cek cek_bytes mac_key enc_key signature);
      auto.
    + rewrite Hv in Hl. now injection Hl.
    + rewrite Hsp in Hcl. injection Hcl as Hcl. subst bits.
      rewrite Z.div_mul in Hcl by lia. lia.
    + apply compare_lengths. rewrite length_take. specialize (Hsig _ _ _ Hs). lia. }
  split; [|split].
  - intros this cek_promise aad iv cipher_text tag. apply decryptCiphertext_invalid_IV.
  - intros this cek_promise aad iv cipher_text tag hmac n config run input Hc Hh Hn Hlen Hsig.
    destruct (Htag this cek_promise aad iv cipher_text tag hmac n Hc Hh Hn Hlen Hsig)
      as [Hf Hnd].
    split; [exact Hf | split; [exact Hnd |]].
    exact (Hmac this cek_promise aad iv cipher_text tag hmac n Hc Hh Hn Hlen Hsig).
  - intros key_promise this jwe h ek ivs cs ts r config Hs. subst config r.
    assert (Hexact : forall iv,
              Utils.Base64Url.decodeArray ivs = Resolved iv ->
              Some (Z.of_nat (length iv))
              <> iv_bytes (content_encryption (final_this (decrypt key_promise jwe this))) ->
              forall json header (a e : string) crit (encrypted_cek cipher tag : list Z),
                Utils.Base64Url.decode h = Resolved json ->
                JSON_parse json = Resolved header ->
                get header "alg" = Resolved (VString a) ->
                get header "enc" = Resolved (VString e) ->
                get header "crit" = Resolved crit -> truthy crit = false ->
                In a recognized -> In e recognized ->
                Utils.Base64Url.decodeArray ek = Resolved encrypted_cek ->
                Utils.Base64Url.decodeArray cs = Resolved cipher ->
                Utils.Base64Url.decodeArray ts = Resolved tag ->
                result (decrypt key_promise jwe this)
                = Rejected (Reason "decryptCiphertext: invalid IV")
                /\ kind_of (Reason "decryptCiphertext: invalid IV") = MalformedInput
                /\ trace (decrypt key_promise jwe this)
                   = trace (decryptCek key_promise encrypted_cek
                              (final_this (decrypt key_promise jwe this)))
                /\ match key_promise with
                   | Resolved key =>
                       exists inner extractable usages,
                         trace (decrypt key_promise jwe this)
                         = [UnwrapKey encrypted_cek key
                              (cfg_id (key_encryption
                                         (final_this (decrypt key_promise jwe this))))
                              inner extractable usages]
                   | Rejected _ | Thrown _ => trace (decrypt key_promise jwe this) = []
                   end).
    { intros iv Hiv Hne json header a e crit encrypted_cek cipher tag
        Hd Hp Ha He Hc Ht Hia Hie Hek Hcs Hts.
      destruct (decrypt_invalid_IV key_promise this jwe h ek ivs cs ts json header a e crit
                  encrypted_cek iv cipher tag Hs Hd Hp Ha He Hc Ht Hia Hie Hek Hiv Hcs Hts
                  Hne) as (Hres & Htr & Hcalls).
      split; [exact Hres | split; [reflexivity | split; [exact Htr | exact Hcalls]]]. }
    assert (Hexactmac : forall tag hmac n,
              Utils.Base64Url.decodeArray ts = Resolved tag ->
              composite (content_encryption (final_this (decrypt key_promise jwe this))) ->
              auth (content_encryption (final_this (decrypt key_promise jwe this)))
                ≫= auth_id = Some hmac ->
              auth (content_encryption (final_this (decrypt key_promise jwe this)))
                ≫= truncated_bytes = Some n ->
              Z.of_nat (length tag) <> n ->
              (forall key data signature,
                 subtle_sign hmac key data = Resolved signature ->
                 n <= Z.of_nat (length signature)) ->
              forall json header (a e : string) crit (encrypted_cek iv cipher : list Z)
                     cek cek_bytes mac_key enc_key signature,
                let aad := Utils.arrayFromString h in
                Utils.Base64Url.decode h = Resolved json ->
                JSON_parse json = Resolved header ->
                get header "alg" = Resolved (VString a) ->
                get header "enc" = Resolved (VString e) ->
                get header "crit" = Resolved crit -> truthy crit = false ->
                In a recognized -> In e recognized ->
                Utils.Base64Url.decodeArray ek = Resolved encrypted_cek ->
                Utils.Base64Url.decodeArray ivs = Resolved iv ->
                Utils.Base64Url.decodeArray cs = Resolved cipher ->
                Some (Z.of_nat (length iv))
                = iv_bytes (content_encryption (final_this (decrypt key_promise jwe this))) ->
                result (decryptCek key_promise encrypted_cek
                          (final_this (decrypt key_promise jwe this))) = Resolved cek ->
                subtle_exportKey cek = Resolved cek_bytes ->
                Some (Z.of_nat (length cek_bytes))
                = specific_cek_bytes
                    (content_encryption (final_this (decrypt key_promise jwe this))) ->
                subtle_importKey (take (Z.to_nat n) cek_bytes) hmac false ["sign"]
                  = Resolved mac_key ->
                subtle_importKey (drop (Z.to_nat n) cek_bytes)
                  (cfg_id (content_encryption (final_this (decrypt key_promise jwe this))))
                  false ["decrypt"] = Resolved enc_key ->
                subtle_sign hmac mac_key (aad ++ iv ++ cipher ++ length_block aad)
                  = Resolved signature ->
                result (decrypt key_promise jwe this)
                = Rejected (Reason "decryptCiphertext: MAC failed.")
                /\ kind_of (Reason "decryptCiphertext: MAC failed.") = IntegrityFailure).
    { intros tag hmac n Htag' Hc Hh' Hn Hlen Hsig json header a e crit encrypted_cek iv
        cipher cek cek_bytes mac_key enc_key signature aad
        Hd Hp Ha He Hcr Ht Hia Hie Hek Hiv Hcs Hl Hcek Hex Hcl Hm Hen Hsg.
      subst aad. split; [|reflexivity].
      rewrite (decrypt_to_ciphertext key_promise this jwe h ek ivs cs ts json header a e crit
                 encrypted_cek iv cipher tag cek Hs Hd Hp Ha He Hcr Ht Hia Hie Hek Hiv Hcs
                 Htag' Hcek).
      now rewrite (Hmac _ (Resolved cek) (Utils.arrayFromString h) iv cipher tag hmac n Hc Hh' Hn Hlen Hsig
                     cek cek_bytes mac_key enc_key signature Hl eq_refl Hex Hcl Hm Hen Hsg). }
    destruct (decrypt_cases key_promise this jwe h ek ivs cs ts Hs)
      as [Hf|(encrypted_cek & iv & cipher & tag & Hek & Hiv & Hcs & Hts & Hh & Ht & Hr)].
    { split; [intros iv Hiv Hne; split; [apply Hf | split; [apply Hf |]]
             | intros tag hmac n Htag' Hc Hh' Hn Hlen Hsig;
               split; [apply Hf | split; [apply Hf |]]].
      - exact (Hexact iv Hiv Hne).
      - exact (Hexactmac tag hmac n Htag' Hc Hh' Hn Hlen Hsig). }
    cbv zeta in Ht, Hr.
    pose proof (decryptCek_trace key_promise encrypted_cek
                  (final_this (decrypt key_promise jwe this))) as Htc.
    split.
    + intros iv' Hiv' Hne. assert (iv' = iv) by congruence. subst iv'.
      split; [|split; [|exact (Hexact iv Hiv Hne)]].
      all: rewrite (decryptCiphertext_invalid_IV _ _ _ _ _ _ Hne) in Ht, Hr.
      * rewrite Hr. exact I.
      * rewrite Ht. now apply no_decrypt_app.
    + intros tag' hmac n Htag' Hc Hh' Hn Hlen Hsig.
      assert (tag' = tag) by congruence. subst tag'.
      destruct (Htag _ (result (decryptCek key_promise encrypted_cek
                                  (final_this (decrypt key_promise jwe this))))
                  (Utils.arrayFromString h) iv cipher tag hmac n Hc Hh' Hn Hlen Hsig)
        as [Hf Hnd].
      split; [|split; [|exact (Hexactmac tag hmac n Htag' Hc Hh' Hn Hlen Hsig)]].
      * rewrite Hr.
        destruct (result (decryptCiphertext _ _ _ _ _ _)); [contradiction | exact I | exact I].
      * rewrite Ht. now apply no_decrypt_app.
Qed.

(** ** The statements on the sample data *)

Section OnSamples.
Import Samples.

Lemma decryptCiphertext_verifies_mac_first_witness :
  composite (content_encryption A128KW_A128CBC_HS256)
  /\ result (decryptCiphertext (H := TestHost.host) (Resolved cek) aad iv cipher_text tag
               A128KW_A128CBC_HS256) = Resolved [72; 105]
  /\ (exists params enc_key,
        In (@Decrypt TestHost.host params enc_key cipher_text)
           (trace (decryptCiphertext (H := TestHost.host) (Resolved cek) aad iv cipher_text tag
                     A128KW_A128CBC_HS256)))
  /\ result (decrypt (H := TestHost.host) (Resolved wrapping_key) composite_jwe fresh)
     = Resolved "Hi"
  /\ result (decrypt (H := TestHost.host) (Resolved wrapping_key) tampered_jwe fresh)
     = Rejected (Reason "decryptCiphertext: MAC failed.")
  /\ no_decrypt (trace (decrypt (H := TestHost.host) (Resolved wrapping_key) tampered_jwe
                          fresh)).
Proof.
  destruct (@decryptCiphertext_verifies_mac_first TestHost.host) as [Hd Hj].
  assert (Hc : composite (content_encryption A128KW_A128CBC_HS256)) by (left; reflexivity).
  assert (Hr : result (decryptCiphertext (H := TestHost.host) (Resolved cek) aad iv
                         cipher_text tag A128KW_A128CBC_HS256) = Resolved [72; 105])
    by (vm_compute; reflexivity).
  assert (Hok : result (decrypt (H := TestHost.host) (Resolved wrapping_key) composite_jwe
                          fresh) = Resolved "Hi")
    by (vm_compute; reflexivity).
  split; [exact Hc|]. split; [exact Hr|].
  destruct (Hd A128KW_A128CBC_HS256 (Resolved cek) aad iv cipher_text tag Hc)
    as (hmac & n & _ & _ & _ & _ & Hplain & _).
  destruct (Hplain [72; 105] Hr) as (params & enc_key & Hin & _).
  split; [exists params, enc_key; exact Hin|]. split; [exact Hok|].
  assert (Hcomp : composite (content_encryption
                    (final_this (decrypt (H := TestHost.host) (Resolved wrapping_key)
                                   composite_jwe fresh))))
    by (left; vm_compute; reflexivity).
  assert (Hne : Utils.Base64Url.decodeArray "asssje5PsBFy0zSV9le4GA"
                <> Utils.Base64Url.decodeArray tag_segment)
    by (vm_compute; discriminate).
  destruct (Hj (Resolved wrapping_key) fresh composite_jwe tampered_jwe
              header encrypted_key iv_segment ciphertext_segment tag_segment
              "asssje5PsBFy0zSV9le4GA" "Hi" eq_refl eq_refl Hok Hcomp Hne)
    as (_ & Hnd & Hmac).
  split; [|exact Hnd].
  exact (Hmac [106; 203; 44; 141; 238; 79; 176; 17; 114; 211; 52; 149; 246; 87; 184; 24]
           eq_refl).
Defined.

(** A change of the tag segment that [decrypt] accepts: the last
    character of a sixteen-byte tag carries two bits of the tag and four
    bits that [atob] discards, so that "...GQ" and "...GS" are the same
    tag. *)
Lemma tag_segment_trailing_bits_accepted :
  Utils.split "." composite_jwe
  = [header; encrypted_key; iv_segment; ciphertext_segment; "asssje5PsBFy0zSV9le4GQ"]
  /\ Utils.split "." trailing_bits_jwe
     = [header; encrypted_key; iv_segment; ciphertext_segment; "asssje5PsBFy0zSV9le4GS"]
  /\ composite (content_encryption
                  (final_this (decrypt (H := TestHost.host) (Resolved wrapping_key)
                                 composite_jwe fresh)))
  /\ result (decrypt (H := TestHost.host) (Resolved wrapping_key) composite_jwe fresh)
     = Resolved "Hi"
  /\ result (decrypt (H := TestHost.host) (Resolved wrapping_key) trailing_bits_jwe fresh)
     = Resolved "Hi".
Proof.
  split; [reflexivity|]. split; [reflexivity|].
  split; [left; vm_compute; reflexivity|].
  split; vm_compute; reflexivity.
Qed.

Lemma decrypt_segment_count_witness :
  length (Utils.split "." "a.b.c.d") <> 5%nat
  /\ decrypt (H := TestHost.host) (Resolved wrapping_key) "a.b.c.d" fresh
     = (Rejected (Reason "decrypt: invalid input"), fresh, [])
  /\ length (Utils.split "." "a.b.c.d.e.f") <> 5%nat
  /\ decrypt (H := TestHost.host) (Resolved wrapping_key) "a.b.c.d.e.f" fresh
     = (Rejected (Reason "decrypt: invalid input"), fresh, []).
Proof.
  assert (H4 : length (Utils.split "." "a.b.c.d") <> 5%nat) by (vm_compute; lia).
  assert (H6 : length (Utils.split "." "a.b.c.d.e.f") <> 5%nat) by (vm_compute; lia).
  split; [exact H4|].
  split; [exact (proj1 (decrypt_segment_count (H := TestHost.host) (Resolved wrapping_key)
                          fresh "a.b.c.d" H4))|].
  split; [exact H6|].
  exact (proj1 (decrypt_segment_count (H := TestHost.host) (Resolved wrapping_key)
                  fresh "a.b.c.d.e.f" H6)).
Defined.

(** Five segments, the fourth of them empty, and [decrypt] returns the
    plaintext: the serialization of the empty string under AES-GCM. *)
Lemma empty_ciphertext_segment_accepted :
  length (Utils.split "." empty_plaintext_jwe) = 5%nat
  /\ Utils.split "." empty_plaintext_jwe !! 3%nat = Some ""
  /\ result (decrypt (H := TestHost.host) (Resolved wrapping_key) empty_plaintext_jwe fresh)
     = Resolved "".
Proof. repeat split; vm_compute; reflexivity. Qed.

Lemma truncatedMac_input_and_tag_witness :
  composite (registry "A128CBC-HS256")
  /\ exists (hmac : AlgorithmIdentifier) (AL : list Z),
       length AL = 8%nat
       /\ big_endian (drop 4 AL) = 8 * 51
       /\ truncatedMac (H := TestHost.host) (registry "A128CBC-HS256") (Resolved mac_key)
            aad iv cipher_text fresh
          = (Resolved tag, fresh,
             [@Sign TestHost.host hmac mac_key (aad ++ iv ++ cipher_text ++ AL)]).
Proof.
  assert (Hc : composite (registry "A128CBC-HS256")) by (left; reflexivity).
  split; [exact Hc|].
  destruct (truncatedMac_input_and_tag (H := TestHost.host) fresh (registry "A128CBC-HS256")
              mac_key aad iv cipher_text Hc)
    as (hmac & n & AL & Hh & Hn & Hlen & Ht & Hd & _ & Hv & Hrun).
  exists hmac, AL. split; [exact Hlen|]. split; [rewrite Hv; reflexivity|].
  eapply eq_trans; [exact Hrun|].
  assert (HAL : AL = take 4 AL ++ drop 4 AL) by (symmetry; apply take_drop).
  rewrite HAL, Ht, Hd. injection Hh as <-. injection Hn as <-.
  match goal with
  | |- (?r, _, _) = _ =>
      assert (Hr : r = Resolved tag) by (vm_compute; reflexivity); rewrite Hr
  end.
  reflexivity.
Defined.

Lemma splitKey_halves_witness :
  composite (registry "A128CBC-HS256")
  /\ subtle_exportKey (Host := TestHost.host) cek = Resolved (map Z.of_nat (seq 1 32))
  /\ exists (hmac : AlgorithmIdentifier) (kb : Z),
       kb = 16
       /\ trace (splitKey (H := TestHost.host) (registry "A128CBC-HS256") (Resolved cek)
                   ["decrypt"] fresh)
          = [@ExportKey TestHost.host cek;
             ImportKey (map Z.of_nat (seq 1 16)) hmac false ["sign"];
             ImportKey (map Z.of_nat (seq 17 16)) (cfg_id (registry "A128CBC-HS256")) false
               ["decrypt"]].
Proof.
  assert (Hc : composite (registry "A128CBC-HS256")) by (left; reflexivity).
  assert (He : subtle_exportKey (Host := TestHost.host) cek
               = Resolved (map Z.of_nat (seq 1 32))) by reflexivity.
  split; [exact Hc|]. split; [exact He|].
  destruct (splitKey_halves (H := TestHost.host) fresh (registry "A128CBC-HS256") cek
              (map Z.of_nat (seq 1 32)) ["decrypt"] Hc He)
    as (hmac & kb & bits & Hh & Hk & _ & _ & _ & _ & Hrun).
  exists hmac, kb. injection Hk as <-. split; [reflexivity|].
  eapply eq_trans; [exact (f_equal trace Hrun)|]. reflexivity.
Defined.

Lemma decrypt_iv_and_tag_lengths_witness :
  Some (Z.of_nat (length (take 12 iv)))
  <> iv_bytes (content_encryption A128KW_A128CBC_HS256)
  /\ decryptCiphertext (H := TestHost.host) (Resolved cek) aad (take 12 iv) cipher_text tag
       A128KW_A128CBC_HS256
     = (Rejected (Reason "decryptCiphertext: invalid IV"), A128KW_A128CBC_HS256, [])
  /\ is_failure (result (decrypt (H := TestHost.host) (Resolved wrapping_key) short_iv_jwe
                           fresh))
  /\ result (decrypt (H := TestHost.host) (Resolved wrapping_key) short_iv_jwe fresh)
     = Rejected (Reason "decryptCiphertext: invalid IV")
  /\ (exists inner extractable usages,
        trace (decrypt (H := TestHost.host) (Resolved wrapping_key) short_iv_jwe fresh)
        = [@UnwrapKey TestHost.host EncryptSamples.wrapped_cek wrapping_key
             (cfg_id (key_encryption
                        (final_this (decrypt (H := TestHost.host) (Resolved wrapping_key)
                                       short_iv_jwe fresh))))
             inner extractable usages])
  /\ is_failure (result (decrypt (H := TestHost.host) (Resolved wrapping_key) short_tag_jwe
                           fresh))
  /\ no_decrypt (trace (decrypt (H := TestHost.host) (Resolved wrapping_key) short_tag_jwe
                          fresh))
  /\ result (decrypt (H := TestHost.host) (Resolved wrapping_key) short_tag_jwe fresh)
     = Rejected (Reason "decryptCiphertext: MAC failed.").
Proof.
  destruct (@decrypt_iv_and_tag_lengths TestHost.host) as (Hiv & _ & Hd).
  assert (Hne : Some (Z.of_nat (length (take 12 iv)))
                <> iv_bytes (content_encryption A128KW_A128CBC_HS256))
    by (vm_compute; discriminate).
  split; [exact Hne|].
  split; [exact (Hiv A128KW_A128CBC_HS256 (Resolved cek) aad (take 12 iv) cipher_text tag Hne)|].
  destruct (Hd (Resolved wrapping_key) fresh short_iv_jwe header encrypted_key
              "ZGVmZ2hpamtsbW5v" ciphertext_segment tag_segment eq_refl) as [Hi _].
  destruct (Hd (Resolved wrapping_key) fresh short_tag_jwe header encrypted_key
              iv_segment ciphertext_segment "asssje5PsBFy0zSV9le4" eq_refl) as [_ Ht].
  destruct (Hi (take 12 iv)) as (Hfail & _ & Hexact);
    [reflexivity | vm_compute; discriminate |].
  assert (Hdec : Utils.Base64Url.decode header = Resolved EncryptSamples.header_json)
    by (vm_compute; reflexivity).
  assert (Hp : JSON_parse (Host := TestHost.host) EncryptSamples.header_json
               = Resolved EncryptSamples.header_object) by (vm_compute; reflexivity).
  assert (Hek : Utils.Base64Url.decodeArray encrypted_key
                = Resolved EncryptSamples.wrapped_cek) by (vm_compute; reflexivity).
  assert (Hcs : Utils.Base64Url.decodeArray ciphertext_segment = Resolved cipher_text)
    by (vm_compute; reflexivity).
  assert (Hts : Utils.Base64Url.decodeArray tag_segment = Resolved tag)
    by (vm_compute; reflexivity).
  destruct (Hexact EncryptSamples.header_json EncryptSamples.header_object
              "A128KW" "A128CBC-HS256" VUndefined EncryptSamples.wrapped_cek cipher_text tag
              Hdec Hp eq_refl eq_refl eq_refl eq_refl
              ltac:(simpl; tauto) ltac:(simpl; tauto) Hek Hcs Hts)
    as (Hres & _ & _ & Hcalls).
  split; [exact Hfail|]. split; [exact Hres|]. split; [exact Hcalls|].
  destruct (Ht (take 15 tag)
              {| alg_name := "HMAC"; alg_hash := Some "SHA-256"; alg_length := None |} 16)
    as (Hft & Hnd & Hmac).
  - reflexivity.
  - left. vm_compute. reflexivity.
  - vm_compute. reflexivity.
  - vm_compute. reflexivity.
  - vm_compute. discriminate.
  - intros k data signature Hs. unfold subtle_sign in Hs. simpl in Hs.
    unfold TestHost.sign in Hs. destruct (negb (TestHost.has_usage "sign" k)); [discriminate|].
    injection Hs as <-. unfold TestHost.digest. rewrite length_map, length_seq.
    vm_compute. discriminate.
  - split; [exact Hft|]. split; [exact Hnd|].
    assert (Hivs : Utils.Base64Url.decodeArray iv_segment = Resolved iv)
      by (vm_compute; reflexivity).
    destruct (Hmac EncryptSamples.header_json EncryptSamples.header_object
                "A128KW" "A128CBC-HS256" VUndefined EncryptSamples.wrapped_cek iv cipher_text
                cek (map Z.of_nat (seq 1 32)) mac_key
                {| TestHost.raw := map Z.of_nat (seq 17 16);
                   TestHost.algorithm := cfg_id (registry "A128CBC-HS256");
                   TestHost.extractable := false;
                   TestHost.usages := ["decrypt"] |}
                (TestHost.digest 32 (map Z.of_nat (seq 1 16))
                   (aad ++ iv ++ cipher_text ++ length_block aad))
                Hdec Hp eq_refl eq_refl eq_refl eq_refl
                ltac:(simpl; tauto) ltac:(simpl; tauto) Hek Hivs Hcs) as [Hrm _];
      [vm_compute; reflexivity ..|].
    exact Hrm.
Defined.

(** A tag of fifteen bytes in a suite whose tags have sixteen is refused
    as a MAC mismatch, not as malformed input. *)
Lemma tag_length_rejected_as_mac_failure :
  Utils.Base64Url.decodeArray "asssje5PsBFy0zSV9le4" = Resolved (take 15 tag)
  /\ auth (registry "A128CBC-HS256") ≫= truncated_bytes = Some 16
  /\ result (decrypt (H := TestHost.host) (Resolved wrapping_key) short_tag_jwe fresh)
     = Rejected (Reason "decryptCiphertext: MAC failed.")
  /\ result (decrypt (H := TestHost.host) (Resolved wrapping_key) tampered_jwe fresh)
     = Rejected (Reason "decryptCiphertext: MAC failed.")
  /\ kind_of (Reason "decryptCiphertext: MAC failed.") = IntegrityFailure
  /\ kind_of (Reason "decryptCiphertext: MAC failed.") <> MalformedInput.
Proof.
  repeat split; try (vm_compute; reflexivity). discriminate.
Qed.

Lemma decrypt_overwrites_algorithms_witness :
  length (Utils.split "." crit_jwe) = 5%nat
  /\ In "A128KW" recognized /\ In "A128CBC-HS256" recognized
  /\ fresh <> A128KW_A128CBC_HS256
  /\ decrypt (H := TestHost.host) (Resolved wrapping_key) crit_jwe fresh
     = (Rejected (Reason "decrypt: crit is not supported"), A128KW_A128CBC_HS256, []).
Proof.
  assert (Hl : length (Utils.split "." crit_jwe) = 5%nat) by reflexivity.
  assert (Ha : In "A128KW" recognized) by (simpl; tauto).
  assert (He : In "A128CBC-HS256" recognized) by (simpl; tauto).
  assert (Hd : Utils.Base64Url.decode (Utils.split "." crit_jwe !!! 0%nat)
               = Resolved crit_json) by (vm_compute; reflexivity).
  assert (Hp : JSON_parse (Host := TestHost.host) crit_json
               = Resolved (VObject [("alg", VString "A128KW");
                                    ("enc", VString "A128CBC-HS256");
                                    ("crit", VArray [VString "exp"])]))
    by (vm_compute; reflexivity).
  split; [exact Hl|]. split; [exact Ha|]. split; [exact He|].
  split; [vm_compute; discriminate|].
  destruct (decrypt_overwrites_algorithms (H := TestHost.host) (Resolved wrapping_key) fresh
              crit_jwe crit_json _ "A128KW" "A128CBC-HS256" Hl Hd Hp eq_refl eq_refl Ha He)
    as (ka & ca & crit & Hka & Hca & Hcrit & _ & Hrej).
  injection Hka as <-. injection Hca as <-. injection Hcrit as <-.
  exact (Hrej eq_refl).
Defined.

End OnSamples.

(** ** The names of the registry *)

(** C2.  Six of the eight entries of the registry carry their identifier
    as [jwe_name]; the entries of A256CBC-HS512 and A128GCM have none.  An
    instance set to A128GCM therefore emits a header without [enc], which
    [decrypt] refuses. *)
Theorem getCryptoConfig_jwe_name_missing :
  Forall (fun alg => jwe_name <$> getCryptoConfig_string alg = Some (Some alg))
         ["RSA-OAEP"; "RSA-OAEP-256"; "A128KW"; "A256KW"; "A128CBC-HS256"; "A256GCM"]
  /\ jwe_name <$> getCryptoConfig_string "A256CBC-HS512" = Some None
  /\ jwe_name <$> getCryptoConfig_string "A128GCM" = Some None
  /\ (let this := {| key_encryption := Samples.registry "RSA-OAEP";
                     content_encryption := Samples.registry "A128GCM" |} in
      obind (Utils.Base64Url.decode (jwe_protected_header this)) TestHost.parse
      = Resolved (VObject [("alg", VString "RSA-OAEP")])
      /\ result (decrypt (H := TestHost.host) (Resolved Samples.wrapping_key)
                   (Samples.compact [jwe_protected_header this; "AA"; "AA"; "AA"; "AA"])
                   Samples.fresh)
         = Rejected (Reason "decrypt: missing enc")).
Proof.
  split; [repeat (apply List.Forall_cons; [reflexivity|]); apply List.Forall_nil|].
  repeat split; vm_compute; reflexivity.
Qed.

(** * Further properties *)

(** ** Strings, numbers and buffers *)

Section TypedValues.
Import Typed.

Lemma append_loop (arr : list Z) :
  forall r : list Z, foldl (fun r b => r ++ [b]) r arr = r ++ arr.
Proof.
  induction arr as [|b arr IH]; intros r; simpl; [now rewrite app_nil_r|].
  rewrite IH, <- app_assoc. reflexivity.
Qed.

Lemma ToUint8_range v : Utils.is_byte (ToUint8 v).
Proof. unfold Utils.is_byte, ToUint8. apply Z.mod_pos_bound. lia. Qed.

Lemma ToUint8_bytes (l : list Z) : Forall Utils.is_byte (map ToUint8 l).
Proof. apply Forall_forall. intros b Hb. apply list_elem_of_In, in_map_iff in Hb as (v & <- & _).
  apply ToUint8_range. Qed.

Lemma ToUint8_fixed (l : list Z) : map ToUint8 l = l <-> Forall Utils.is_byte l.
Proof.
  split.
  - intros E. rewrite <- E. apply ToUint8_bytes.
  - induction 1 as [|b l Hb _ IH]; [reflexivity|]. simpl. rewrite IH. f_equal.
    unfold ToUint8. apply Z.mod_small. exact Hb.
Qed.

Lemma write_at_stores (arg : list Z) :
  forall r offset, write_at r offset arg = Utils.write_at r offset (map ToUint8 arg).
Proof. induction arg as [|x arg IH]; intros r offset; simpl; [reflexivity | apply IH]. Qed.

(** The first loop of [arrayBufferConcat]. *)
Lemma collect_loop (arguments : list jsval) :
  forall (args : list jsval) (total : nat),
    let run :=
      foldl (fun st argument =>
               let* st := st in
               let* a := arrayish argument in
               Resolved (fst st ++ [a], (snd st + length (elements a))%nat))
            (Resolved (args, total)) arguments in
    if forallb is_arrayish arguments
    then exists args',
           run = Resolved (args', (total + length (concat (map contents arguments)))%nat)
           /\ map elements args' = map elements args ++ map contents arguments
    else run = Thrown (Error "arrayish: invalid input").
Proof.
  assert (Hthrown : forall (l : list jsval) e,
            foldl (fun st argument =>
                     let* st := st in
                     let* a := arrayish argument in
                     Resolved (fst st ++ [a], (snd st + length (elements a))%nat))
                  (Thrown e) l = Thrown e)
    by (induction l as [|a l IH]; intros e; simpl; [reflexivity | apply IH]).
  induction arguments as [|a arguments IH]; intros args total; cbv zeta; simpl.
  - exists args. now rewrite app_nil_r, Nat.add_0_r.
  - destruct a as [units|elems|bytes|bytes|]; simpl; try apply Hthrown.
    all: match goal with
         | |- context [Resolved (?l ++ [?a], ?t)] => specialize (IH (l ++ [a]) t)
         end.
    all: cbv zeta in IH; destruct (forallb is_arrayish arguments); [|exact IH].
    all: destruct IH as (args' & Hrun & Hel); exists args'; rewrite Hrun.
    all: rewrite Hel, map_app, <- app_assoc, length_app; simpl.
    all: split; [do 2 f_equal; lia | reflexivity].
Qed.

(** The second loop, on the elements of the collected arguments. *)
Lemma store_loop (args : list jsval) :
  forall (st : list Z * nat),
    foldl (fun '(r, offset) a => write_at r offset (elements a)) st args
    = foldl (fun '(r, offset) a => Utils.write_at r offset a) st
            (map (fun a => map ToUint8 (elements a)) args).
Proof.
  induction args as [|a args IH]; intros [r offset]; simpl; [reflexivity|].
  rewrite write_at_stores. apply IH.
Qed.

Lemma concat_stores (ls : list (list Z)) :
  concat (map (map ToUint8) ls) = map ToUint8 (concat ls).
Proof.
  induction ls as [|l ls IH]; simpl; [reflexivity|]. now rewrite IH, map_app.
Qed.

Lemma arrayBufferConcat_run (arguments : list jsval) :
  arrayBufferConcat arguments
  = if forallb is_arrayish arguments
    then Resolved (U8 (map ToUint8 (concat (map contents arguments))))
    else Thrown (Error "arrayish: invalid input").
Proof.
  unfold arrayBufferConcat.
  pose proof (collect_loop arguments [] 0%nat) as Hc. cbv zeta in Hc.
  destruct (forallb is_arrayish arguments); [|now rewrite Hc].
  destruct Hc as (args & -> & Hel). simpl in Hel. cbn [obind fst snd Nat.add].
  rewrite store_loop.
  replace (map (fun a => map ToUint8 (elements a)) args)
    with (map (map ToUint8) (map contents arguments))
    by (rewrite <- Hel, map_map; reflexivity).
  pose proof (concat_loop (map (map ToUint8) (map contents arguments)) []
                (length (concat (map contents arguments)))) as E.
  simpl in E. rewrite Nat.sub_0_r in E. rewrite E.
  - rewrite Nat.eqb_refl. simpl. now rewrite concat_stores.
  - now rewrite concat_stores, length_map.
Qed.

End TypedValues.

(** X1. [arrayFromString] returns a Uint8Array with one byte for every
    code unit of the string, the code unit modulo 256, and refuses what is
    not a string.  [stringFromArray] accepts an ArrayBuffer only: on the
    Uint8Array that [arrayFromString] returns it throws "stringFromArray:
    invalid input".  On the buffer of these bytes it gives the string
    back exactly when every code unit is below 256, and [arrayFromString]
    undoes [stringFromArray] on every ArrayBuffer.  On the strings of this
    development the two agree with [Utils.arrayFromString] and
    [Utils.stringFromArray]. *)
Theorem arrayFromString_round_trip :
  (forall units : list Z,
     exists bytes : list Z,
       Typed.arrayFromString (Typed.Str units) = Resolved (Typed.U8 bytes)
       /\ bytes = map (fun u => u mod 256) units
       /\ length bytes = length units
       /\ Forall Utils.is_byte bytes
       /\ Typed.stringFromArray (Typed.U8 bytes)
          = Thrown (Error "stringFromArray: invalid input")
       /\ Typed.stringFromArray (Typed.Buf bytes) = Resolved (Typed.Str bytes)
       /\ (bytes = units <-> Forall Utils.is_byte units))
  /\ (forall bytes : list Z,
        Forall Utils.is_byte bytes ->
        Typed.stringFromArray (Typed.Buf bytes) = Resolved (Typed.Str bytes)
        /\ Typed.arrayFromString (Typed.Str bytes) = Resolved (Typed.U8 bytes))
  /\ (forall v : Typed.jsval,
        Typed.isString v = false ->
        Typed.arrayFromString v = Thrown (Error "arrayFromString: invalid input"))
  /\ (forall v : Typed.jsval,
        (forall bytes, v <> Typed.Buf bytes) ->
        Typed.stringFromArray v = Thrown (Error "stringFromArray: invalid input"))
  /\ (forall str : string,
        Typed.arrayFromString (Typed.of_string str)
        = Resolved (Typed.U8 (Utils.arrayFromString str))
        /\ Typed.stringFromArray (Typed.Buf (Utils.arrayFromString str))
           = Resolved (Typed.of_string str)
        /\ Utils.stringFromArray (Utils.arrayFromString str) = str
        /\ length (Utils.arrayFromString str) = String.length str).
Proof.
  assert (Hbuf : forall bytes : list Z,
            Typed.stringFromArray (Typed.Buf bytes) = Resolved (Typed.Str bytes)).
  { intros bytes. unfold Typed.stringFromArray. simpl. now rewrite append_loop. }
  split; [|split; [|split; [|split]]].
  - intros units. exists (map Typed.ToUint8 units).
    split; [reflexivity|]. split; [reflexivity|]. split; [apply length_map|].
    split; [apply ToUint8_bytes|]. split; [reflexivity|]. split; [apply Hbuf|].
    apply ToUint8_fixed.
  - intros bytes Hb. split; [apply Hbuf|].
    unfold Typed.arrayFromString. simpl. f_equal. f_equal. now apply ToUint8_fixed.
  - intros v Hv. unfold Typed.arrayFromString. now rewrite Hv.
  - intros v Hv. destruct v as [units|elems|bytes|bytes|]; try reflexivity.
    exfalso. now apply (Hv bytes).
  - intros str. split; [|split; [apply Hbuf | split]].
    + unfold Typed.of_string, Typed.arrayFromString. simpl. f_equal. f_equal.
      apply ToUint8_fixed. apply arrayFromString_bytes.
    + apply stringFromArray_arrayFromString.
    + unfold Utils.arrayFromString. rewrite length_map.
      rewrite <- (String.string_of_list_ascii_of_string str) at 2.
      generalize (String.list_ascii_of_string str). intros l.
      induction l as [|c l IH]; simpl; [reflexivity | now rewrite <- IH].
Qed.

Lemma arrayFromString_round_trip_witness :
  Forall Utils.is_byte [72; 105; 0; 255]
  /\ Typed.arrayFromString (Typed.Str [72; 105; 0; 255]) = Resolved (Typed.U8 [72; 105; 0; 255])
  /\ Typed.stringFromArray (Typed.Buf [72; 105; 0; 255])
     = Resolved (Typed.Str [72; 105; 0; 255])
  /\ Typed.arrayFromString (Typed.Str [72; 8364])
     = Resolved (Typed.U8 [72; 172])
  /\ Typed.stringFromArray (Typed.U8 [72; 172])
     = Thrown (Error "stringFromArray: invalid input")
  /\ Typed.arrayFromString (Typed.U8 [72]) = Thrown (Error "arrayFromString: invalid input").
Proof.
  assert (Hb : Forall Utils.is_byte [72; 105; 0; 255]).
  { repeat (apply List.Forall_cons; [unfold Utils.is_byte; lia|]). apply List.Forall_nil. }
  destruct arrayFromString_round_trip as (Hs & Ha & Hn & Hu & _).
  split; [exact Hb|]. split; [exact (proj2 (Ha _ Hb))|]. split; [exact (proj1 (Ha _ Hb))|].
  destruct (Hs [72; 8364]) as (bytes & Hrun & -> & _ & _ & Hthrow & _).
  split; [exact Hrun|]. split; [exact Hthrow|].
  exact (Hn (Typed.U8 [72]) eq_refl).
Defined.


Section LeadingZeros.
Import Utils.

Lemma stripLeadingZeros_loop_false arr : stripLeadingZeros_loop false arr = arr.
Proof. induction arr as [|x arr IH]; simpl; [reflexivity | now rewrite IH]. Qed.

Lemma big_endian_app l1 l2 :
  big_endian (l1 ++ l2) = big_endian l1 * 256 ^ Z.of_nat (length l2) + big_endian l2.
Proof.
  unfold big_endian. revert l1.
  induction l2 as [|b l2 IH] using rev_ind; intros l1.
  - rewrite app_nil_r. simpl. lia.
  - rewrite app_assoc, !foldl_snoc, IH, length_app. simpl length.
    rewrite Nat2Z.inj_add, Z.pow_add_r by lia. change (256 ^ Z.of_nat 1) with 256. lia.
Qed.

Lemma big_endian_zeros k : big_endian (replicate k 0) = 0.
Proof.
  unfold big_endian. induction k as [|k IH]; [reflexivity|].
  change (replicate (S k) 0) with ([0] ++ replicate k 0). rewrite foldl_app. exact IH.
Qed.

Lemma stripLeadingZeros_cases arr :
  exists k : nat,
    arr = replicate k 0 ++ stripLeadingZeros arr
    /\ head (stripLeadingZeros arr) <> Some 0
    /\ stripLeadingZeros_loop true (stripLeadingZeros arr) = stripLeadingZeros arr.
Proof.
  unfold stripLeadingZeros. induction arr as [|x arr (k & IH1 & IH2 & IH3)]; simpl.
  - exists 0%nat. repeat split. discriminate.
  - destruct (Z.eqb_spec x 0) as [->|Hx].
    + exists (S k). simpl. now rewrite <- IH1.
    + exists 0%nat. rewrite stripLeadingZeros_loop_false. simpl.
      repeat split; [congruence|].
      destruct (Z.eqb_spec x 0) as [?|_]; [contradiction|].
      now rewrite stripLeadingZeros_loop_false.
Qed.

End LeadingZeros.

(** X2. [stripLeadingZeros] removes the zeros in front of an array and
    nothing else: the array is some zeros followed by the result, the
    result does not begin with zero, it denotes the same big-endian number,
    stripping it again changes nothing, and an array of zeros gives the
    empty array. *)
Theorem stripLeadingZeros_spec (arr : list Z) :
  (exists k : nat, arr = replicate k 0 ++ Utils.stripLeadingZeros arr)
  /\ head (Utils.stripLeadingZeros arr) <> Some 0
  /\ big_endian (Utils.stripLeadingZeros arr) = big_endian arr
  /\ Utils.stripLeadingZeros (Utils.stripLeadingZeros arr) = Utils.stripLeadingZeros arr
  /\ Utils.stripLeadingZeros (replicate (length arr) 0) = [].
Proof.
  destruct (stripLeadingZeros_cases arr) as (k & Hk & Hh & Hi).
  split; [now exists k|]. split; [exact Hh|]. split; [|split; [exact Hi|]].
  - rewrite Hk at 2. rewrite big_endian_app, big_endian_zeros. lia.
  - generalize (length arr). intros n. unfold Utils.stripLeadingZeros.
    induction n as [|n IH]; [reflexivity | exact IH].
Qed.

(** X3. [arrayFromInt32] gives four bytes, the big-endian digits of its
    argument modulo 2^32: a number from 0 to 2^32 - 1 is read back from
    them, and no integer is refused. *)
Theorem arrayFromInt32_big_endian (i : Z) :
  length (Utils.arrayFromInt32 i) = 4%nat
  /\ Forall Utils.is_byte (Utils.arrayFromInt32 i)
  /\ big_endian (Utils.arrayFromInt32 i) = i mod 2 ^ 32
  /\ Utils.arrayFromInt32 (i + 2 ^ 32) = Utils.arrayFromInt32 i.
Proof.
  rewrite !arrayFromInt32_be_word.
  split; [reflexivity|]. split; [apply uint32_be_bytes|].
  split; [rewrite uint32_be_value; apply Z.mod_mod; lia|].
  f_equal. rewrite <- (Z.mul_1_l (2 ^ 32)) at 1. apply Z.mod_add. lia.
Qed.

(** X4. [arrayBufferConcat] takes Arrays, Uint8Arrays and ArrayBuffers,
    any number of them, and returns a Uint8Array with their elements in
    order, one argument after the other, each element modulo 256 as the
    store into the result leaves it; the closing assertion on the offset
    never fails.  Any other argument raises "arrayish: invalid input".
    On arrays of bytes, which is how the codec calls it, the result is
    the concatenation, and is what [Utils.arrayBufferConcat] gives. *)
Theorem arrayBufferConcat_is_concat (arguments : list Typed.jsval) :
  (forallb Typed.is_arrayish arguments = true ->
     Typed.arrayBufferConcat arguments
     = Resolved (Typed.U8 (map (fun v => v mod 256)
                             (concat (map Typed.contents arguments)))))
  /\ (forallb Typed.is_arrayish arguments = false ->
        Typed.arrayBufferConcat arguments = Thrown (Error "arrayish: invalid input"))
  /\ (forall args : list (list Z),
        Forall (Forall Utils.is_byte) args ->
        Typed.arrayBufferConcat (map Typed.U8 args) = Resolved (Typed.U8 (concat args))
        /\ Typed.arrayBufferConcat (map Typed.Buf args) = Resolved (Typed.U8 (concat args))
        /\ Utils.arrayBufferConcat args = Resolved (concat args)).
Proof.
  split; [|split].
  - intros Hok. now rewrite arrayBufferConcat_run, Hok.
  - intros Hno. now rewrite arrayBufferConcat_run, Hno.
  - intros args Hb.
    assert (Hc : map Typed.ToUint8 (concat args) = concat args).
    { apply ToUint8_fixed. apply Forall_forall. intros b Hin.
      apply list_elem_of_In, in_concat in Hin as (l & Hl & Hbl).
      rewrite Forall_forall in Hb. apply list_elem_of_In, Hb in Hl.
      rewrite Forall_forall in Hl. now apply Hl, list_elem_of_In. }
    split; [|split; [|apply arrayBufferConcat_concat]].
    + rewrite arrayBufferConcat_run.
      replace (forallb Typed.is_arrayish (map Typed.U8 args)) with true
        by (symmetry; apply forallb_forall; intros v Hv;
            apply in_map_iff in Hv as (l & <- & _); reflexivity).
      rewrite map_map. simpl. rewrite map_id. now rewrite Hc.
    + rewrite arrayBufferConcat_run.
      replace (forallb Typed.is_arrayish (map Typed.Buf args)) with true
        by (symmetry; apply forallb_forall; intros v Hv;
            apply in_map_iff in Hv as (l & <- & _); reflexivity).
      rewrite map_map. simpl. rewrite map_id. now rewrite Hc.
Qed.

Lemma arrayBufferConcat_is_concat_witness :
  Typed.arrayBufferConcat [Typed.Arr [1; 300]; Typed.Arr [-1]] = Resolved (Typed.U8 [1; 44; 255])
  /\ Typed.arrayBufferConcat [Typed.U8 [1; 2]; Typed.Str [51]]
     = Thrown (Error "arrayish: invalid input")
  /\ Typed.arrayBufferConcat [Typed.U8 [1; 2]; Typed.U8 []; Typed.U8 [255]]
     = Resolved (Typed.U8 [1; 2; 255]).
Proof.
  split; [|split].
  - exact (proj1 (arrayBufferConcat_is_concat [Typed.Arr [1; 300]; Typed.Arr [-1]]) eq_refl).
  - exact (proj1 (proj2 (arrayBufferConcat_is_concat [Typed.U8 [1; 2]; Typed.Str [51]]))
             eq_refl).
  - refine (proj1 (proj2 (proj2 (arrayBufferConcat_is_concat [])) [[1; 2]; []; [255]] _)).
    repeat (apply List.Forall_cons;
            [repeat (apply List.Forall_cons; [unfold Utils.is_byte; lia|]);
             apply List.Forall_nil|]).
    apply List.Forall_nil.
Defined.

(** ** The registry *)

(** X5. [getCryptoConfig] answers for the eight identifiers, given as
    strings, and for nothing else: any other string raises "unsupported
    algorithm: " followed by the string, and a value that is not a string
    is refused with an exception whatever it is. *)
Theorem getCryptoConfig_domain (alg : value) :
  (exists (s : string) (c : CryptoConfig),
     alg = VString s /\ In s recognized
     /\ getCryptoConfig alg = Resolved c /\ getCryptoConfig_string s = Some c)
  \/ ((forall s : string, alg = VString s -> ~ In s recognized)
      /\ (exists e, getCryptoConfig alg = Thrown e)
      /\ (forall s : string,
            alg = VString s ->
            getCryptoConfig alg = Thrown (Error ("unsupported algorithm: " +:+ s)))).
Proof.
  destruct alg as [| |b|z|s|l|props];
    try (right; split; [intros s' [=] | split; [eexists; reflexivity | intros s' [=]]]).
  destruct (getCryptoConfig_string s) as [c|] eqn:E.
  - left. exists s, c. repeat split; [|simpl; now rewrite E | exact E].
    apply getCryptoConfig_recognized. rewrite E. now eexists.
  - right. split; [|split].
    + intros s' [= <-] Hin. apply getCryptoConfig_recognized in Hin.
      rewrite E in Hin. now destruct Hin.
    + eexists. simpl. now rewrite E.
    + intros s' [= <-]. simpl. now rewrite E.
Qed.

Lemma getCryptoConfig_domain_witness :
  getCryptoConfig (VString "A192GCM") = Thrown (Error "unsupported algorithm: A192GCM")
  /\ exists e, getCryptoConfig (VNumber 5) = Thrown e.
Proof.
  destruct (getCryptoConfig_domain (VString "A192GCM")) as [(s & c & _ & _ & Hr & _)|(_ & _ & Hs)];
    [vm_compute in Hr; discriminate Hr|].
  split; [exact (Hs "A192GCM" eq_refl)|].
  destruct (getCryptoConfig_domain (VNumber 5)) as [(s & c & Hv & _)|(_ & He & _)];
    [discriminate Hv | exact He].
Defined.

(** ** Base64url text *)

Section Base64Text.
Import Utils Utils.Base64Url.

Lemma url_char_all s : is_sextet s -> is_url_char (url (sextet_char s)) = true.
Proof.
  intros Hs.
  assert (Hall : forallb (fun s => is_url_char (url (sextet_char s)))
                         (map Z.of_nat (seq 0 64)) = true) by now vm_compute.
  rewrite forallb_forall in Hall. apply Hall.
  apply in_map_iff. exists (Z.to_nat s). unfold is_sextet in Hs.
  split; [lia | apply in_seq; lia].
Qed.

Lemma sextets_of_count l :
  Z.of_nat (length (sextets_of l)) = (4 * Z.of_nat (length l) + 2) / 3.
Proof.
  induction l as [|a|a b|a b c l IH] using list_ind3; try reflexivity.
  cbn [sextets_of length]. rewrite !Nat2Z.inj_succ, IH.
  Z.div_mod_to_equations. lia.
Qed.

Lemma string_length_of_list (l : list ascii) :
  String.length (String.string_of_list_ascii l) = length l.
Proof. induction l as [|c l IH]; simpl; [reflexivity | now rewrite IH]. Qed.

Lemma encode_url_chars l :
  Forall is_byte l ->
  forallb is_url_char (String.list_ascii_of_string (encode (stringFromArray l))) = true
  /\ Z.of_nat (String.length (encode (stringFromArray l)))
     = (4 * Z.of_nat (length l) + 2) / 3.
Proof.
  intros Hl. rewrite encode_bytes by assumption. split.
  - rewrite String.list_ascii_of_string_of_list_ascii, map_map.
    apply forallb_forall. intros c Hc. apply in_map_iff in Hc as (s & <- & Hs).
    apply url_char_all. pose proof (sextets_of_range l Hl) as Hr.
    rewrite Forall_forall in Hr. now apply Hr, list_elem_of_In.
  - rewrite string_length_of_list, !length_map. apply sextets_of_count.
Qed.

Lemma decode_encode_bytes l :
  Forall is_byte l -> decode (encode (stringFromArray l)) = Resolved (stringFromArray l).
Proof.
  intros Hl.
  rewrite decode_map, encode_bytes, String.list_ascii_of_string_of_list_ascii by assumption.
  rewrite map_map.
  rewrite (map_ext_in _ (fun c => c)), map_id.
  2:{ intros c Hc. apply in_map_iff in Hc as (s & <- & Hs).
      pose proof (sextets_of_range l Hl) as Hr. rewrite Forall_forall in Hr.
      apply list_elem_of_In, Hr in Hs. now destruct (sextet_facts s Hs) as (_ & _ & _ & -> & _). }
  rewrite atob_sextets; [| now apply sextets_of_range | apply sextets_of_length].
  now rewrite decode_sextets_of.
Qed.

Lemma decode_encode_string str : decode (encode str) = Resolved str.
Proof.
  rewrite <- (stringFromArray_arrayFromString str).
  apply decode_encode_bytes, arrayFromString_bytes.
Qed.

Lemma encode_string_url_chars str :
  forallb is_url_char (String.list_ascii_of_string (encode str)) = true.
Proof.
  rewrite <- (stringFromArray_arrayFromString str).
  apply encode_url_chars, arrayFromString_bytes.
Qed.

End Base64Text.

(** X6. The base64url text of [n] bytes has ceil(4n/3) characters, all of
    them letters, digits, [-] or [_]; in particular it contains no [.],
    the separator of the compact serialization. *)
Theorem encodeArray_url_alphabet (b : list Z) :
  Forall Utils.is_byte b ->
  exists s : string,
    Utils.Base64Url.encodeArray b = Resolved s
    /\ forallb is_url_char (String.list_ascii_of_string s) = true
    /\ Z.of_nat (String.length s) = (4 * Z.of_nat (length b) + 2) / 3
    /\ ~ In "."%char (String.list_ascii_of_string s).
Proof.
  intros Hb. exists (Utils.Base64Url.encode (Utils.stringFromArray b)).
  destruct (encode_url_chars b Hb) as [Hc Hn].
  split; [now apply encodeArray_bytes|]. split; [exact Hc|]. split; [exact Hn|].
  intros Hin. rewrite forallb_forall in Hc. apply Hc in Hin. discriminate.
Qed.

Lemma encodeArray_url_alphabet_witness :
  Forall Utils.is_byte [251; 255; 190; 62; 63]
  /\ exists s : string,
       Utils.Base64Url.encodeArray [251; 255; 190; 62; 63] = Resolved s
       /\ forallb is_url_char (String.list_ascii_of_string s) = true
       /\ Z.of_nat (String.length s) = (4 * Z.of_nat (length [251; 255; 190; 62; 63]) + 2) / 3
       /\ ~ In "."%char (String.list_ascii_of_string s).
Proof.
  assert (Hb : Forall Utils.is_byte [251; 255; 190; 62; 63]).
  { repeat (apply List.Forall_cons; [unfold Utils.is_byte; lia|]). apply List.Forall_nil. }
  split; [exact Hb | exact (encodeArray_url_alphabet _ Hb)].
Defined.

(** X7. On strings, [Base64Url.decode] undoes [Base64Url.encode]: the
    text of every string (of code units below 256, which are the strings
    [btoa] accepts) decodes to that string. *)
Theorem Base64Url_decode_encode (str : string) :
  Utils.Base64Url.decode (Utils.Base64Url.encode str) = Resolved str
  /\ forallb is_url_char (String.list_ascii_of_string (Utils.Base64Url.encode str)) = true.
Proof. split; [apply decode_encode_string | apply encode_string_url_chars]. Qed.

(** ** RSA keys *)

Section RsaKeys.
Import Utils.

Lemma stripLeadingZeros_bytes arr : Forall is_byte arr -> Forall is_byte (stripLeadingZeros arr).
Proof.
  intros Ha. destruct (stripLeadingZeros_cases arr) as (k & Hk & _).
  rewrite Hk in Ha. now apply Forall_app in Ha as [_ Ha].
Qed.

Lemma is_hex_not_colon x : is_hex x = true -> Ascii.eqb x ":" = false.
Proof. destruct (Ascii.eqb_spec x ":") as [->|_]; [discriminate | reflexivity]. Qed.

Lemma hex_digit_range x : is_hex x = true -> 0 <= hex_digit x < 16.
Proof.
  unfold is_hex, hex_digit. cbv zeta. intros Hx.
  repeat match goal with
         | |- context [?a <=? ?b] => destruct (Z.leb_spec a b)
         end; simpl in Hx; try discriminate; lia.
Qed.

Lemma split_list_hex_pairs l :
  hex_pairs l = true -> Forall hex_pair (split_list ":" l).
Proof.
  induction l as [|a|a b|a b c l IH] using list_ind3; try discriminate.
  - simpl. intros Hab. apply andb_prop in Hab as [Ha Hb].
    rewrite (is_hex_not_colon a Ha), (is_hex_not_colon b Hb).
    apply List.Forall_cons; [now exists a, b | apply List.Forall_nil].
  - intros Hl.
    assert (Hc : ((is_hex a && is_hex b) && Ascii.eqb c ":") && hex_pairs l = true)
      by (destruct l as [|? [|? ?]]; exact Hl).
    clear Hl. apply andb_prop in Hc as [Hc Hrest]. apply andb_prop in Hc as [Hc Hcol].
    apply andb_prop in Hc as [Ha Hb].
    cbn [split_list]. rewrite (is_hex_not_colon a Ha), (is_hex_not_colon b Hb), Hcol.
    apply List.Forall_cons; [now exists a, b | now apply IH].
Qed.

Lemma hex_colon_test_pairs s :
  hex_colon_test s = true ->
  Forall hex_pair (split_list ":" (String.list_ascii_of_string s)).
Proof.
  unfold hex_colon_test. intros Hs. apply split_list_hex_pairs.
  destruct (String.list_ascii_of_string s) as [|a [|b [|c l]]]; try discriminate.
  destruct l as [|? [|? ?]]; exact Hs.
Qed.

Lemma intFromHex_pair piece :
  hex_pair piece -> is_byte (intFromHex (String.string_of_list_ascii piece)).
Proof.
  intros (x & y & -> & Hx & Hy). unfold intFromHex.
  rewrite String.list_ascii_of_string_of_list_ascii. simpl.
  pose proof (hex_digit_range x Hx). pose proof (hex_digit_range y Hy).
  unfold is_byte. lia.
Qed.

Lemma hex_bytes s :
  hex_colon_test s = true -> Forall is_byte (map intFromHex (split ":" s)).
Proof.
  intros Hs. unfold split. rewrite map_map. apply Forall_map.
  eapply Forall_impl; [exact (hex_colon_test_pairs s Hs)|].
  intros piece. apply intFromHex_pair.
Qed.

(** Base64url text is never of the colon-delimited form. *)
Lemma url_text_not_hex s :
  forallb is_url_char (String.list_ascii_of_string s) = true -> hex_colon_test s = false.
Proof.
  unfold hex_colon_test. intros Hs.
  destruct (String.list_ascii_of_string s) as [|a [|b [|c l]]]; try reflexivity.
  simpl in Hs. repeat (apply andb_prop in Hs as [? Hs]).
  destruct (Ascii.eqb_spec c ":") as [->|_]; [discriminate|].
  now rewrite andb_false_r.
Qed.

(** What the loop stores for a member, by its shape. *)
Lemma convertRsaKey_value_exponent z :
  convertRsaKey_value "e" (VNumber z)
  = Resolved (VString (Base64Url.encode
                         (stringFromArray (stripLeadingZeros (arrayFromInt32 z))))).
Proof.
  unfold convertRsaKey_value. simpl String.eqb. cbv iota.
  rewrite encodeArray_bytes; [reflexivity|].
  apply stripLeadingZeros_bytes. rewrite arrayFromInt32_be_word. apply uint32_be_bytes.
Qed.

Lemma convertRsaKey_value_hex p s :
  p <> "e" -> hex_colon_test s = true ->
  convertRsaKey_value p (VString s)
  = Resolved (VString (Base64Url.encode
                         (stringFromArray
                            (stripLeadingZeros (map intFromHex (split ":" s)))))).
Proof.
  intros Hp Hs. unfold convertRsaKey_value.
  destruct (String.eqb_spec p "e") as [?|_]; [contradiction|].
  change (ToString (VString s)) with s. rewrite Hs.
  rewrite encodeArray_bytes; [reflexivity|].
  now apply stripLeadingZeros_bytes, hex_bytes.
Qed.

Lemma convertRsaKey_value_string p v v' :
  p <> "e" -> convertRsaKey_value p v = Resolved v' -> exists s, v = VString s.
Proof.
  intros Hp. unfold convertRsaKey_value.
  destruct (String.eqb_spec p "e") as [?|_]; [contradiction|].
  destruct (hex_colon_test (ToString v)); destruct v; try discriminate; eauto.
Qed.

Lemma convertRsaKey_value_total p v :
  (p <> "e" -> exists s, v = VString s) -> exists v', convertRsaKey_value p v = Resolved v'.
Proof.
  intros Hv. destruct (String.eqb_spec p "e") as [->|Hp].
  - destruct v; try (eexists; reflexivity).
    eexists. apply convertRsaKey_value_exponent.
  - destruct (Hv Hp) as [s ->].
    destruct (hex_colon_test s) eqn:Hs.
    + eexists. now apply convertRsaKey_value_hex.
    + unfold convertRsaKey_value.
      destruct (String.eqb_spec p "e") as [?|_]; [contradiction|].
      change (ToString (VString s)) with s. rewrite Hs. eexists. reflexivity.
Qed.

(** A stored value is stored again unchanged. *)
Lemma convertRsaKey_value_fixed p v v' :
  convertRsaKey_value p v = Resolved v' ->
  convertRsaKey_value p v' = Resolved v' /\ (v <> VUndefined -> v' <> VUndefined).
Proof.
  intros Hv. destruct (String.eqb_spec p "e") as [->|Hp].
  - destruct v; try (injection Hv as <-; split; [reflexivity | intros Hn; exact Hn]).
    rewrite convertRsaKey_value_exponent in Hv. injection Hv as <-.
    split; [reflexivity | discriminate].
  - destruct (convertRsaKey_value_string p v v' Hp Hv) as [s ->].
    destruct (hex_colon_test s) eqn:Hs.
    + rewrite convertRsaKey_value_hex in Hv by assumption. injection Hv as <-.
      split; [|discriminate]. unfold convertRsaKey_value.
      destruct (String.eqb_spec p "e") as [?|_]; [contradiction|].
      change (ToString (VString s)) with s. rewrite url_text_not_hex; [reflexivity|].
      now apply encode_url_chars, stripLeadingZeros_bytes, hex_bytes.
    + assert (Hf : convertRsaKey_value p (VString s) = Resolved (VString s)).
      { unfold convertRsaKey_value.
        destruct (String.eqb_spec p "e") as [?|_]; [contradiction|].
        change (ToString (VString s)) with s. now rewrite Hs. }
      rewrite Hf in Hv. injection Hv as <-. split; [exact Hf | discriminate].
Qed.

Lemma loop_total (k : gmap string value) (ps : list string) :
  (forall p, In p ps -> exists v, convertRsaKey_value p (member k p) = Resolved v) ->
  forall r0, exists r, convertRsaKey_loop k ps r0 = Resolved r.
Proof.
  induction ps as [|p ps IH]; intros Hps r0; simpl; [now eexists|].
  destruct (Hps p) as [v ->]; [now left|]. simpl. apply IH.
  intros q Hq. apply Hps. now right.
Qed.

Lemma loop_ext_in (k1 k2 : gmap string value) (ps : list string) :
  (forall p, In p ps ->
     convertRsaKey_value p (member k1 p) = convertRsaKey_value p (member k2 p)) ->
  forall r, convertRsaKey_loop k1 ps r = convertRsaKey_loop k2 ps r.
Proof.
  induction ps as [|p ps IH]; intros E r; simpl; [reflexivity|].
  rewrite (E p) by now left.
  destruct (convertRsaKey_value p (member k2 p)); simpl; try reflexivity.
  apply IH. intros q Hq. apply E. now right.
Qed.

Lemma loop_dom (k : gmap string value) (ps : list string) :
  forall r0 r, convertRsaKey_loop k ps r0 = Resolved r ->
    dom r = dom r0 ∪ (list_to_set ps : gset string).
Proof.
  induction ps as [|p ps IH]; intros r0 r Hr; simpl in Hr.
  - injection Hr as <-. simpl. now rewrite (right_id_L ∅ (∪)).
  - destruct (convertRsaKey_value p (member k p)) as [v|e|e]; try discriminate.
    simpl in Hr. rewrite (IH _ _ Hr), dom_insert_L. simpl.
    rewrite (comm_L (∪) {[p]} (dom r0)), <- (assoc_L (∪)). reflexivity.
Qed.

Lemma convertRsaKey_loop_eq rsa_key parameters :
  (forall p, In p parameters -> member rsa_key p <> VUndefined) ->
  kty_ok rsa_key -> alg_ok rsa_key ->
  convertRsaKey rsa_key parameters
  = convertRsaKey_loop rsa_key parameters
      (<["alg" := VString "RSA-OAEP"]> (<["kty" := VString "RSA"]> ∅)).
Proof.
  intros Hm Hk Ha. unfold convertRsaKey. cbv zeta.
  assert (E : List.filter (fun p => is_undefined (member rsa_key p)) parameters = []).
  { induction parameters as [|p ps IH]; [reflexivity|]. simpl.
    destruct (member rsa_key p) eqn:Ep; simpl;
      try (apply IH; intros q Hq; apply Hm; now right).
    exfalso. apply (Hm p); [now left | exact Ep]. }
  rewrite E. simpl.
  assert (Ek : (if negb (is_undefined (member rsa_key "kty"))
                then assert (loose_eq_string (member rsa_key "kty") "RSA")
                       "convertRsaKey: expecting rsa_key['kty'] to be 'RSA'"
                else Resolved tt) = Resolved tt).
  { destruct Hk as [->| ->]; [reflexivity|].
    destruct (is_undefined (member rsa_key "kty")); reflexivity. }
  assert (Ea : (if negb (is_undefined (member rsa_key "alg"))
                then assert (loose_eq_string (member rsa_key "alg") "RSA-OAEP")
                       "convertRsaKey: expecting rsa_key['alg'] to be 'RSA-OAEP'"
                else Resolved tt) = Resolved tt).
  { destruct Ha as [->| ->]; [reflexivity|].
    destruct (is_undefined (member rsa_key "alg")); reflexivity. }
  rewrite Ek. simpl. rewrite Ea. reflexivity.
Qed.

Lemma convertRsaKey_checks rsa_key parameters r :
  convertRsaKey rsa_key parameters = Resolved r ->
  (forall p, In p parameters -> member rsa_key p <> VUndefined)
  /\ kty_ok rsa_key /\ alg_ok rsa_key.
Proof.
  unfold convertRsaKey. cbv zeta. intros Hr.
  destruct (List.filter _ parameters) as [|m ms] eqn:Em; [|discriminate].
  simpl in Hr.
  assert (Hm : forall p, In p parameters -> member rsa_key p <> VUndefined).
  { intros p Hp Hu.
    assert (Hin : In p (List.filter (fun p => is_undefined (member rsa_key p)) parameters))
      by (apply filter_In; split; [exact Hp | now rewrite Hu]).
    now rewrite Em in Hin. }
  split; [exact Hm|].
  assert (Hu : forall v, is_undefined v = true -> v = VUndefined)
    by (intros []; (reflexivity || discriminate)).
  unfold kty_ok, alg_ok.
  destruct (is_undefined (member rsa_key "kty")) eqn:Uk; simpl in Hr.
  - split; [left; now apply Hu|].
    destruct (is_undefined (member rsa_key "alg")) eqn:Ua; simpl in Hr;
      [left; now apply Hu|].
    right. now destruct (loose_eq_string (member rsa_key "alg") "RSA-OAEP").
  - destruct (loose_eq_string (member rsa_key "kty") "RSA"); [|discriminate].
    split; [now right|]. simpl in Hr.
    destruct (is_undefined (member rsa_key "alg")) eqn:Ua; simpl in Hr;
      [left; now apply Hu|].
    right. now destruct (loose_eq_string (member rsa_key "alg") "RSA-OAEP").
Qed.

End RsaKeys.

Section RsaKeyResults.
Import Utils.

Lemma convertRsaKey_run rsa_key parameters r :
  convertRsaKey rsa_key parameters = Resolved r ->
  convertRsaKey_loop rsa_key parameters
    (<["alg" := VString "RSA-OAEP"]> (<["kty" := VString "RSA"]> ∅)) = Resolved r.
Proof.
  intros Hr. destruct (convertRsaKey_checks _ _ _ Hr) as (Hm & Hk & Ha).
  now rewrite <- (convertRsaKey_loop_eq _ _ Hm Hk Ha).
Qed.

Lemma loose_eq_string_name v v' p lit :
  p <> "e" -> convertRsaKey_value p v = Resolved v' ->
  loose_eq_string v lit = true -> hex_colon_test lit = false -> v' = VString lit.
Proof.
  intros Hp Hv Hl Hh. destruct (convertRsaKey_value_string p v v' Hp Hv) as [s ->].
  simpl in Hl. apply String.eqb_eq in Hl. subst s.
  unfold convertRsaKey_value in Hv.
  destruct (String.eqb_spec p "e") as [?|_]; [contradiction|].
  change (ToString (VString lit)) with lit in Hv. rewrite Hh in Hv. congruence.
Qed.

Lemma convertRsaKey_kty_alg rsa_key parameters r :
  convertRsaKey rsa_key parameters = Resolved r ->
  r !! "kty" = Some (VString "RSA") /\ r !! "alg" = Some (VString "RSA-OAEP").
Proof.
  intros Hr. destruct (convertRsaKey_checks _ _ _ Hr) as (Hm & Hk & Ha).
  apply convertRsaKey_run in Hr. split.
  - destruct (loop_lookup _ _ _ _ "kty" Hr) as [Hin Hout].
    destruct (decide ("kty" ∈ parameters)) as [Hp|Hp].
    + destruct (Hin Hp) as (v & Hv & ->). f_equal.
      destruct Hk as [Hk|Hk]; [now apply Hm in Hk; [|apply list_elem_of_In]|].
      now apply (loose_eq_string_name _ _ "kty" "RSA" ltac:(discriminate) Hv Hk).
    + now rewrite (Hout Hp).
  - destruct (loop_lookup _ _ _ _ "alg" Hr) as [Hin Hout].
    destruct (decide ("alg" ∈ parameters)) as [Hp|Hp].
    + destruct (Hin Hp) as (v & Hv & ->). f_equal.
      destruct Ha as [Ha|Ha]; [now apply Hm in Ha; [|apply list_elem_of_In]|].
      now apply (loose_eq_string_name _ _ "alg" "RSA-OAEP" ltac:(discriminate) Hv Ha).
    + now rewrite (Hout Hp).
Qed.

Lemma convertRsaKey_dom rsa_key parameters r :
  convertRsaKey rsa_key parameters = Resolved r ->
  dom r = ({["alg"]} ∪ ({["kty"]} ∪ ∅)) ∪ (list_to_set parameters : gset string).
Proof.
  intros Hr. apply convertRsaKey_run in Hr.
  now rewrite (loop_dom _ _ _ _ Hr), !dom_insert_L, dom_empty_L.
Qed.

End RsaKeyResults.

(** X8. [convertRsaKey] makes its checks in a fixed order.  If members
    asked for are missing it raises "Was expecting" with all their names,
    in the order asked, separated by commas; otherwise a [kty] that is
    present and is not "RSA" is refused, and then an [alg] that is present
    and is not "RSA-OAEP". *)
Theorem convertRsaKey_rejections (rsa_key : gmap string value) (parameters : list string) :
  let missing :=
    List.filter (fun p => Utils.is_undefined (Utils.member rsa_key p)) parameters in
  (missing <> [] ->
     Utils.convertRsaKey rsa_key parameters
     = Thrown (Error ("convertRsaKey: Was expecting " +:+ join "," missing)))
  /\ (missing = [] -> ~ kty_ok rsa_key ->
        Utils.convertRsaKey rsa_key parameters
        = Thrown (Error "convertRsaKey: expecting rsa_key['kty'] to be 'RSA'"))
  /\ (missing = [] -> kty_ok rsa_key -> ~ alg_ok rsa_key ->
        Utils.convertRsaKey rsa_key parameters
        = Thrown (Error "convertRsaKey: expecting rsa_key['alg'] to be 'RSA-OAEP'")).
Proof.
  assert (Hu : forall v, Utils.is_undefined v = true -> v = VUndefined)
    by (intros []; (reflexivity || discriminate)).
  cbv zeta. unfold Utils.convertRsaKey. cbv zeta.
  destruct (List.filter _ parameters) as [|m ms]; simpl.
  - split; [intros Hn; now contradict Hn|]. split.
    + intros _ Hk. unfold kty_ok in Hk.
      destruct (Utils.is_undefined (Utils.member rsa_key "kty")) eqn:U;
        [contradict Hk; left; now apply Hu|]. simpl.
      destruct (loose_eq_string (Utils.member rsa_key "kty") "RSA");
        [contradict Hk; now right | reflexivity].
    + intros _ Hk Ha. unfold alg_ok in Ha.
      assert (Ek : (if negb (Utils.is_undefined (Utils.member rsa_key "kty"))
                    then assert (loose_eq_string (Utils.member rsa_key "kty") "RSA")
                           "convertRsaKey: expecting rsa_key['kty'] to be 'RSA'"
                    else Resolved tt) = Resolved tt).
      { destruct Hk as [->| ->]; [reflexivity|].
        destruct (Utils.is_undefined (Utils.member rsa_key "kty")); reflexivity. }
      rewrite Ek. simpl.
      destruct (Utils.is_undefined (Utils.member rsa_key "alg")) eqn:U;
        [contradict Ha; left; now apply Hu|]. simpl.
      destruct (loose_eq_string (Utils.member rsa_key "alg") "RSA-OAEP");
        [contradict Ha; now right | reflexivity].
  - split; [reflexivity|]. split; discriminate.
Qed.

Lemma convertRsaKey_rejections_witness :
  Utils.convertRsaKey {["e" := VNumber 65537; "kty" := VString "EC"]} ["n"; "e"; "d"]
  = Thrown (Error "convertRsaKey: Was expecting n,d")
  /\ Utils.convertRsaKey {["n" := VString "AQAB"; "kty" := VString "EC"]} ["n"]
     = Thrown (Error "convertRsaKey: expecting rsa_key['kty'] to be 'RSA'").
Proof.
  split.
  - refine (proj1 (convertRsaKey_rejections
                     {["e" := VNumber 65537; "kty" := VString "EC"]} ["n"; "e"; "d"]) _).
    vm_compute. discriminate.
  - refine (proj1 (proj2 (convertRsaKey_rejections
                            {["n" := VString "AQAB"; "kty" := VString "EC"]} ["n"])) _ _).
    + vm_compute. reflexivity.
    + intros [Hk|Hk]; vm_compute in Hk; discriminate.
Defined.

(** X9. On keys whose numbers are integers, as the values of this
    development are, [convertRsaKey] succeeds exactly when every member
    asked for is present, [kty] and [alg] are missing or have the expected
    names, and every member asked for other than [e] is a string.  Of [e]
    nothing more is asked: a string, a boolean, null, an array, an object
    and every integer are accepted.  (NaN, the one number that
    [arrayFromInt32] refuses, is not a value of the development.) *)
Theorem convertRsaKey_accepts (rsa_key : gmap string value) (parameters : list string) :
  (exists r, Utils.convertRsaKey rsa_key parameters = Resolved r)
  <-> (forall p, In p parameters -> Utils.member rsa_key p <> VUndefined)
      /\ kty_ok rsa_key /\ alg_ok rsa_key
      /\ (forall p, In p parameters -> p <> "e" ->
            exists s, Utils.member rsa_key p = VString s).
Proof.
  split.
  - intros [r Hr]. destruct (convertRsaKey_checks _ _ _ Hr) as (Hm & Hk & Ha).
    repeat split; try assumption.
    intros p Hp Hne. apply convertRsaKey_run in Hr.
    destruct (loop_lookup _ _ _ _ p Hr) as [Hin _].
    destruct (Hin ltac:(now apply list_elem_of_In)) as (v & Hv & _).
    exact (convertRsaKey_value_string p _ v Hne Hv).
  - intros (Hm & Hk & Ha & Hs). rewrite (convertRsaKey_loop_eq _ _ Hm Hk Ha).
    apply loop_total. intros p Hp. apply convertRsaKey_value_total. now apply Hs.
Qed.

Lemma convertRsaKey_accepts_witness :
  (exists r, Utils.convertRsaKey {["n" := VString "wQ8"; "e" := VBool true]} ["n"; "e"]
             = Resolved r)
  /\ ~ (exists r, Utils.convertRsaKey {["n" := VNumber 5; "e" := VString "AQAB"]} ["n"; "e"]
                  = Resolved r).
Proof.
  split.
  - apply (proj2 (convertRsaKey_accepts {["n" := VString "wQ8"; "e" := VBool true]}
                    ["n"; "e"])).
    split; [intros p [<-|[<-|[]]]; vm_compute; discriminate|].
    split; [left; reflexivity|]. split; [left; reflexivity|].
    intros p [<-|[<-|[]]] Hne; [now exists "wQ8" | now contradict Hne].
  - intros Hr.
    apply (proj1 (convertRsaKey_accepts {["n" := VNumber 5; "e" := VString "AQAB"]}
                    ["n"; "e"])) in Hr.
    destruct Hr as (_ & _ & _ & Hs).
    destruct (Hs "n" ltac:(now left) ltac:(discriminate)) as [s Hn].
    vm_compute in Hn. discriminate.
Defined.

(** X10. The key [convertRsaKey] returns has the members asked for and
    [kty] and [alg], and no other: [kty] is "RSA", [alg] is "RSA-OAEP",
    every member other than [e] is a string, and whatever else the input
    key holds is left out. *)
Theorem convertRsaKey_members (rsa_key : gmap string value) (parameters : list string)
    (r : gmap string value) :
  Utils.convertRsaKey rsa_key parameters = Resolved r ->
  (forall p : string, is_Some (r !! p) <-> p = "kty" \/ p = "alg" \/ In p parameters)
  /\ r !! "kty" = Some (VString "RSA")
  /\ r !! "alg" = Some (VString "RSA-OAEP")
  /\ (forall p, In p parameters -> p <> "e" -> exists s, r !! p = Some (VString s))
  /\ (forall p, In p parameters ->
        exists v, Utils.convertRsaKey_value p (Utils.member rsa_key p) = Resolved v
                  /\ r !! p = Some v).
Proof.
  intros Hr. destruct (convertRsaKey_kty_alg _ _ _ Hr) as [Hk Ha].
  pose proof (convertRsaKey_dom _ _ _ Hr) as Hd.
  pose proof (convertRsaKey_run _ _ _ Hr) as Hl.
  assert (Hv : forall p, In p parameters ->
             exists v, Utils.convertRsaKey_value p (Utils.member rsa_key p) = Resolved v
                       /\ r !! p = Some v).
  { intros p Hp. destruct (loop_lookup _ _ _ _ p Hl) as [Hin _].
    now apply Hin, list_elem_of_In. }
  split; [|split; [exact Hk|split; [exact Ha|split; [|exact Hv]]]].
  - intros p. rewrite <- elem_of_dom, Hd, !elem_of_union, !elem_of_singleton,
      elem_of_list_to_set, list_elem_of_In.
    split; [intros [[->|[->|Hn]]|Hp] | intros [->|[->|Hp]]]; auto.
    now apply elem_of_empty in Hn.
  - intros p Hp Hne. destruct (Hv p Hp) as (v & Hc & ->).
    pose proof (convertRsaKey_value_fixed p _ v Hc) as [Hf _].
    destruct (convertRsaKey_value_string p v v Hne Hf) as [s ->]. now exists s.
Qed.

Lemma convertRsaKey_members_witness :
  exists r,
    Utils.convertRsaKey {["n" := VString "00:c1:0f"; "e" := VNumber 65537;
                          "d" := VString "c2VjcmV0"]} ["n"; "e"] = Resolved r
    /\ r !! "d" = None /\ r !! "n" = Some (VString "wQ8") /\ r !! "e" = Some (VString "AQAB")
    /\ r !! "kty" = Some (VString "RSA").
Proof.
  set (r := <["e" := VString "AQAB"]> (<["n" := VString "wQ8"]>
              (<["alg" := VString "RSA-OAEP"]> (<["kty" := VString "RSA"]> ∅)))
            : gmap string value).
  assert (Hr : Utils.convertRsaKey {["n" := VString "00:c1:0f"; "e" := VNumber 65537;
                                     "d" := VString "c2VjcmV0"]} ["n"; "e"] = Resolved r)
    by (vm_compute; reflexivity).
  exists r. split; [exact Hr|].
  destruct (convertRsaKey_members _ _ r Hr) as (Hd & Hk & _ & _ & Hv).
  split.
  - destruct (r !! "d") as [v|] eqn:E; [|reflexivity].
    assert (Hs : is_Some (r !! "d")) by (rewrite E; now eexists).
    destruct (proj1 (Hd "d") Hs) as [?|[?|[?|[?|[]]]]]; discriminate.
  - destruct (Hv "n" ltac:(now left)) as (v & Hc & ->).
    destruct (Hv "e" ltac:(right; now left)) as (w & Hw & ->).
    vm_compute in Hc, Hw. injection Hc as <-. injection Hw as <-. now repeat split.
Defined.

(** X11. A member other than [e] written as colon-separated pairs of
    hexadecimal digits is replaced by the base64url text of the bytes the
    pairs denote, without their leading zero bytes.  The conversion does
    not fail, and its result is no longer of the colon-separated form. *)
Theorem convertRsaKey_colon_hex (p s : string) :
  p <> "e" -> Utils.hex_colon_test s = true ->
  exists out : string,
    Utils.convertRsaKey_value p (VString s) = Resolved (VString out)
    /\ Forall hex_pair (Utils.split_list ":" (String.list_ascii_of_string s))
    /\ Forall Utils.is_byte (map Utils.intFromHex (Utils.split ":" s))
    /\ Utils.Base64Url.decodeArray out
       = Resolved (Utils.stripLeadingZeros (map Utils.intFromHex (Utils.split ":" s)))
    /\ Utils.hex_colon_test out = false.
Proof.
  intros Hp Hs. eexists. split; [now apply convertRsaKey_value_hex|].
  split; [now apply hex_colon_test_pairs|]. split; [now apply hex_bytes|].
  assert (Hb : Forall Utils.is_byte
                 (Utils.stripLeadingZeros (map Utils.intFromHex (Utils.split ":" s))))
    by now apply stripLeadingZeros_bytes, hex_bytes.
  split; [now apply decodeArray_encode|].
  now apply url_text_not_hex, encode_url_chars.
Qed.

Lemma convertRsaKey_colon_hex_witness :
  "n" <> "e" /\ Utils.hex_colon_test "00:c1:0f" = true
  /\ Utils.convertRsaKey_value "n" (VString "00:c1:0f") = Resolved (VString "wQ8")
  /\ Utils.Base64Url.decodeArray "wQ8" = Resolved [193; 15].
Proof.
  assert (Hp : "n" <> "e") by discriminate.
  assert (Hs : Utils.hex_colon_test "00:c1:0f" = true) by reflexivity.
  split; [exact Hp|]. split; [exact Hs|].
  destruct (convertRsaKey_colon_hex "n" "00:c1:0f" Hp Hs) as (out & Hv & _ & _ & Hd & _).
  assert (Ho : out = "wQ8") by (vm_compute in Hv; congruence). subst out.
  split; [exact Hv | exact Hd].
Defined.

(** X12. A number given for [e] is replaced by the base64url text of its
    big-endian bytes, without leading zero bytes, once reduced modulo
    2^32: the text of a number from 0 to 2^32 - 1 denotes that number, and
    a number outside this range is silently replaced by its residue. *)
Theorem convertRsaKey_number_exponent (z : Z) :
  exists (out : string) (bytes : list Z),
    Utils.convertRsaKey_value "e" (VNumber z) = Resolved (VString out)
    /\ Utils.Base64Url.decodeArray out = Resolved bytes
    /\ big_endian bytes = z mod 2 ^ 32
    /\ head bytes <> Some 0
    /\ Utils.convertRsaKey_value "e" (VNumber (z + 2 ^ 32))
       = Utils.convertRsaKey_value "e" (VNumber z).
Proof.
  exists (Utils.Base64Url.encode
            (Utils.stringFromArray (Utils.stripLeadingZeros (Utils.arrayFromInt32 z)))),
         (Utils.stripLeadingZeros (Utils.arrayFromInt32 z)).
  split; [apply convertRsaKey_value_exponent|].
  assert (Hb : Forall Utils.is_byte (Utils.stripLeadingZeros (Utils.arrayFromInt32 z))).
  { apply stripLeadingZeros_bytes. rewrite arrayFromInt32_be_word. apply uint32_be_bytes. }
  split; [now apply decodeArray_encode|].
  destruct (stripLeadingZeros_cases (Utils.arrayFromInt32 z)) as (k & Hk & Hh & _).
  split; [|split; [exact Hh|]].
  - transitivity (big_endian (Utils.arrayFromInt32 z)).
    + rewrite Hk at 2. rewrite big_endian_app, big_endian_zeros. lia.
    + rewrite arrayFromInt32_be_word, uint32_be_value. apply Z.mod_mod. lia.
  - rewrite !convertRsaKey_value_exponent, !arrayFromInt32_be_word.
    assert (Hz : (z + 2 ^ 32) mod 2 ^ 32 = z mod 2 ^ 32)
      by (rewrite <- (Z_mod_plus_full z 1 (2 ^ 32)); f_equal; lia).
    now rewrite Hz.
Qed.

(** X13. Converting a converted key changes nothing: the result of
    [convertRsaKey] is accepted by [convertRsaKey], with the same
    parameters, and returned as it is. *)
Theorem convertRsaKey_idempotent (rsa_key : gmap string value) (parameters : list string)
    (r : gmap string value) :
  Utils.convertRsaKey rsa_key parameters = Resolved r ->
  Utils.convertRsaKey r parameters = Resolved r.
Proof.
  intros Hr. destruct (convertRsaKey_checks _ _ _ Hr) as (Hm & _ & _).
  destruct (convertRsaKey_kty_alg _ _ _ Hr) as [Hk Ha].
  pose proof (convertRsaKey_run _ _ _ Hr) as Hl.
  assert (Hv : forall p, In p parameters ->
             exists v, Utils.convertRsaKey_value p (Utils.member rsa_key p) = Resolved v
                       /\ Utils.member r p = v).
  { intros p Hp. destruct (loop_lookup _ _ _ _ p Hl) as [Hin _].
    destruct (Hin ltac:(now apply list_elem_of_In)) as (v & Hc & Hp').
    exists v. split; [exact Hc|]. unfold Utils.member. now rewrite Hp'. }
  rewrite convertRsaKey_loop_eq.
  - rewrite <- Hl. apply loop_ext_in. intros p Hp.
    destruct (Hv p Hp) as (v & Hc & ->). rewrite Hc.
    now apply (convertRsaKey_value_fixed p _ v Hc).
  - intros p Hp. destruct (Hv p Hp) as (v & Hc & ->).
    apply (convertRsaKey_value_fixed p _ v Hc). now apply Hm.
  - right. unfold Utils.member. now rewrite Hk.
  - right. unfold Utils.member. now rewrite Ha.
Qed.

Lemma convertRsaKey_idempotent_witness :
  exists r,
    Utils.convertRsaKey {["n" := VString "00:c1:0f"; "e" := VNumber 65537]} ["n"; "e"]
    = Resolved r
    /\ Utils.convertRsaKey r ["n"; "e"] = Resolved r.
Proof.
  set (r := <["e" := VString "AQAB"]> (<["n" := VString "wQ8"]>
              (<["alg" := VString "RSA-OAEP"]> (<["kty" := VString "RSA"]> ∅)))
            : gmap string value).
  assert (Hr : Utils.convertRsaKey {["n" := VString "00:c1:0f"; "e" := VNumber 65537]}
                 ["n"; "e"] = Resolved r)
    by (vm_compute; reflexivity).
  exists r. split; [exact Hr | exact (convertRsaKey_idempotent _ _ r Hr)].
Defined.

(** ** Further properties of decryption *)

Section DecryptMore.
Context `{H : Host}.

Lemma decryptCiphertext_aead_run this cek_promise (aad iv cipher_text tag : list Z) a :
  auth (content_encryption this) = Some a -> aead a = true ->
  Some (Z.of_nat (length iv)) = iv_bytes (content_encryption this) ->
  let dec := {| cp_name := alg_name (cfg_id (content_encryption this));
                cp_iv := iv;
                cp_additionalData := Some aad;
                cp_tagLength := times8 (tag_bytes a) |} in
  decryptCiphertext cek_promise aad iv cipher_text tag this =
  match cek_promise with
  | Resolved cek =>
      (settled (subtle_decrypt dec cek (cipher_text ++ tag)), this,
       [Decrypt dec cek (cipher_text ++ tag)])
  | Rejected e | Thrown e => (Rejected e, this, [])
  end.
Proof.
  intros Ha Hae Hiv. cbv zeta. unfold decryptCiphertext, bind, get_this.
  rewrite <- Hiv. simpl. rewrite Z.eqb_refl. simpl.
  unfold defined. rewrite Ha. simpl. rewrite Hae.
  destruct cek_promise as [cek|e|e]; try reflexivity.
  unfold then_, bind, lift, call_decrypt. rewrite arrayBufferConcat_concat. simpl.
  rewrite app_nil_r. destruct (subtle_decrypt _ _ _); reflexivity.
Qed.

(** With a key promise that is not fulfilled there is nothing to decrypt
    with: the content decryption fails and calls nothing. *)
Lemma decryptCiphertext_without_key this e (aad iv cipher_text tag : list Z) :
  let r := decryptCiphertext (Rejected e) aad iv cipher_text tag this in
  is_failure (result r) /\ trace r = [].
Proof.
  cbv zeta. unfold decryptCiphertext, bind, get_this.
  destruct (differs _ _); [split; [exact I | reflexivity]|].
  unfold defined. destruct (auth (content_encryption this)) as [a|];
    [|split; [exact I | reflexivity]].
  simpl. destruct (aead a); split; try exact I; reflexivity.
Qed.

Lemma decrypt_parts_without_key key_promise h ek ivs cs ts this (encrypted_cek : list Z) :
  Utils.Base64Url.decodeArray ek = Resolved encrypted_cek ->
  is_failure (result (decryptCek key_promise encrypted_cek this)) ->
  let r := decrypt_parts key_promise h ek ivs cs ts this in
  is_failure (result r)
  /\ trace r = trace (decryptCek key_promise encrypted_cek this)
  /\ final_this r = this.
Proof.
  intros Hek Hf. cbv zeta. split; [|split; [|apply preserves_decrypt_parts]].
  all: unfold decrypt_parts.
  all: rewrite Hek, bind_lift, bind_promise_unfold, (preserves_decryptCek key_promise _ this).
  all: destruct (result (decryptCek key_promise encrypted_cek this)) as [cek|e|e];
    [contradiction| |try exact I; reflexivity].
  all: pose proof (part3_cases (Rejected e) h ivs cs ts this) as Hp; cbv zeta in Hp.
  all: destruct Hp as [[Hpf Hpt]|(iv & cipher & tag & _ & _ & _ & Hpt & Hpr)].
  - exact Hpf.
  - unfold result at 1. simpl. rewrite Hpr.
    destruct (decryptCiphertext_without_key this e (Utils.arrayFromString h) iv cipher tag)
      as [Hd _].
    now destruct (result (decryptCiphertext _ _ _ _ _ _)).
  - rewrite trace_triple, Hpt. apply app_nil_r.
  - rewrite trace_triple, Hpt.
    destruct (decryptCiphertext_without_key this e (Utils.arrayFromString h) iv cipher tag)
      as [_ ->]. apply app_nil_r.
Qed.

End DecryptMore.

(** X14. [decryptCek] unwraps the encrypted key with one call to
    [unwrapKey], under the key-encryption algorithm of the instance, and
    makes no call when the key promise is rejected.  For an AEAD suite the
    key is unwrapped as a key of the suite itself that cannot be exported
    and serves to decrypt; for a composite suite it is unwrapped under a
    stand-in algorithm as a key that can be exported, so that it can be
    split: AES-CBC of 256 bits for A128CBC-HS256, HMAC with SHA-256 for
    A256CBC-HS512. *)
Theorem decryptCek_unwrap_call `{H : Host} (this : JoseJWE) (key_promise : outcome CryptoKey)
    (encrypted_cek : list Z) (enc : string) :
  In enc ["A128CBC-HS256"; "A256CBC-HS512"; "A128GCM"; "A256GCM"] ->
  getCryptoConfig_string enc = Some (content_encryption this) ->
  exists (inner : AlgorithmIdentifier) (extractable : bool) (usages : list string),
    decryptCek key_promise encrypted_cek this =
    match key_promise with
    | Resolved key =>
        (settled (subtle_unwrapKey encrypted_cek key (cfg_id (key_encryption this))
                    inner extractable usages),
         this,
         [UnwrapKey encrypted_cek key (cfg_id (key_encryption this))
            inner extractable usages])
    | Rejected e | Thrown e => (Rejected e, this, [])
    end
    /\ (extractable = true <-> composite (content_encryption this))
    /\ (extractable = false ->
          inner = cfg_id (content_encryption this) /\ usages = ["decrypt"])
    /\ (enc = "A128CBC-HS256" ->
          inner = {| alg_name := "AES-CBC"; alg_hash := None; alg_length := Some 256 |}
          /\ usages = ["decrypt"])
    /\ (enc = "A256CBC-HS512" ->
          inner = {| alg_name := "HMAC"; alg_hash := Some "SHA-256"; alg_length := None |}
          /\ usages = ["verify"]).
Proof.
  intros Hin Hc.
  destruct (Utils.getCekWorkaround (content_encryption this)) as [hack|e|e] eqn:Hh.
  2,3: exfalso; remember (content_encryption this) as ce eqn:Ece; simpl in Hin;
    repeat (destruct Hin as [<-|Hin];
            [vm_compute in Hc; injection Hc as <-; vm_compute in Hh; discriminate Hh|]);
    contradiction.
  exists (Utils.hack_id hack),
         (match specific_cek_bytes (content_encryption this) with
          | Some n => 0 <? n
          | None => false
          end),
         (Utils.dec_op hack).
  split; [now apply decryptCek_run|].
  unfold composite. remember (content_encryption this) as ce eqn:Ece. clear Ece.
  simpl in Hin.
  repeat (destruct Hin as [<-|Hin];
          [vm_compute in Hc; injection Hc as <-;
           vm_compute in Hh; injection Hh as <-;
           repeat split; try discriminate; try reflexivity;
           try (intros _; first [left; reflexivity | right; reflexivity]);
           try (intros [E|E]; vm_compute in E; discriminate E)|]).
  contradiction.
Qed.

Lemma decryptCek_unwrap_call_witness :
  exists (inner : AlgorithmIdentifier) (usages : list string),
    result (decryptCek (H := TestHost.host) (Resolved Samples.wrapping_key) [1; 2; 3]
              EncryptSamples.A128KW_A256GCM)
    = settled (subtle_unwrapKey (Host := TestHost.host) [1; 2; 3] Samples.wrapping_key
                 (cfg_id (Samples.registry "A128KW")) inner false usages)
    /\ inner = cfg_id (Samples.registry "A256GCM") /\ usages = ["decrypt"].
Proof.
  destruct (decryptCek_unwrap_call (H := TestHost.host) EncryptSamples.A128KW_A256GCM
              (Resolved Samples.wrapping_key) [1; 2; 3] "A256GCM")
    as (inner & extractable & usages & Hrun & Hx & Hae & _).
  - simpl. tauto.
  - reflexivity.
  - assert (extractable = false) as ->.
    { destruct extractable; [|reflexivity].
      destruct (proj1 Hx eq_refl) as [E|E]; vm_compute in E; discriminate E. }
    destruct (Hae eq_refl) as [-> ->].
    eexists _, _. split; [|split; reflexivity].
    exact (f_equal result Hrun).
Defined.

(** X15. In an AEAD suite [decryptCiphertext] makes one provider call:
    [decrypt] on the ciphertext followed by the tag, with the IV, the
    additional data and the tag length of the suite in bits.  It exports,
    imports and signs nothing, and its result is that of the call. *)
Theorem decryptCiphertext_aead `{H : Host} (this : JoseJWE) (cek_promise : outcome CryptoKey)
    (aad iv cipher_text tag : list Z) (a : AuthConfig) :
  auth (content_encryption this) = Some a -> aead a = true ->
  Some (Z.of_nat (length iv)) = iv_bytes (content_encryption this) ->
  exists dec : CipherParams,
    cp_name dec = alg_name (cfg_id (content_encryption this))
    /\ cp_iv dec = iv /\ cp_additionalData dec = Some aad
    /\ cp_tagLength dec = (fun n => n * 8) <$> tag_bytes a
    /\ decryptCiphertext cek_promise aad iv cipher_text tag this =
       match cek_promise with
       | Resolved cek =>
           (settled (subtle_decrypt dec cek (cipher_text ++ tag)), this,
            [Decrypt dec cek (cipher_text ++ tag)])
       | Rejected e | Thrown e => (Rejected e, this, [])
       end.
Proof.
  intros Ha Hae Hiv. eexists. repeat split.
  5: exact (decryptCiphertext_aead_run this cek_promise aad iv cipher_text tag a Ha Hae Hiv).
  all: reflexivity.
Qed.

Lemma decryptCiphertext_aead_witness :
  exists dec : CipherParams,
    cp_tagLength dec = Some 128
    /\ trace (decryptCiphertext (H := TestHost.host) (Resolved Samples.cek) [1]
                (map Z.of_nat (seq 100 12)) [2; 3] [4; 5] EncryptSamples.A128KW_A256GCM)
       = [@Decrypt TestHost.host dec Samples.cek [2; 3; 4; 5]].
Proof.
  destruct (decryptCiphertext_aead (H := TestHost.host) EncryptSamples.A128KW_A256GCM
              (Resolved Samples.cek) [1] (map Z.of_nat (seq 100 12)) [2; 3] [4; 5]
              {| aead := true; tag_bytes := Some 16; key_bytes := None;
                 auth_id := None; truncated_bytes := None |}
              eq_refl eq_refl eq_refl)
    as (dec & _ & _ & _ & Ht & Hrun).
  exists dec. split; [exact Ht | exact (f_equal trace Hrun)].
Defined.

(** X16. When the header of a five-segment input is accepted and the
    encrypted key decodes, but the content encryption key cannot be
    obtained (the key promise is rejected, or [unwrapKey] fails),
    [decrypt] fails and makes no provider call beyond that of
    [decryptCek]: nothing is exported, imported, signed or decrypted. *)
Theorem decrypt_without_key `{H : Host} (key_promise : outcome CryptoKey) (this : JoseJWE)
    (jwe h ek ivs cs ts json : string) (header crit : value) (a e : string)
    (encrypted_cek : list Z) :
  Utils.split "." jwe = [h; ek; ivs; cs; ts] ->
  Utils.Base64Url.decode h = Resolved json ->
  JSON_parse json = Resolved header ->
  get header "alg" = Resolved (VString a) ->
  get header "enc" = Resolved (VString e) ->
  get header "crit" = Resolved crit -> truthy crit = false ->
  In a recognized -> In e recognized ->
  Utils.Base64Url.decodeArray ek = Resolved encrypted_cek ->
  exists ka ca,
    getCryptoConfig_string a = Some ka /\ getCryptoConfig_string e = Some ca
    /\ let this2 := {| key_encryption := ka; content_encryption := ca |} in
       (is_failure (result (decryptCek key_promise encrypted_cek this2)) ->
        is_failure (result (decrypt key_promise jwe this))
        /\ trace (decrypt key_promise jwe this)
           = trace (decryptCek key_promise encrypted_cek this2)
        /\ no_decrypt (trace (decrypt key_promise jwe this)))
       /\ (forall err, key_promise = Rejected err ->
             is_failure (result (decrypt key_promise jwe this))
             /\ trace (decrypt key_promise jwe this) = []).
Proof.
  intros Hs Hd Hp Ha He Hc Ht Hia Hie Hek.
  destruct (header_accepted h this json header a e crit Hd Hp Ha He Hc Ht Hia Hie)
    as (ka & ca & Hka & Hca & Hr).
  exists ka, ca. split; [exact Hka|]. split; [exact Hca|]. cbv zeta.
  rewrite (decrypt_header_ok key_promise this jwe h ek ivs cs ts _ _ Hs Hr).
  assert (Hmain : is_failure (result (decryptCek key_promise encrypted_cek
                                        {| key_encryption := ka; content_encryption := ca |})) ->
                  is_failure (result (decrypt_parts key_promise h ek ivs cs ts
                                        {| key_encryption := ka; content_encryption := ca |}))
                  /\ trace (decrypt_parts key_promise h ek ivs cs ts
                              {| key_encryption := ka; content_encryption := ca |})
                     = trace (decryptCek key_promise encrypted_cek
                                {| key_encryption := ka; content_encryption := ca |})).
  { intros Hf.
    destruct (decrypt_parts_without_key key_promise h ek ivs cs ts _ encrypted_cek Hek Hf)
      as (H1 & H2 & _). now split. }
  split.
  - intros Hf. destruct (Hmain Hf) as [H1 H2]. split; [exact H1|]. split; [exact H2|].
    rewrite H2. apply decryptCek_trace.
  - intros err ->.
    assert (Hrc : is_failure (result (decryptCek (Rejected err) encrypted_cek
                                        {| key_encryption := ka; content_encryption := ca |}))
                  /\ trace (decryptCek (Rejected err) encrypted_cek
                              {| key_encryption := ka; content_encryption := ca |}) = []).
    { unfold decryptCek, bind, get_this, lift. simpl.
      destruct (Utils.getCekWorkaround ca); split; try exact I; reflexivity. }
    destruct Hrc as [Hf Ht0]. destruct (Hmain Hf) as [H1 H2].
    split; [exact H1 | now rewrite H2].
Qed.

Lemma decrypt_without_key_witness :
  is_failure (result (decrypt (H := TestHost.host) (Rejected (HostError "DataError"))
                        Samples.composite_jwe Samples.fresh))
  /\ trace (decrypt (H := TestHost.host) (Rejected (HostError "DataError"))
              Samples.composite_jwe Samples.fresh) = [].
Proof.
  assert (Hs : Utils.split "." Samples.composite_jwe
               = [Samples.header; Samples.encrypted_key; Samples.iv_segment;
                  Samples.ciphertext_segment; Samples.tag_segment]) by reflexivity.
  assert (Hd : Utils.Base64Url.decode Samples.header = Resolved EncryptSamples.header_json)
    by (vm_compute; reflexivity).
  assert (Hp : JSON_parse (Host := TestHost.host) EncryptSamples.header_json
               = Resolved EncryptSamples.header_object) by (vm_compute; reflexivity).
  assert (Hek : Utils.Base64Url.decodeArray Samples.encrypted_key
                = Resolved EncryptSamples.wrapped_cek) by (vm_compute; reflexivity).
  destruct (decrypt_without_key (H := TestHost.host) (Rejected (HostError "DataError"))
              Samples.fresh Samples.composite_jwe Samples.header Samples.encrypted_key
              Samples.iv_segment Samples.ciphertext_segment Samples.tag_segment
              EncryptSamples.header_json EncryptSamples.header_object
              VUndefined "A128KW" "A128CBC-HS256" EncryptSamples.wrapped_cek
              Hs Hd Hp eq_refl eq_refl eq_refl eq_refl
              ltac:(simpl; tauto) ltac:(simpl; tauto) Hek)
    as (ka & ca & _ & _ & _ & Hrej).
  exact (Hrej _ eq_refl).
Defined.

Section HeaderFailures.
Context `{H : Host}.

Lemma set_key_encryption_thrown alg e this :
  getCryptoConfig alg = Thrown e -> set_key_encryption alg this = (Thrown e, this, []).
Proof.
  intros E. unfold set_key_encryption, setKeyEncryptionAlgorithm, bind, get_this, lift.
  now rewrite E.
Qed.

Lemma set_content_encryption_thrown alg e this :
  getCryptoConfig alg = Thrown e -> set_content_encryption alg this = (Thrown e, this, []).
Proof.
  intros E. unfold set_content_encryption, setContentEncryptionAlgorithm, bind, get_this, lift.
  now rewrite E.
Qed.

Lemma bind_thrown {A B} (m : M A) (k : A -> M B) this e this1 t :
  m this = (Thrown e, this1, t) -> bind m k this = (Thrown e, this1, t).
Proof. intros E. unfold bind. now rewrite E. Qed.

End HeaderFailures.

(** X17. How [decrypt] refuses a header, on a five-segment input.  A
    header segment that is not base64, a text that is not JSON and an
    [alg] or [enc] that is not a recognized identifier make [decrypt]
    throw, where a missing [alg] or [enc] makes it return a rejected
    promise.  In each case no provider call is made.  The instance is
    unchanged up to the failure on [alg]; a failure on [enc] leaves it
    with the key-encryption algorithm of the header and its former
    content-encryption algorithm. *)
Theorem decrypt_header_failures `{H : Host} (key_promise : outcome CryptoKey)
    (this : JoseJWE) (jwe h ek ivs cs ts : string) :
  Utils.split "." jwe = [h; ek; ivs; cs; ts] ->
  let r := decrypt key_promise jwe this in
  (forall e, Utils.Base64Url.decode h = Thrown e -> r = (Thrown e, this, []))
  /\ (forall json header alg,
        Utils.Base64Url.decode h = Resolved json ->
        (forall e, JSON_parse json = Thrown e -> r = (Thrown e, this, []))
        /\ (JSON_parse json = Resolved header -> get header "alg" = Resolved alg ->
            (truthy alg = false ->
               r = (Rejected (Reason "decrypt: missing alg"), this, []))
            /\ (truthy alg = true -> forall e, getCryptoConfig alg = Thrown e ->
                  r = (Thrown e, this, []))
            /\ (truthy alg = true -> forall ka enc,
                  getCryptoConfig alg = Resolved ka -> get header "enc" = Resolved enc ->
                  let this1 := {| key_encryption := ka;
                                  content_encryption := content_encryption this |} in
                  (truthy enc = false ->
                     r = (Rejected (Reason "decrypt: missing enc"), this1, []))
                  /\ (truthy enc = true -> forall e, getCryptoConfig enc = Thrown e ->
                        r = (Thrown e, this1, []))))).
Proof.
  intros Hs. cbv zeta. rewrite (decrypt_halves key_promise this jwe h ek ivs cs ts Hs).
  unfold read_header. split.
  - intros e ->. reflexivity.
  - intros json header alg ->. rewrite bind_assoc, bind_lift. split.
    + intros e ->. reflexivity.
    + intros Hp Ha. rewrite Hp, bind_assoc, bind_lift, Ha, bind_assoc, bind_lift.
      split; [intros ->; reflexivity|]. split.
      * intros -> e He. cbn [negb]. rewrite bind_assoc.
        now rewrite (bind_thrown _ _ _ e this [] (set_key_encryption_thrown alg e this He)).
      * intros -> ka enc Hka Henc. cbn [negb].
        rewrite bind_assoc,
          (bind_resolved _ _ _ tt _ (set_key_encryption_run alg ka this Hka)).
        rewrite Henc, bind_assoc, bind_lift.
        split; [intros ->; reflexivity|].
        intros -> e He. cbn [negb]. rewrite bind_assoc.
        now rewrite (bind_thrown _ _ _ e _ [] (set_content_encryption_thrown enc e _ He)).
Qed.

Lemma decrypt_header_failures_witness :
  decrypt (H := TestHost.host) (Resolved Samples.wrapping_key)
    (Samples.compact
       [Utils.Base64Url.encode (JSON_stringify_header (Some "A128KW") None);
        "AA"; "AA"; "AA"; "AA"]) Samples.fresh
  = (Rejected (Reason "decrypt: missing enc"),
     {| key_encryption := Samples.registry "A128KW";
        content_encryption := Samples.registry "A256GCM" |}, [])
  /\ decrypt (H := TestHost.host) (Resolved Samples.wrapping_key)
       (Samples.compact
          [Utils.Base64Url.encode (JSON_stringify_header (Some "none") (Some "A256GCM"));
           "AA"; "AA"; "AA"; "AA"]) Samples.fresh
     = (Thrown (Error "unsupported algorithm: none"), Samples.fresh, []).
Proof.
  split.
  - destruct (decrypt_header_failures (H := TestHost.host) (Resolved Samples.wrapping_key)
                Samples.fresh
                (Samples.compact
                   [Utils.Base64Url.encode (JSON_stringify_header (Some "A128KW") None);
                    "AA"; "AA"; "AA"; "AA"])
                (Utils.Base64Url.encode (JSON_stringify_header (Some "A128KW") None))
                "AA" "AA" "AA" "AA" ltac:(vm_compute; reflexivity)) as [_ Hh].
    destruct (Hh (JSON_stringify_header (Some "A128KW") None)
                 (VObject [("alg", VString "A128KW")]) (VString "A128KW")
                 ltac:(vm_compute; reflexivity)) as [_ Hp].
    destruct (Hp ltac:(vm_compute; reflexivity) eq_refl) as (_ & _ & He).
    destruct (He eq_refl (Samples.registry "A128KW") VUndefined eq_refl eq_refl) as [Hm _].
    exact (Hm eq_refl).
  - destruct (decrypt_header_failures (H := TestHost.host) (Resolved Samples.wrapping_key)
                Samples.fresh
                (Samples.compact
                   [Utils.Base64Url.encode
                      (JSON_stringify_header (Some "none") (Some "A256GCM"));
                    "AA"; "AA"; "AA"; "AA"])
                (Utils.Base64Url.encode (JSON_stringify_header (Some "none") (Some "A256GCM")))
                "AA" "AA" "AA" "AA" ltac:(vm_compute; reflexivity)) as [_ Hh].
    destruct (Hh (JSON_stringify_header (Some "none") (Some "A256GCM"))
                 (VObject [("alg", VString "none"); ("enc", VString "A256GCM")])
                 (VString "none") ltac:(vm_compute; reflexivity)) as [_ Hp].
    destruct (Hp ltac:(vm_compute; reflexivity) eq_refl) as (_ & Ha & _).
    exact (Ha eq_refl _ eq_refl).
Defined.

(** ** Encryption *)

Section CompactText.
Import Utils.

Lemma list_ascii_of_string_app (a b : string) :
  String.list_ascii_of_string (a +:+ b)
  = String.list_ascii_of_string a ++ String.list_ascii_of_string b.
Proof. induction a as [|c a IH]; simpl; [reflexivity | now rewrite IH]. Qed.

Lemma list_ascii_of_string_dot (s : string) :
  String.list_ascii_of_string ("." +:+ s) = "."%char :: String.list_ascii_of_string s.
Proof. reflexivity. Qed.

Lemma split_list_none (sep : ascii) l :
  Forall (fun c => Ascii.eqb c sep = false) l -> split_list sep l = [l].
Proof.
  induction 1 as [|c l Hc _ IH]; simpl; [reflexivity|]. now rewrite Hc, IH.
Qed.

Lemma split_list_app (sep : ascii) l1 l2 :
  Forall (fun c => Ascii.eqb c sep = false) l1 ->
  split_list sep (l1 ++ sep :: l2) = l1 :: split_list sep l2.
Proof.
  induction 1 as [|c l1 Hc _ IH]; simpl.
  - now rewrite Ascii.eqb_refl.
  - now rewrite Hc, IH.
Qed.

(** Text in the URL-safe alphabet has no separator in it. *)
Lemma url_text_no_dot s :
  forallb is_url_char (String.list_ascii_of_string s) = true ->
  Forall (fun c => Ascii.eqb c "." = false) (String.list_ascii_of_string s).
Proof.
  intros Hs. rewrite forallb_forall in Hs. apply Forall_forall. intros c Hc.
  apply list_elem_of_In, Hs in Hc.
  destruct (Ascii.eqb_spec c ".") as [->|_]; [discriminate | reflexivity].
Qed.

Lemma split_compact (h s1 s2 s3 s4 : string) :
  forallb is_url_char (String.list_ascii_of_string h) = true ->
  forallb is_url_char (String.list_ascii_of_string s1) = true ->
  forallb is_url_char (String.list_ascii_of_string s2) = true ->
  forallb is_url_char (String.list_ascii_of_string s3) = true ->
  forallb is_url_char (String.list_ascii_of_string s4) = true ->
  split "." (h +:+ "." +:+ s1 +:+ "." +:+ s2 +:+ "." +:+ s3 +:+ "." +:+ s4)
  = [h; s1; s2; s3; s4].
Proof.
  intros Hh H1 H2 H3 H4. unfold split.
  rewrite list_ascii_of_string_app, list_ascii_of_string_dot.
  rewrite split_list_app by now apply url_text_no_dot.
  rewrite list_ascii_of_string_app, list_ascii_of_string_dot.
  rewrite split_list_app by now apply url_text_no_dot.
  rewrite list_ascii_of_string_app, list_ascii_of_string_dot.
  rewrite split_list_app by now apply url_text_no_dot.
  rewrite list_ascii_of_string_app, list_ascii_of_string_dot.
  rewrite split_list_app by now apply url_text_no_dot.
  rewrite split_list_none by now apply url_text_no_dot.
  cbn [map]. now rewrite !String.string_of_list_ascii_of_string.
Qed.

(** What [encodeArray] accepts, and what it then returns. *)
Lemma encodeArray_resolved arr s :
  Base64Url.encodeArray arr = Resolved s ->
  let units := map (fun x => x mod 2 ^ 16) arr in
  Forall is_byte units
  /\ s = Base64Url.encode (stringFromArray units)
  /\ forallb is_url_char (String.list_ascii_of_string s) = true
  /\ Base64Url.decodeArray s = Resolved units.
Proof.
  unfold Base64Url.encodeArray. cbv zeta.
  destruct (forallb _ _) eqn:Hf; [|discriminate]. intros [= <-].
  assert (Hb : Forall is_byte (map (fun x => x mod 2 ^ 16) arr)).
  { apply Forall_forall. intros u Hu. rewrite forallb_forall in Hf.
    pose proof (Hf u ltac:(now apply list_elem_of_In)) as Hlt. apply Z.ltb_lt in Hlt.
    apply list_elem_of_In, in_map_iff in Hu as (x & <- & _).
    unfold is_byte. split; [apply Z.mod_pos_bound; lia | exact Hlt]. }
  split; [exact Hb|]. split; [reflexivity|].
  split; [now apply encode_url_chars | now apply decodeArray_encode].
Qed.

Lemma bytes_units arr : Forall is_byte arr -> map (fun x => x mod 2 ^ 16) arr = arr.
Proof.
  induction 1 as [|x l Hx _ IH]; simpl; [reflexivity|].
  rewrite IH. f_equal. unfold is_byte in Hx. apply Z.mod_small. lia.
Qed.

End CompactText.

Section Slices.

Lemma slice_split (buf : list Z) (offset : Z) :
  slice buf (Some 0) (Some offset) ++ slice buf (Some offset) None = buf.
Proof.
  assert (Hk : (clamp (length buf) offset <= length buf)%nat).
  { unfold clamp. destruct (Z.ltb_spec offset 0); lia. }
  unfold slice. change (clamp (length buf) 0) with 0%nat.
  rewrite Nat.sub_0_r, drop_0.
  rewrite (take_ge (drop _ buf)) by (rewrite length_drop; lia).
  apply take_drop.
Qed.

Lemma slice_tag_length (buf : list Z) (t : Z) :
  0 <= t <= Z.of_nat (length buf) ->
  Z.of_nat (length (slice buf (Some (Z.of_nat (length buf) - t)) None)) = t.
Proof.
  intros Ht. unfold slice, clamp.
  destruct (Z.ltb_spec (Z.of_nat (length buf) - t) 0) as [?|_]; [lia|].
  rewrite length_take, length_drop. lia.
Qed.

Lemma slice_bytes (buf : list Z) b e :
  Forall Utils.is_byte buf -> Forall Utils.is_byte (slice buf b e).
Proof. intros Hb. unfold slice. now apply Forall_take, Forall_drop. Qed.

End Slices.

Section EncryptRuns.
Context `{H : Host} {E : EncryptHost}.

(** The bytes [createIV] draws. *)
Lemma random_iv (n : nat) :
  let iv := map (fun i => random_byte i mod 256) (seq 0 n) in
  length iv = n /\ Forall Utils.is_byte iv.
Proof.
  cbv zeta. split; [now rewrite length_map, length_seq|].
  apply Forall_map, Forall_forall. intros i _. unfold Utils.is_byte.
  apply Z.mod_pos_bound. lia.
Qed.

Lemma createIV_run this n :
  iv_bytes (content_encryption this) = Some n -> 0 <= n <= 65536 ->
  createIV this = Resolved (map (fun i => random_byte i mod 256) (seq 0 (Z.to_nat n))).
Proof.
  intros Hn Hr. unfold createIV, getRandomValues. rewrite Hn.
  destruct (Z.leb_spec 0 n) as [_|?]; [|lia].
  destruct (Z.ltb_spec n (2 ^ 32)) as [_|?]; [|lia].
  cbn [andb obind]. rewrite length_replicate.
  destruct (Z.ltb_spec 65536 (Z.of_nat (Z.to_nat n))) as [?|_]; [lia | reflexivity].
Qed.

Lemma createCEK_run this hack :
  Utils.getCekWorkaround (content_encryption this) = Resolved hack ->
  createCEK this
  = promise (subtle_generateKey (Utils.hack_id hack) true (Utils.enc_op hack)).
Proof. intros Hh. unfold createCEK. now rewrite Hh. Qed.

Lemma encryptPlainText_aead_run this cek_promise plain_text a t n :
  iv_bytes (content_encryption this) = Some n -> 0 <= n <= 65536 ->
  auth (content_encryption this) = Some a -> aead a = true -> tag_bytes a = Some t ->
  let iv := map (fun i => random_byte i mod 256) (seq 0 (Z.to_nat n)) in
  let enc := {| cp_name := alg_name (cfg_id (content_encryption this));
                cp_iv := iv;
                cp_additionalData :=
                  Some (Utils.arrayFromString (jwe_protected_header this));
                cp_tagLength := Some (t * 8) |} in
  encryptPlainText this cek_promise plain_text =
  Resolved (and_then cek_promise (fun cek =>
    and_then (subtle_encrypt enc cek (Utils.arrayFromString plain_text)) (fun cipher_text =>
      let offset := Z.of_nat (length cipher_text) - t in
      Resolved {| data_header := jwe_protected_header this;
                  data_iv := iv;
                  data_cipher := slice cipher_text (Some 0) (Some offset);
                  data_tag := slice cipher_text (Some offset) None |}))).
Proof.
  intros Hn Hr Ha Hae Ht. cbv zeta. unfold encryptPlainText.
  rewrite (createIV_run this n Hn Hr). cbn [obind]. rewrite Hn.
  destruct (random_iv (Z.to_nat n)) as [Hl _]. cbv zeta in Hl. rewrite Hl.
  unfold differs. rewrite Z2Nat.id by lia. rewrite Z.eqb_refl. cbn [negb].
  rewrite Ha, Hae, Ht. reflexivity.
Qed.

Lemma encryptPlainText_composite_run this cek plain_text
    (hmac : AlgorithmIdentifier) (a : AuthConfig) (kb bits : Z)
    (cek_bytes : list Z) mac_key enc_key :
  let config := content_encryption this in
  auth config = Some a -> aead a = false -> auth_id a = Some hmac ->
  key_bytes a = Some kb -> truncated_bytes a = Some kb ->
  alg_length (cfg_id config) = Some bits -> iv_bytes config = Some 16 -> 0 < kb ->
  subtle_exportKey cek = Resolved cek_bytes ->
  Z.of_nat (length cek_bytes) * 8 = bits + kb * 8 ->
  subtle_importKey (take (Z.to_nat kb) cek_bytes) hmac false ["sign"] = Resolved mac_key ->
  subtle_importKey (drop (Z.to_nat kb) cek_bytes) (cfg_id config) false ["encrypt"]
    = Resolved enc_key ->
  let iv := map (fun i => random_byte i mod 256) (seq 0 16) in
  let aad := Utils.arrayFromString (jwe_protected_header this) in
  let enc := {| cp_name := alg_name (cfg_id config); cp_iv := iv;
                cp_additionalData := None; cp_tagLength := None |} in
  encryptPlainText this (Resolved cek) plain_text =
  Resolved
    match subtle_encrypt enc enc_key (Utils.arrayFromString plain_text) with
    | Resolved cipher_text =>
        match subtle_sign hmac mac_key (aad ++ iv ++ cipher_text ++ length_block aad) with
        | Resolved signature =>
            Resolved {| data_header := jwe_protected_header this;
                        data_iv := iv;
                        data_cipher := cipher_text;
                        data_tag := take (Z.to_nat kb) signature |}
        | Rejected e | Thrown e => Rejected e
        end
    | Rejected e | Thrown e => Rejected e
    end.
Proof.
  intros config Ha Hae Hi Hk Hn Hb Hiv Hpos He Hlen Hm Hen iv aad enc.
  subst config iv aad enc. unfold encryptPlainText.
  rewrite (createIV_run this 16 Hiv ltac:(lia)). cbn [obind]. rewrite Hiv.
  change (Z.to_nat 16) with 16%nat.
  destruct (random_iv 16) as [Hl _]. cbv zeta in Hl. rewrite Hl.
  unfold differs. change (negb (Z.of_nat 16 =? 16)) with false. cbv iota.
  rewrite Ha, Hae.
  rewrite (splitKey_run this _ (Resolved cek) ["encrypt"] hmac a kb bits)
    by (auto; lia).
  rewrite He, Hlen, Z.eqb_refl, Hm, Hen. unfold result. cbn [fst snd obind settled and_then].
  destruct (subtle_encrypt _ enc_key _) as [cipher_text|e|e]; cbn [settled all2 and_then];
    try reflexivity.
  rewrite (truncatedMac_run this _ mac_key _ _ cipher_text hmac a kb) by (auto; lia).
  cbn [fst snd]. fold (length_block (Utils.arrayFromString (jwe_protected_header this))).
  destruct (subtle_sign _ _ _) as [signature|e|e]; reflexivity.
Qed.

(** The text [encrypt] makes of the pieces. *)
Lemma encrypt_run this key hack cek wrapped data plain_text :
  Utils.getCekWorkaround (content_encryption this) = Resolved hack ->
  subtle_generateKey (Utils.hack_id hack) true (Utils.enc_op hack) = Resolved cek ->
  subtle_wrapKey cek key (cfg_id (key_encryption this)) = Resolved wrapped ->
  encryptPlainText this (Resolved cek) plain_text = Resolved (Resolved data) ->
  Forall Utils.is_byte wrapped -> Forall Utils.is_byte (data_iv data) ->
  Forall Utils.is_byte (data_cipher data) -> Forall Utils.is_byte (data_tag data) ->
  let text l := Utils.Base64Url.encode (Utils.stringFromArray l) in
  encrypt this (Resolved key) plain_text =
  Resolved (data_header data +:+ "." +:+ text wrapped +:+ "." +:+ text (data_iv data)
              +:+ "." +:+ text (data_cipher data) +:+ "." +:+ text (data_tag data)).
Proof.
  intros Hh Hg Hw Hp Hbw Hbi Hbc Hbt. cbv zeta. unfold encrypt.
  rewrite (createCEK_run this hack Hh), Hg. cbn [promise obind].
  rewrite Hp. cbn [obind]. unfold encryptCek. cbn [all2 and_then fst snd].
  rewrite Hw. cbn [settled all2 and_then fst snd].
  rewrite !encodeArray_bytes by assumption. reflexivity.
Qed.

End EncryptRuns.

Section EncryptInversion.
Context `{H : Host} {E : EncryptHost}.

Lemma createIV_bytes this iv : createIV this = Resolved iv -> Forall Utils.is_byte iv.
Proof.
  unfold createIV, getRandomValues. intros Hiv.
  destruct (match iv_bytes (content_encryption this) with
            | Some n => _
            | None => _
            end) as [arr|e|e]; try discriminate.
  cbn [obind] in Hiv. destruct (65536 <? _); [discriminate|]. injection Hiv as <-.
  apply (random_iv (length arr)).
Qed.

Lemma differs_false a b : differs a b = false -> b = Some a.
Proof.
  unfold differs. destruct b as [y|]; [|discriminate].
  destruct (Z.eqb_spec a y) as [->|_]; [reflexivity | discriminate].
Qed.

(** What [encryptPlainText] resolves to carries the header of the
    instance and the IV that [createIV] drew. *)
Lemma encryptPlainText_resolved this cek_promise plain_text data :
  encryptPlainText this cek_promise plain_text = Resolved (Resolved data) ->
  data_header data = jwe_protected_header this
  /\ createIV this = Resolved (data_iv data)
  /\ iv_bytes (content_encryption this) = Some (Z.of_nat (length (data_iv data))).
Proof.
  unfold encryptPlainText. destruct (createIV this) as [iv|e|e]; try discriminate.
  cbn [obind]. destruct (differs _ _) eqn:Hd; [discriminate|].
  apply differs_false in Hd.
  destruct (auth (content_encryption this)) as [a|]; [|discriminate].
  destruct (aead a).
  - intros [= Hr]. destruct cek_promise as [cek|e|e]; try discriminate.
    cbn [and_then] in Hr. destruct (subtle_encrypt _ _ _) as [out|e|e]; try discriminate.
    cbn [and_then settled] in Hr. injection Hr as <-. now repeat split.
  - destruct (result (splitKey _ _ _ _)) as [keys|e|e]; try discriminate.
    cbn [obind]. intros [= Hr].
    destruct (all2 _ _) as [all|e|e]; try discriminate.
    cbn [and_then settled] in Hr. injection Hr as <-. now repeat split.
Qed.

(** The four segments [encrypt] appends to the header. *)
Lemma encrypt_resolved this key_promise plain_text jwe :
  encrypt this key_promise plain_text = Resolved jwe ->
  exists cek_promise encrypted_cek data s1 s2 s3 s4,
    encryptPlainText this cek_promise plain_text = Resolved (Resolved data)
    /\ Utils.Base64Url.encodeArray encrypted_cek = Resolved s1
    /\ Utils.Base64Url.encodeArray (data_iv data) = Resolved s2
    /\ Utils.Base64Url.encodeArray (data_cipher data) = Resolved s3
    /\ Utils.Base64Url.encodeArray (data_tag data) = Resolved s4
    /\ jwe = data_header data +:+ "." +:+ s1 +:+ "." +:+ s2 +:+ "." +:+ s3 +:+ "." +:+ s4.
Proof.
  unfold encrypt. destruct (createCEK this) as [cek_promise|e|e]; try discriminate.
  cbn [obind].
  destruct (encryptPlainText this cek_promise plain_text) as [enc_promise|e|e] eqn:Hp;
    try discriminate.
  cbn [obind]. destruct (encryptCek this key_promise cek_promise) as [w|e|e];
    try discriminate.
  destruct enc_promise as [data|e|e]; try discriminate.
  cbn [all2 and_then fst snd].
  destruct (Utils.Base64Url.encodeArray w) as [s1|e|e] eqn:H1; try discriminate.
  destruct (Utils.Base64Url.encodeArray (data_iv data)) as [s2|e|e] eqn:H2;
    try discriminate.
  destruct (Utils.Base64Url.encodeArray (data_cipher data)) as [s3|e|e] eqn:H3;
    try discriminate.
  destruct (Utils.Base64Url.encodeArray (data_tag data)) as [s4|e|e] eqn:H4;
    try discriminate.
  cbn [obind settled]. intros [= <-].
  exists cek_promise, w, data, s1, s2, s3, s4. repeat split; assumption.
Qed.

Lemma this_eta (this : JoseJWE) :
  {| key_encryption := key_encryption this; content_encryption := content_encryption this |}
  = this.
Proof. now destruct this. Qed.

Lemma getCryptoConfig_name (a : string) c :
  getCryptoConfig (VString a) = Resolved c ->
  getCryptoConfig_string a = Some c /\ In a recognized.
Proof.
  simpl. destruct (getCryptoConfig_string a) as [c'|] eqn:Ec; [|discriminate].
  intros [= <-]. split; [reflexivity|].
  apply getCryptoConfig_recognized. rewrite Ec. now eexists.
Qed.

(** [decrypt] on a five-segment text whose header is accepted and whose
    segments decode. *)
Lemma decrypt_accepted key_promise this0 this jwe h ek ivs cs ts
    (encrypted_cek iv cipher tag : list Z) :
  Utils.split "." jwe = [h; ek; ivs; cs; ts] ->
  read_header h this0 = (Resolved tt, this, []) ->
  Utils.Base64Url.decodeArray ek = Resolved encrypted_cek ->
  Utils.Base64Url.decodeArray ivs = Resolved iv ->
  Utils.Base64Url.decodeArray cs = Resolved cipher ->
  Utils.Base64Url.decodeArray ts = Resolved tag ->
  forall cek t1 plain t2,
    decryptCek key_promise encrypted_cek this = (Resolved cek, this, t1) ->
    decryptCiphertext (Resolved cek) (Utils.arrayFromString h) iv cipher tag this
    = (Resolved plain, this, t2) ->
    decrypt key_promise jwe this0 = (Resolved (Utils.stringFromArray plain), this, t1 ++ t2).
Proof.
  intros Hs Hr Hek Hiv Hcs Hts cek t1 plain t2 Hc Hd.
  rewrite (decrypt_header_ok key_promise this0 jwe h ek ivs cs ts _ _ Hs Hr).
  rewrite (decrypt_parts_run key_promise h ek ivs cs ts this _ _ _ _ Hek Hiv Hcs Hts).
  cbv zeta. rewrite Hc. unfold result, trace. cbn [fst snd]. now rewrite Hd.
Qed.

End EncryptInversion.

(** X18. [createIV] draws as many bytes as the content-encryption
    algorithm asks for (at most 65536).  With an algorithm that has no
    [iv_bytes], as the key-encryption ones, it draws one byte, and
    [encryptPlainText] is rejected with "encryptPlainText: invalid IV
    length" whatever the key and the text. *)
Theorem createIV_length `{H : Host} {E : EncryptHost} (this : JoseJWE) :
  (forall n, iv_bytes (content_encryption this) = Some n -> 0 <= n <= 65536 ->
     exists iv, createIV this = Resolved iv
                /\ Z.of_nat (length iv) = n /\ Forall Utils.is_byte iv)
  /\ (iv_bytes (content_encryption this) = None ->
      (exists iv, createIV this = Resolved iv /\ length iv = 1%nat)
      /\ forall cek_promise plain_text,
           encryptPlainText this cek_promise plain_text
           = Resolved (Rejected (Reason "encryptPlainText: invalid IV length"))).
Proof.
  split.
  - intros n Hn Hr. eexists. split; [exact (createIV_run this n Hn Hr)|].
    destruct (random_iv (Z.to_nat n)) as [Hl Hb]. cbv zeta in Hl, Hb.
    split; [rewrite Hl; lia | exact Hb].
  - intros Hn. split.
    + eexists. unfold createIV, getRandomValues. rewrite Hn. split; reflexivity.
    + intros cek_promise plain_text. unfold encryptPlainText, createIV, getRandomValues.
      rewrite Hn. reflexivity.
Qed.

Lemma createIV_length_witness :
  (exists iv, createIV (H := TestHost.host) (E := TestEncryptHost.encrypt_host)
                Samples.A128KW_A128CBC_HS256 = Resolved iv
              /\ Z.of_nat (length iv) = 16 /\ Forall Utils.is_byte iv)
  /\ encryptPlainText (H := TestHost.host) (E := TestEncryptHost.encrypt_host)
       {| key_encryption := Samples.registry "A128KW";
          content_encryption := Samples.registry "A128KW" |} (Resolved Samples.cek) "Hi"
     = Resolved (Rejected (Reason "encryptPlainText: invalid IV length")).
Proof.
  split.
  - apply (proj1 (createIV_length (H := TestHost.host) (E := TestEncryptHost.encrypt_host)
                    Samples.A128KW_A128CBC_HS256) 16 eq_refl). lia.
  - apply (proj2 (createIV_length (H := TestHost.host) (E := TestEncryptHost.encrypt_host)
                    {| key_encryption := Samples.registry "A128KW";
                       content_encryption := Samples.registry "A128KW" |}) eq_refl).
Defined.

(** X19. In an AEAD suite what [encryptPlainText] resolves to is cut
    from the output of [crypto.subtle.encrypt] on the bytes of the
    plaintext, under the fresh IV, the header text as additional data and
    the tag length of the suite in bits: the tag is the last [tag_bytes]
    bytes and the ciphertext what precedes them.  The two pieces put
    together are that output, which is also what [decryptCiphertext] hands
    to [decrypt] when it concatenates them; a rejection by
    [crypto.subtle.encrypt] is the rejection of the result. *)
Theorem encryptPlainText_aead_split `{H : Host} {E : EncryptHost} (this : JoseJWE)
    (cek : CryptoKey) (plain_text : string) (a : AuthConfig) (t n : Z) :
  iv_bytes (content_encryption this) = Some n -> 0 <= n <= 65536 ->
  auth (content_encryption this) = Some a -> aead a = true -> tag_bytes a = Some t ->
  exists (iv : list Z) (params : CipherParams),
    createIV this = Resolved iv
    /\ cp_name params = alg_name (cfg_id (content_encryption this))
    /\ cp_iv params = iv
    /\ cp_additionalData params = Some (Utils.arrayFromString (jwe_protected_header this))
    /\ cp_tagLength params = Some (t * 8)
    /\ (forall out,
          subtle_encrypt params cek (Utils.arrayFromString plain_text) = Resolved out ->
          exists data,
            encryptPlainText this (Resolved cek) plain_text = Resolved (Resolved data)
            /\ data_header data = jwe_protected_header this /\ data_iv data = iv
            /\ data_cipher data ++ data_tag data = out
            /\ Utils.arrayBufferConcat [data_cipher data; data_tag data] = Resolved out
            /\ (0 <= t <= Z.of_nat (length out) -> Z.of_nat (length (data_tag data)) = t))
    /\ (forall e,
          subtle_encrypt params cek (Utils.arrayFromString plain_text) = Rejected e ->
          encryptPlainText this (Resolved cek) plain_text = Resolved (Rejected e)).
Proof.
  intros Hn Hr Ha Hae Ht.
  exists (map (fun i => random_byte i mod 256) (seq 0 (Z.to_nat n))),
         {| cp_name := alg_name (cfg_id (content_encryption this));
            cp_iv := map (fun i => random_byte i mod 256) (seq 0 (Z.to_nat n));
            cp_additionalData := Some (Utils.arrayFromString (jwe_protected_header this));
            cp_tagLength := Some (t * 8) |}.
  split; [exact (createIV_run this n Hn Hr)|].
  do 4 (split; [reflexivity|]).
  rewrite (encryptPlainText_aead_run this (Resolved cek) plain_text a t n Hn Hr Ha Hae Ht).
  cbn [and_then]. split.
  - intros out ->. cbn [and_then settled]. eexists. split; [reflexivity|].
    cbn [data_header data_iv data_cipher data_tag].
    split; [reflexivity|]. split; [reflexivity|]. split; [apply slice_split|].
    split.
    + rewrite arrayBufferConcat_concat. cbn [concat]. now rewrite app_nil_r, slice_split.
    + apply slice_tag_length.
  - intros e ->. reflexivity.
Qed.

Lemma encryptPlainText_aead_split_witness :
  exists data,
    encryptPlainText (H := TestHost.host) (E := TestEncryptHost.encrypt_host)
      EncryptSamples.A128KW_A256GCM
      (Resolved {| TestHost.raw := map Z.of_nat (seq 1 32);
                   TestHost.algorithm := cfg_id (Samples.registry "A256GCM");
                   TestHost.extractable := true;
                   TestHost.usages := ["encrypt"] |}) "Hello"
    = Resolved (Resolved data)
    /\ length (data_cipher data) = 5%nat /\ length (data_tag data) = 16%nat.
Proof.
  destruct (encryptPlainText_aead_split (H := TestHost.host)
              (E := TestEncryptHost.encrypt_host) EncryptSamples.A128KW_A256GCM
              {| TestHost.raw := map Z.of_nat (seq 1 32);
                 TestHost.algorithm := cfg_id (Samples.registry "A256GCM");
                 TestHost.extractable := true;
                 TestHost.usages := ["encrypt"] |} "Hello"
              {| aead := true; tag_bytes := Some 16; key_bytes := None;
                 auth_id := None; truncated_bytes := None |} 16 12
              eq_refl ltac:(lia) eq_refl eq_refl eq_refl)
    as (iv & params & Hiv & Hname & Hpiv & Had & Htl & Hok & _).
  assert (Hparams : params
                    = {| cp_name := "AES-GCM"; cp_iv := map Z.of_nat (seq 100 12);
                         cp_additionalData :=
                           Some (Utils.arrayFromString
                                   (jwe_protected_header EncryptSamples.A128KW_A256GCM));
                         cp_tagLength := Some 128 |}).
  { destruct params as [pn pi pa pt]. cbn in Hname, Hpiv, Had, Htl. subst pn pi pa pt.
    f_equal. vm_compute in Hiv. now injection Hiv as <-. }
  subst params.
  destruct (Hok (TestHost.encrypt_gcm (map Z.of_nat (seq 1 32)) (map Z.of_nat (seq 100 12))
                   (Utils.arrayFromString
                      (jwe_protected_header EncryptSamples.A128KW_A256GCM))
                   (Utils.arrayFromString "Hello") 16))
    as (data & Hrun & _ & _ & Happ & _ & Hlen).
  { vm_compute. reflexivity. }
  exists data. split; [exact Hrun|].
  assert (Ht : length (data_tag data) = 16%nat).
  { apply Nat2Z.inj. apply Hlen. vm_compute. split; discriminate. }
  split; [|exact Ht].
  apply (f_equal (@length Z)) in Happ. rewrite length_app, Ht in Happ.
  assert (Hl : length (TestHost.encrypt_gcm (map Z.of_nat (seq 1 32))
                         (map Z.of_nat (seq 100 12))
                         (Utils.arrayFromString
                            (jwe_protected_header EncryptSamples.A128KW_A256GCM))
                         (Utils.arrayFromString "Hello") 16) = 21%nat)
    by (vm_compute; reflexivity).
  rewrite Hl in Happ. lia.
Defined.

(** X20. In a composite suite [encryptPlainText] encrypts and then
    authenticates: the tag it returns is the first [truncated_bytes] bytes
    of the HMAC of the header text, the IV, the ciphertext that [encrypt]
    returned and the length block, under the first half of the key, the
    second half being the AES-CBC key.  It is the value [compare] accepts
    when decryption recomputes the MAC. *)
Theorem encryptPlainText_encrypt_then_mac `{H : Host} {E : EncryptHost} (this : JoseJWE)
    (cek mac_key enc_key : CryptoKey) (plain_text : string)
    (cek_bytes cipher_text signature : list Z) :
  let config := content_encryption this in
  composite config ->
  exists (hmac : AlgorithmIdentifier) (n : Z) (iv : list Z),
    auth config ≫= auth_id = Some hmac
    /\ auth config ≫= truncated_bytes = Some n
    /\ auth config ≫= key_bytes = Some n
    /\ createIV this = Resolved iv
    /\ let aad := Utils.arrayFromString (jwe_protected_header this) in
       let enc := {| cp_name := alg_name (cfg_id config); cp_iv := iv;
                     cp_additionalData := None; cp_tagLength := None |} in
       (subtle_exportKey cek = Resolved cek_bytes ->
        Some (Z.of_nat (length cek_bytes)) = specific_cek_bytes config ->
        subtle_importKey (take (Z.to_nat n) cek_bytes) hmac false ["sign"]
          = Resolved mac_key ->
        subtle_importKey (drop (Z.to_nat n) cek_bytes) (cfg_id config) false ["encrypt"]
          = Resolved enc_key ->
        subtle_encrypt enc enc_key (Utils.arrayFromString plain_text)
          = Resolved cipher_text ->
        subtle_sign hmac mac_key (aad ++ iv ++ cipher_text ++ length_block aad)
          = Resolved signature ->
        encryptPlainText this (Resolved cek) plain_text
        = Resolved (Resolved {| data_header := jwe_protected_header this;
                                data_iv := iv;
                                data_cipher := cipher_text;
                                data_tag := take (Z.to_nat n) signature |})
        /\ result (truncatedMac config (Resolved mac_key) aad iv cipher_text this)
           = Resolved (take (Z.to_nat n) signature)
        /\ Utils.compare (take (Z.to_nat n) signature) (take (Z.to_nat n) signature) = true).
Proof.
  intros config Hc.
  destruct (composite_members config Hc)
    as (hmac & a & kb & bits & Ha & Hae & Hi & Hk & Hn & Hb & Hs & Hiv & Hpos & Hbits & _).
  exists hmac, kb, (map (fun i => random_byte i mod 256) (seq 0 16)).
  rewrite Ha. cbn [mbind option_bind].
  split; [exact Hi|]. split; [exact Hn|]. split; [exact Hk|].
  split; [exact (createIV_run this 16 Hiv ltac:(lia))|].
  cbv zeta. intros He Hlen Hm Hen Henc Hsig.
  set (aad := Utils.arrayFromString (jwe_protected_header this)) in *.
  assert (Hl : Z.of_nat (length cek_bytes) * 8 = bits + kb * 8).
  { fold config in Hlen. rewrite Hs in Hlen. injection Hlen as Hlen. subst bits.
    rewrite Z.div_mul in Hlen by lia. lia. }
  split; [|split].
  - rewrite (encryptPlainText_composite_run this cek plain_text hmac a kb bits cek_bytes
               mac_key enc_key Ha Hae Hi Hk Hn Hb Hiv Hpos He Hl Hm Hen).
    fold config. fold aad. rewrite Henc. now rewrite Hsig.
  - rewrite (truncatedMac_run this config mac_key aad _ cipher_text hmac a kb)
      by (auto; lia).
    fold (length_block aad). unfold result. cbn [fst]. now rewrite Hsig.
  - now apply compare_true_iff.
Qed.

Lemma encryptPlainText_encrypt_then_mac_witness :
  composite (content_encryption Samples.A128KW_A128CBC_HS256)
  /\ encryptPlainText (H := TestHost.host) (E := TestEncryptHost.encrypt_host)
       Samples.A128KW_A128CBC_HS256
       (Resolved {| TestHost.raw := map Z.of_nat (seq 1 32);
                    TestHost.algorithm :=
                      {| alg_name := "AES-CBC"; alg_hash := None; alg_length := Some 256 |};
                    TestHost.extractable := true;
                    TestHost.usages := ["encrypt"] |}) "Hi"
     = Resolved (Resolved {| data_header := Samples.header;
                             data_iv := Samples.iv;
                             data_cipher := Samples.cipher_text;
                             data_tag := Samples.tag |}).
Proof.
  assert (Hc : composite (content_encryption Samples.A128KW_A128CBC_HS256))
    by (left; reflexivity).
  split; [exact Hc|].
  destruct (encryptPlainText_encrypt_then_mac (H := TestHost.host)
              (E := TestEncryptHost.encrypt_host) Samples.A128KW_A128CBC_HS256
              {| TestHost.raw := map Z.of_nat (seq 1 32);
                 TestHost.algorithm :=
                   {| alg_name := "AES-CBC"; alg_hash := None; alg_length := Some 256 |};
                 TestHost.extractable := true;
                 TestHost.usages := ["encrypt"] |}
              Samples.mac_key
              {| TestHost.raw := map Z.of_nat (seq 17 16);
                 TestHost.algorithm := cfg_id (Samples.registry "A128CBC-HS256");
                 TestHost.extractable := false;
                 TestHost.usages := ["encrypt"] |}
              "Hi" (map Z.of_nat (seq 1 32)) Samples.cipher_text
              (TestHost.digest 32 (map Z.of_nat (seq 1 16))
                 (Samples.aad ++ Samples.iv ++ Samples.cipher_text
                    ++ length_block Samples.aad)) Hc)
    as (hmac & n & iv & Hh & Hn & _ & Hiv & Hrun).
  injection Hh as <-. injection Hn as <-.
  assert (iv = Samples.iv) as -> by (vm_compute in Hiv; now injection Hiv as <-).
  destruct Hrun as (Hrun & _ & _); [vm_compute; reflexivity ..|].
  etransitivity; [exact Hrun|]. vm_compute. reflexivity.
Defined.

(** X21. Whatever [encrypt] resolves to is a compact serialization that
    the checks of [decrypt] let through: it splits on [.] into exactly
    five segments, the first of them the protected header of the instance
    and the others the base64url text of the encrypted key, the IV, the
    ciphertext and the tag, and the IV it decodes to has the length the
    content-encryption algorithm asks for. *)
Theorem encrypt_output_segments `{H : Host} {E : EncryptHost} (this : JoseJWE)
    (key_promise : outcome CryptoKey) (plain_text jwe : string) :
  encrypt this key_promise plain_text = Resolved jwe ->
  exists (s1 s2 s3 s4 : string) (encrypted_cek iv cipher tag : list Z),
    Utils.split "." jwe = [jwe_protected_header this; s1; s2; s3; s4]
    /\ length (Utils.split "." jwe) = 5%nat
    /\ Utils.Base64Url.decodeArray s1 = Resolved encrypted_cek
    /\ Utils.Base64Url.decodeArray s2 = Resolved iv
    /\ Utils.Base64Url.decodeArray s3 = Resolved cipher
    /\ Utils.Base64Url.decodeArray s4 = Resolved tag
    /\ createIV this = Resolved iv
    /\ Some (Z.of_nat (length iv)) = iv_bytes (content_encryption this).
Proof.
  intros He.
  destruct (encrypt_resolved this key_promise plain_text jwe He)
    as (cek_promise & w & data & s1 & s2 & s3 & s4 & Hp & H1 & H2 & H3 & H4 & ->).
  destruct (encryptPlainText_resolved this cek_promise plain_text data Hp)
    as (Hh & Hiv & Hn).
  destruct (encodeArray_resolved _ _ H1) as (_ & _ & U1 & D1).
  destruct (encodeArray_resolved _ _ H2) as (_ & _ & U2 & D2).
  destruct (encodeArray_resolved _ _ H3) as (_ & _ & U3 & D3).
  destruct (encodeArray_resolved _ _ H4) as (_ & _ & U4 & D4).
  rewrite (bytes_units _ (createIV_bytes this _ Hiv)) in D2.
  assert (Hs : Utils.split "." (data_header data +:+ "." +:+ s1 +:+ "." +:+ s2 +:+ "."
                                  +:+ s3 +:+ "." +:+ s4)
               = [jwe_protected_header this; s1; s2; s3; s4]).
  { rewrite split_compact; [now rewrite Hh | | assumption ..].
    rewrite Hh. apply encode_string_url_chars. }
  eexists s1, s2, s3, s4, _, _, _, _.
  split; [exact Hs|]. split; [now rewrite Hs|].
  split; [exact D1|]. split; [exact D2|]. split; [exact D3|]. split; [exact D4|].
  split; [exact Hiv | now rewrite Hn].
Qed.

Lemma encrypt_output_segments_witness :
  encrypt (H := TestHost.host) (E := TestEncryptHost.encrypt_host)
    Samples.A128KW_A128CBC_HS256 (Resolved EncryptSamples.shared_key) "Hi"
  = Resolved Samples.composite_jwe
  /\ length (Utils.split "." Samples.composite_jwe) = 5%nat.
Proof.
  assert (He : encrypt (H := TestHost.host) (E := TestEncryptHost.encrypt_host)
                 Samples.A128KW_A128CBC_HS256 (Resolved EncryptSamples.shared_key) "Hi"
               = Resolved Samples.composite_jwe) by (vm_compute; reflexivity).
  split; [exact He|].
  destruct (encrypt_output_segments (H := TestHost.host) (E := TestEncryptHost.encrypt_host)
              _ _ _ _ He) as (s1 & s2 & s3 & s4 & _ & _ & _ & _ & _ & Hl & _).
  exact Hl.
Defined.

Section RoundTrip.
Context `{H : Host} {E : EncryptHost}.

(** The header [encrypt] writes is read back by [decrypt], which selects
    the algorithms of the encrypting instance. *)
Lemma header_round_trip (this this0 : JoseJWE) (a e : string) (header crit : value) :
  getCryptoConfig (VString a) = Resolved (key_encryption this) ->
  jwe_name (key_encryption this) = Some a ->
  getCryptoConfig (VString e) = Resolved (content_encryption this) ->
  jwe_name (content_encryption this) = Some e ->
  JSON_parse (JSON_stringify_header (Some a) (Some e)) = Resolved header ->
  get header "alg" = Resolved (VString a) ->
  get header "enc" = Resolved (VString e) ->
  get header "crit" = Resolved crit -> truthy crit = false ->
  read_header (jwe_protected_header this) this0 = (Resolved tt, this, []).
Proof.
  intros Hka Hna Hce Hne Hp Ha He Hc Ht.
  destruct (getCryptoConfig_name a _ Hka) as [Hka' Hia].
  destruct (getCryptoConfig_name e _ Hce) as [Hce' Hie].
  destruct (header_accepted (jwe_protected_header this) this0
              (JSON_stringify_header (Some a) (Some e)) header a e crit)
    as (ka & ca & Hk1 & Hc1 & Hr); try assumption.
  { unfold jwe_protected_header. rewrite Hna, Hne. apply decode_encode_string. }
  rewrite Hr. do 2 f_equal.
  rewrite <- (this_eta this). f_equal; congruence.
Qed.

End RoundTrip.

Lemma bytes_checked (l : list Z) : forallb Utils.is_byteb l = true -> Forall Utils.is_byte l.
Proof.
  intros Hf. apply Forall_forall. intros b Hb. apply list_elem_of_In in Hb.
  rewrite forallb_forall in Hf. apply Hf in Hb.
  unfold Utils.is_byteb in Hb. unfold Utils.is_byte. lia.
Qed.

(** X22. The round trip through the compact serialization, with an AEAD
    suite, for a plaintext whose code units are below 256 (the strings of
    this development; [arrayFromString] keeps of a wider code unit its
    residue modulo 256 only).  Let the instance be set to a
    key-encryption algorithm and to A256GCM, let the parser read back the
    header that [encrypt] writes, and let the provider unwrap the key it
    has wrapped and decrypt what it has encrypted.  Then [encrypt]
    resolves to a text that [decrypt], called on any instance, resolves
    to the plaintext; [decrypt] calls [unwrapKey] and [decrypt] once each
    and leaves its instance set to the algorithms of the encrypting
    one. *)
Theorem encrypt_decrypt_A256GCM `{H : Host} {E : EncryptHost} (this this0 : JoseJWE)
    (a : string) (key dkey cek cek' : CryptoKey) (plain_text : string)
    (wrapped out : list Z) (header crit : value) :
  getCryptoConfig (VString a) = Resolved (key_encryption this) ->
  jwe_name (key_encryption this) = Some a ->
  getCryptoConfig (VString "A256GCM") = Resolved (content_encryption this) ->
  JSON_parse (JSON_stringify_header (Some a) (Some "A256GCM")) = Resolved header ->
  get header "alg" = Resolved (VString a) ->
  get header "enc" = Resolved (VString "A256GCM") ->
  get header "crit" = Resolved crit -> truthy crit = false ->
  let kw := cfg_id (key_encryption this) in
  let gcm := {| alg_name := "AES-GCM"; alg_hash := None; alg_length := Some 256 |} in
  let iv := map (fun i => random_byte i mod 256) (seq 0 12) in
  let params := {| cp_name := "AES-GCM"; cp_iv := iv;
                   cp_additionalData :=
                     Some (Utils.arrayFromString (jwe_protected_header this));
                   cp_tagLength := Some 128 |} in
  subtle_generateKey gcm true ["encrypt"] = Resolved cek ->
  subtle_wrapKey cek key kw = Resolved wrapped -> Forall Utils.is_byte wrapped ->
  subtle_encrypt params cek (Utils.arrayFromString plain_text) = Resolved out ->
  Forall Utils.is_byte out ->
  subtle_unwrapKey wrapped dkey kw gcm false ["decrypt"] = Resolved cek' ->
  subtle_decrypt params cek' out = Resolved (Utils.arrayFromString plain_text) ->
  exists jwe : string,
    encrypt this (Resolved key) plain_text = Resolved jwe
    /\ decrypt (Resolved dkey) jwe this0
       = (Resolved plain_text, this,
          [UnwrapKey wrapped dkey kw gcm false ["decrypt"]; Decrypt params cek' out]).
Proof.
  intros Hka Hna Hce Hp Ha He Hc Ht kw gcm iv params Hg Hw Hbw Henc Hbo Hu Hd.
  assert (Hcfg : content_encryption this
                 = {| jwe_name := Some "A256GCM"; cfg_id := gcm; iv_bytes := Some 12;
                      specific_cek_bytes := None;
                      auth := Some {| aead := true; tag_bytes := Some 16; key_bytes := None;
                                      auth_id := None; truncated_bytes := None |} |})
    by (simpl in Hce; injection Hce as Hce; symmetry; exact Hce).
  set (au := {| aead := true; tag_bytes := Some 16; key_bytes := None;
                auth_id := None; truncated_bytes := None |}) in Hcfg.
  assert (Hiv : iv_bytes (content_encryption this) = Some 12) by now rewrite Hcfg.
  assert (Hau : auth (content_encryption this) = Some au) by now rewrite Hcfg.
  assert (Hid : cfg_id (content_encryption this) = gcm) by now rewrite Hcfg.
  assert (Hne : jwe_name (content_encryption this) = Some "A256GCM") by now rewrite Hcfg.
  assert (Hh : Utils.getCekWorkaround (content_encryption this)
               = Resolved {| Utils.hack_id := gcm; Utils.enc_op := ["encrypt"];
                             Utils.dec_op := ["decrypt"] |}) by now rewrite Hcfg.
  assert (Hx : specific_cek_bytes (content_encryption this) = None) by now rewrite Hcfg.
  set (off := Z.of_nat (length out) - 16).
  set (data := {| data_header := jwe_protected_header this; data_iv := iv;
                  data_cipher := slice out (Some 0) (Some off);
                  data_tag := slice out (Some off) None |}).
  assert (Hpt : encryptPlainText this (Resolved cek) plain_text = Resolved (Resolved data)).
  { rewrite (encryptPlainText_aead_run this (Resolved cek) plain_text au 16 12 Hiv
               ltac:(lia) Hau eq_refl eq_refl).
    rewrite Hid. cbn [and_then].
    match goal with
    | |- context [subtle_encrypt ?p ?k ?d] =>
        change (subtle_encrypt p k d)
          with (subtle_encrypt params cek (Utils.arrayFromString plain_text))
    end.
    rewrite Henc. reflexivity. }
  destruct (random_iv 12) as [Hl Hbi]. cbv zeta in Hl, Hbi. fold iv in Hl, Hbi.
  assert (Hbc : Forall Utils.is_byte (data_cipher data)) by now apply slice_bytes.
  assert (Hbt : Forall Utils.is_byte (data_tag data)) by now apply slice_bytes.
  eexists. split.
  { exact (encrypt_run this key _ cek wrapped data plain_text Hh Hg Hw Hpt Hbw Hbi Hbc Hbt). }
  cbv zeta. cbn [data_header data_iv data_cipher data_tag data].
  rewrite <- (stringFromArray_arrayFromString plain_text) at 1.
  change [UnwrapKey wrapped dkey kw gcm false ["decrypt"]; Decrypt params cek' out]
    with ([UnwrapKey wrapped dkey kw gcm false ["decrypt"]] ++ [Decrypt params cek' out]).
  eapply (decrypt_accepted (Resolved dkey) this0 this _ _ _ _ _ _ wrapped iv
            (slice out (Some 0) (Some off)) (slice out (Some off) None)).
  - apply split_compact; first [apply encode_string_url_chars | now apply encode_url_chars].
  - exact (header_round_trip this this0 a "A256GCM" header crit Hka Hna Hce Hne Hp Ha He
             Hc Ht).
  - now apply decodeArray_encode.
  - now apply decodeArray_encode.
  - now apply decodeArray_encode.
  - now apply decodeArray_encode.
  - rewrite (decryptCek_run this (Resolved dkey) wrapped _ Hh). cbv zeta.
    rewrite Hx. cbn [Utils.hack_id Utils.dec_op]. fold kw. rewrite Hu. reflexivity.
  - rewrite (decryptCiphertext_aead_run this (Resolved cek') _ iv _ _ au Hau eq_refl)
      by (rewrite Hiv, Hl; reflexivity).
    rewrite Hid, slice_split.
    match goal with
    | |- context [subtle_decrypt ?p ?k ?d] =>
        change (subtle_decrypt p k d) with (subtle_decrypt params cek' out)
    end.
    rewrite Hd. reflexivity.
Qed.

Lemma encrypt_decrypt_A256GCM_witness :
  exists jwe : string,
    encrypt (H := TestHost.host) (E := TestEncryptHost.encrypt_host)
      EncryptSamples.A128KW_A256GCM (Resolved EncryptSamples.shared_key) "Hello"
    = Resolved jwe
    /\ result (decrypt (H := TestHost.host) (Resolved EncryptSamples.shared_key) jwe
                 Samples.A128KW_A128CBC_HS256)
       = Resolved "Hello".
Proof.
  set (gcm := {| alg_name := "AES-GCM"; alg_hash := None; alg_length := Some 256 |}).
  set (cek := {| TestHost.raw := map Z.of_nat (seq 1 32); TestHost.algorithm := gcm;
                 TestHost.extractable := true; TestHost.usages := ["encrypt"] |}).
  set (cek' := {| TestHost.raw := map Z.of_nat (seq 1 32); TestHost.algorithm := gcm;
                  TestHost.extractable := false; TestHost.usages := ["decrypt"] |}).
  set (wrapped := TestHost.wrap EncryptSamples.shared_key (map Z.of_nat (seq 1 32))).
  set (out := TestHost.encrypt_gcm (map Z.of_nat (seq 1 32)) (map Z.of_nat (seq 100 12))
                (Utils.arrayFromString (jwe_protected_header EncryptSamples.A128KW_A256GCM))
                (Utils.arrayFromString "Hello") 16).
  destruct (encrypt_decrypt_A256GCM (H := TestHost.host) (E := TestEncryptHost.encrypt_host)
              EncryptSamples.A128KW_A256GCM Samples.A128KW_A128CBC_HS256 "A128KW"
              EncryptSamples.shared_key EncryptSamples.shared_key cek cek' "Hello"
              wrapped out
              (VObject [("alg", VString "A128KW"); ("enc", VString "A256GCM")]) VUndefined)
    as (jwe & He & Hd);
    [first [apply bytes_checked | idtac]; vm_compute; reflexivity ..|].
  exists jwe. split; [exact He|]. exact (f_equal result Hd).
Defined.

(** X23. The round trip through the compact serialization, with the
    composite suite A128CBC-HS256, for a plaintext whose code units are
    below 256 (the strings of this development).  Let the parser read
    back the header that [encrypt] writes, let the provider unwrap the key
    it has wrapped as a key with the same bytes, import the halves of
    these bytes, and decrypt under the second half what it has encrypted
    under it.  Then [encrypt] resolves to a text that [decrypt], called on
    any instance, resolves to the plaintext: the tag that encryption
    computed is the one that decryption recomputes and compares. *)
Theorem encrypt_decrypt_A128CBC_HS256 `{H : Host} {E : EncryptHost} (this this0 : JoseJWE)
    (a : string) (key dkey cek cek' mac_key enc_key dec_key : CryptoKey)
    (plain_text : string) (wrapped cek_bytes cipher_text signature : list Z)
    (header crit : value) :
  getCryptoConfig (VString a) = Resolved (key_encryption this) ->
  jwe_name (key_encryption this) = Some a ->
  getCryptoConfig (VString "A128CBC-HS256") = Resolved (content_encryption this) ->
  JSON_parse (JSON_stringify_header (Some a) (Some "A128CBC-HS256")) = Resolved header ->
  get header "alg" = Resolved (VString a) ->
  get header "enc" = Resolved (VString "A128CBC-HS256") ->
  get header "crit" = Resolved crit -> truthy crit = false ->
  let kw := cfg_id (key_encryption this) in
  let cbc256 := {| alg_name := "AES-CBC"; alg_hash := None; alg_length := Some 256 |} in
  let cbc128 := {| alg_name := "AES-CBC"; alg_hash := None; alg_length := Some 128 |} in
  let hmac := {| alg_name := "HMAC"; alg_hash := Some "SHA-256"; alg_length := None |} in
  let iv := map (fun i => random_byte i mod 256) (seq 0 16) in
  let aad := Utils.arrayFromString (jwe_protected_header this) in
  let params := {| cp_name := "AES-CBC"; cp_iv := iv;
                   cp_additionalData := None; cp_tagLength := None |} in
  (* encryption *)
  subtle_generateKey cbc256 true ["encrypt"] = Resolved cek ->
  subtle_wrapKey cek key kw = Resolved wrapped -> Forall Utils.is_byte wrapped ->
  subtle_exportKey cek = Resolved cek_bytes -> length cek_bytes = 32%nat ->
  subtle_importKey (take 16 cek_bytes) hmac false ["sign"] = Resolved mac_key ->
  subtle_importKey (drop 16 cek_bytes) cbc128 false ["encrypt"] = Resolved enc_key ->
  subtle_encrypt params enc_key (Utils.arrayFromString plain_text) = Resolved cipher_text ->
  Forall Utils.is_byte cipher_text ->
  subtle_sign hmac mac_key (aad ++ iv ++ cipher_text ++ length_block aad)
    = Resolved signature ->
  Forall Utils.is_byte signature ->
  (* decryption *)
  subtle_unwrapKey wrapped dkey kw cbc256 true ["decrypt"] = Resolved cek' ->
  subtle_exportKey cek' = Resolved cek_bytes ->
  subtle_importKey (drop 16 cek_bytes) cbc128 false ["decrypt"] = Resolved dec_key ->
  subtle_decrypt params dec_key cipher_text = Resolved (Utils.arrayFromString plain_text) ->
  exists jwe : string,
    encrypt this (Resolved key) plain_text = Resolved jwe
    /\ decrypt (Resolved dkey) jwe this0
       = (Resolved plain_text, this,
          [UnwrapKey wrapped dkey kw cbc256 true ["decrypt"];
           ExportKey cek';
           ImportKey (take 16 cek_bytes) hmac false ["sign"];
           ImportKey (drop 16 cek_bytes) cbc128 false ["decrypt"];
           Sign hmac mac_key (aad ++ iv ++ cipher_text ++ length_block aad);
           Decrypt params dec_key cipher_text]).
Proof.
  intros Hka Hna Hce Hp Ha He Hc Ht kw cbc256 cbc128 hmac iv aad params
    Hg Hw Hbw Hx Hlen Hm Hen Henc Hbc Hs Hbs Hu Hx' Hdk Hd.
  set (au := {| aead := false; tag_bytes := None; key_bytes := Some 16;
                auth_id := Some hmac; truncated_bytes := Some 16 |}).
  assert (Hcfg : content_encryption this
                 = {| jwe_name := Some "A128CBC-HS256"; cfg_id := cbc128;
                      iv_bytes := Some 16; specific_cek_bytes := Some 32;
                      auth := Some au |})
    by (simpl in Hce; injection Hce as Hce; symmetry; exact Hce).
  assert (Hiv : iv_bytes (content_encryption this) = Some 16) by now rewrite Hcfg.
  assert (Hau : auth (content_encryption this) = Some au) by now rewrite Hcfg.
  assert (Hid : cfg_id (content_encryption this) = cbc128) by now rewrite Hcfg.
  assert (Hne : jwe_name (content_encryption this) = Some "A128CBC-HS256")
    by now rewrite Hcfg.
  assert (Hh : Utils.getCekWorkaround (content_encryption this)
               = Resolved {| Utils.hack_id := cbc256; Utils.enc_op := ["encrypt"];
                             Utils.dec_op := ["decrypt"] |}) by now rewrite Hcfg.
  assert (Hsp : specific_cek_bytes (content_encryption this) = Some 32) by now rewrite Hcfg.
  assert (Hal : alg_length (cfg_id (content_encryption this)) = Some 128)
    by now rewrite Hcfg.
  assert (Hl8 : Z.of_nat (length cek_bytes) * 8 = 128 + 16 * 8) by (rewrite Hlen; lia).
  set (data := {| data_header := jwe_protected_header this; data_iv := iv;
                  data_cipher := cipher_text;
                  data_tag := take (Z.to_nat 16) signature |}).
  assert (Hpt : encryptPlainText this (Resolved cek) plain_text = Resolved (Resolved data)).
  { rewrite (encryptPlainText_composite_run this cek plain_text hmac au 16 128 cek_bytes
               mac_key enc_key Hau eq_refl eq_refl eq_refl eq_refl Hal Hiv ltac:(lia)
               Hx Hl8 Hm ltac:(rewrite Hid; exact Hen)).
    rewrite Hid.
    match goal with
    | |- context [subtle_encrypt ?p ?k ?d] =>
        change (subtle_encrypt p k d)
          with (subtle_encrypt params enc_key (Utils.arrayFromString plain_text))
    end.
    rewrite Henc. fold aad. fold iv. rewrite Hs. reflexivity. }
  destruct (random_iv 16) as [Hl Hbi]. cbv zeta in Hl, Hbi. fold iv in Hl, Hbi.
  assert (Hbt : Forall Utils.is_byte (data_tag data)) by now apply Forall_take.
  eexists. split.
  { exact (encrypt_run this key _ cek wrapped data plain_text Hh Hg Hw Hpt Hbw Hbi Hbc Hbt). }
  cbv zeta. cbn [data_header data_iv data_cipher data_tag data].
  rewrite <- (stringFromArray_arrayFromString plain_text) at 1.
  change [UnwrapKey wrapped dkey kw cbc256 true ["decrypt"];
          ExportKey cek';
          ImportKey (take 16 cek_bytes) hmac false ["sign"];
          ImportKey (drop 16 cek_bytes) cbc128 false ["decrypt"];
          Sign hmac mac_key (aad ++ iv ++ cipher_text ++ length_block aad);
          Decrypt params dec_key cipher_text]
    with ([UnwrapKey wrapped dkey kw cbc256 true ["decrypt"]]
          ++ [ExportKey cek';
              ImportKey (take 16 cek_bytes) hmac false ["sign"];
              ImportKey (drop 16 cek_bytes) cbc128 false ["decrypt"];
              Sign hmac mac_key (aad ++ iv ++ cipher_text ++ length_block aad);
              Decrypt params dec_key cipher_text]).
  eapply (decrypt_accepted (Resolved dkey) this0 this _ _ _ _ _ _ wrapped iv
            cipher_text (take (Z.to_nat 16) signature)).
  - apply split_compact; first [apply encode_string_url_chars | now apply encode_url_chars].
  - exact (header_round_trip this this0 a "A128CBC-HS256" header crit Hka Hna Hce Hne Hp
             Ha He Hc Ht).
  - now apply decodeArray_encode.
  - now apply decodeArray_encode.
  - now apply decodeArray_encode.
  - now apply decodeArray_encode.
  - rewrite (decryptCek_run this (Resolved dkey) wrapped _ Hh). cbv zeta.
    rewrite Hsp. cbn [Utils.hack_id Utils.dec_op]. fold kw.
    change (0 <? 32) with true. rewrite Hu. reflexivity.
  - rewrite (decryptCiphertext_composite this (Resolved cek') _ iv cipher_text _ hmac au
               16 128 Hau eq_refl eq_refl eq_refl eq_refl Hal Hiv ltac:(lia)).
    cbv zeta. rewrite Hl, Hx', Hl8, Hid. change (Z.of_nat 16 =? 16) with true.
    rewrite Z.eqb_refl. cbv iota. change (Z.to_nat 16) with 16%nat.
    rewrite Hm, Hdk. fold aad. rewrite Hs.
    rewrite (proj2 (compare_true_iff _ _) eq_refl).
    match goal with
    | |- context [subtle_decrypt ?p ?k ?d] =>
        change (subtle_decrypt p k d) with (subtle_decrypt params dec_key cipher_text)
    end.
    rewrite Hd. reflexivity.
Qed.

Lemma encrypt_decrypt_A128CBC_HS256_witness :
  exists jwe : string,
    encrypt (H := TestHost.host) (E := TestEncryptHost.encrypt_host)
      Samples.A128KW_A128CBC_HS256 (Resolved EncryptSamples.shared_key) "Hi"
    = Resolved jwe
    /\ result (decrypt (H := TestHost.host) (Resolved EncryptSamples.shared_key) jwe
                 EncryptSamples.A128KW_A256GCM)
       = Resolved "Hi".
Proof.
  set (cbc256 := {| alg_name := "AES-CBC"; alg_hash := None; alg_length := Some 256 |}).
  set (cbc128 := {| alg_name := "AES-CBC"; alg_hash := None; alg_length := Some 128 |}).
  set (cek := {| TestHost.raw := map Z.of_nat (seq 1 32); TestHost.algorithm := cbc256;
                 TestHost.extractable := true; TestHost.usages := ["encrypt"] |}).
  set (enc_key := {| TestHost.raw := map Z.of_nat (seq 17 16); TestHost.algorithm := cbc128;
                     TestHost.extractable := false; TestHost.usages := ["encrypt"] |}).
  set (dec_key := {| TestHost.raw := map Z.of_nat (seq 17 16); TestHost.algorithm := cbc128;
                     TestHost.extractable := false; TestHost.usages := ["decrypt"] |}).
  set (signature := TestHost.digest 32 (map Z.of_nat (seq 1 16))
                      (Samples.aad ++ Samples.iv ++ Samples.cipher_text
                         ++ length_block Samples.aad)).
  destruct (encrypt_decrypt_A128CBC_HS256 (H := TestHost.host)
              (E := TestEncryptHost.encrypt_host)
              Samples.A128KW_A128CBC_HS256 EncryptSamples.A128KW_A256GCM "A128KW"
              EncryptSamples.shared_key EncryptSamples.shared_key cek Samples.cek
              Samples.mac_key enc_key dec_key "Hi"
              EncryptSamples.wrapped_cek (map Z.of_nat (seq 1 32)) Samples.cipher_text
              signature EncryptSamples.header_object VUndefined)
    as (jwe & He & Hd);
    [first [apply bytes_checked | idtac]; vm_compute; reflexivity ..|].
  exists jwe. split; [exact He|]. exact (f_equal result Hd).
Defined.

Section RsaImport.
Import Utils.

Lemma convertRsaKey_missing rsa_key parameters p :
  In p parameters -> member rsa_key p = VUndefined ->
  convertRsaKey rsa_key parameters
  = Thrown (Error ("convertRsaKey: Was expecting "
                   +:+ join "," (List.filter (fun p => is_undefined (member rsa_key p))
                                   parameters))).
Proof.
  intros Hp Hu. unfold convertRsaKey. cbv zeta.
  assert (Hin : In p (List.filter (fun p => is_undefined (member rsa_key p)) parameters))
    by (apply filter_In; split; [exact Hp | now rewrite Hu]).
  destruct (List.filter _ parameters) as [|m ms]; [destruct Hin | reflexivity].
Qed.

Lemma convertRsaKey_public rsa_key :
  member rsa_key "e" <> VUndefined -> (exists s, member rsa_key "n" = VString s) ->
  kty_ok rsa_key -> alg_ok rsa_key ->
  exists jwk, convertRsaKey rsa_key ["n"; "e"] = Resolved jwk.
Proof.
  intros He [s Hn] Hk Ha.
  rewrite (convertRsaKey_loop_eq rsa_key ["n"; "e"]); try assumption.
  - apply loop_total. intros p Hp. apply convertRsaKey_value_total. intros Hne.
    destruct Hp as [<-|[<-|[]]]; [now exists s | now contradict Hne].
  - intros p [<-|[<-|[]]]; [now rewrite Hn | exact He].
Qed.

End RsaImport.

(** X24. [importRsaPublicKey] hands the provider the public part only: on
    a key with a string [n], some [e] and no foreign [kty] or [alg], its
    result is the promise of [crypto.subtle.importKey] on a JWK whose
    members are exactly [kty], [alg], [n] and [e] (a private exponent in
    the input is left out), for RSA-OAEP with SHA-1, not extractable, for
    [wrapKey] only.  [importRsaPrivateKey] asks for all eight parameters:
    when one is missing it throws "Was expecting" with the missing names,
    and otherwise imports for [unwrapKey] only. *)
Theorem importRsaKey_provider_input `{H : Host} {E : EncryptHost}
    (rsa_key : gmap string value) :
  let oaep := {| alg_name := "RSA-OAEP"; alg_hash := Some "SHA-1"; alg_length := None |} in
  let private := ["n"; "e"; "d"; "p"; "q"; "dp"; "dq"; "qi"] in
  (Utils.member rsa_key "e" <> VUndefined ->
   (exists s, Utils.member rsa_key "n" = VString s) ->
   kty_ok rsa_key -> alg_ok rsa_key ->
   exists jwk,
     Utils.convertRsaKey rsa_key ["n"; "e"] = Resolved jwk
     /\ importRsaPublicKey rsa_key = subtle_importKey_jwk jwk oaep false ["wrapKey"]
     /\ (forall p : string, is_Some (jwk !! p) <-> In p ["kty"; "alg"; "n"; "e"]))
  /\ (forall p, In p private -> Utils.member rsa_key p = VUndefined ->
        importRsaPrivateKey rsa_key
        = Thrown (Error ("convertRsaKey: Was expecting "
                         +:+ join "," (List.filter
                                         (fun p => Utils.is_undefined (Utils.member rsa_key p))
                                         private))))
  /\ (forall jwk, Utils.convertRsaKey rsa_key private = Resolved jwk ->
        importRsaPrivateKey rsa_key = subtle_importKey_jwk jwk oaep false ["unwrapKey"]).
Proof.
  cbv zeta. split; [|split].
  - intros He Hn Hk Ha. destruct (convertRsaKey_public rsa_key He Hn Hk Ha) as [jwk Hj].
    exists jwk. split; [exact Hj|]. split.
    + unfold importRsaPublicKey. rewrite Hj. reflexivity.
    + intros p. rewrite <- elem_of_dom, (convertRsaKey_dom _ _ _ Hj), !elem_of_union,
        !elem_of_singleton, elem_of_list_to_set, list_elem_of_In. simpl.
      split; [intros [[->|[->|Hn']]|[->|[->|[]]]] | intros [<-|[<-|[<-|[<-|[]]]]]]; auto.
      now apply elem_of_empty in Hn'.
  - intros p Hp Hu. unfold importRsaPrivateKey.
    rewrite (convertRsaKey_missing rsa_key _ p Hp Hu). reflexivity.
  - intros jwk Hj. unfold importRsaPrivateKey. rewrite Hj. reflexivity.
Qed.

Lemma importRsaKey_provider_input_witness :
  (exists jwk,
     importRsaPublicKey (H := TestHost.host) (E := TestEncryptHost.encrypt_host)
       {["n" := VString "00:c1:0f"; "e" := VNumber 65537; "d" := VString "c2VjcmV0"]}
     = TestEncryptHost.importKey_jwk jwk
         {| alg_name := "RSA-OAEP"; alg_hash := Some "SHA-1"; alg_length := None |}
         false ["wrapKey"]
     /\ jwk !! "d" = None)
  /\ importRsaPrivateKey (H := TestHost.host) (E := TestEncryptHost.encrypt_host)
       {["n" := VString "00:c1:0f"; "e" := VNumber 65537; "d" := VString "c2VjcmV0"]}
     = Thrown (Error "convertRsaKey: Was expecting p,q,dp,dq,qi").
Proof.
  pose proof (importRsaKey_provider_input (H := TestHost.host)
                (E := TestEncryptHost.encrypt_host)
                {["n" := VString "00:c1:0f"; "e" := VNumber 65537;
                  "d" := VString "c2VjcmV0"]}) as (Hpub & Hpriv & _).
  split.
  - destruct Hpub as (jwk & _ & Hrun & Hdom).
    + vm_compute. discriminate.
    + exists "00:c1:0f". vm_compute. reflexivity.
    + left. vm_compute. reflexivity.
    + left. vm_compute. reflexivity.
    + exists jwk. split; [exact Hrun|].
      destruct (jwk !! "d") as [v|] eqn:Hd; [|reflexivity].
      assert (Hs : is_Some (jwk !! "d")) by (rewrite Hd; now eexists).
      apply Hdom in Hs. simpl in Hs.
      destruct Hs as [Hs|[Hs|[Hs|[Hs|[]]]]]; discriminate Hs.
  - etransitivity; [apply (Hpriv "p"); [simpl; tauto | vm_compute; reflexivity]|].
    vm_compute. reflexivity.
Defined.

(** X25. The registry is consistent with the functions that read it.  For
    every configuration [getCryptoConfig] returns, [getCekWorkaround]
    succeeds (never "invalid len").  An AEAD suite has a 12-byte IV, a
    16-byte tag and no key workaround; a composite suite has a 16-byte IV,
    a tag as long as its MAC key, and a [specific_cek_bytes] that is
    exactly the length [splitKey] checks for, the AES key and the MAC key
    together; a key-encryption algorithm has none of these members. *)
Theorem registry_suites_consistent (s : string) (c : CryptoConfig) :
  getCryptoConfig (VString s) = Resolved c ->
  (exists hack, Utils.getCekWorkaround c = Resolved hack
                /\ (specific_cek_bytes c = None -> Utils.hack_id hack = cfg_id c))
  /\ match auth c with
     | None => iv_bytes c = None /\ specific_cek_bytes c = None
     | Some a =>
         if aead a
         then tag_bytes a = Some 16 /\ iv_bytes c = Some 12 /\ specific_cek_bytes c = None
         else exists n k len : Z,
                specific_cek_bytes c = Some n /\ key_bytes a = Some k
                /\ alg_length (cfg_id c) = Some len /\ n * 8 = len + k * 8
                /\ truncated_bytes a = Some k /\ iv_bytes c = Some 16
                /\ is_Some (auth_id a)
     end.
Proof.
  intros Hc. destruct (getCryptoConfig_name s c Hc) as [Hs Hin].
  unfold recognized in Hin. simpl in Hin.
  destruct Hin as [<-|[<-|[<-|[<-|[<-|[<-|[<-|[<-|[]]]]]]]]];
    vm_compute in Hs; injection Hs as <-;
    (split; [eexists; split; [reflexivity | try discriminate; reflexivity]|]);
    cbn; try (repeat split; reflexivity).
  - exists 32, 16, 128. repeat split; try reflexivity. now eexists.
  - exists 64, 32, 256. repeat split; try reflexivity. now eexists.
Qed.

Lemma registry_suites_consistent_witness :
  exists hack,
    Utils.getCekWorkaround (Samples.registry "A256CBC-HS512") = Resolved hack
    /\ specific_cek_bytes (Samples.registry "A256CBC-HS512") = Some 64.
Proof.
  destruct (registry_suites_consistent "A256CBC-HS512" (Samples.registry "A256CBC-HS512")
              eq_refl) as [(hack & Hh & _) Ha].
  exists hack. split; [exact Hh | reflexivity].
Defined.
